(** * Lead Analyzer: the cleaning and aggregation pipeline of [lead_analyzer.py]

    A shallow embedding of class [LeadAnalyzer].  The pandas objects the
    class manipulates are modelled as follows.

    - A cell is a dynamically typed [value]: a missing value ([NaN], or
      [NaT] in a datetime column), a Python [str], a number, or a
      timestamp (nanoseconds since the epoch, as [datetime64[ns]] stores
      it).  Python strings are modelled by ASCII strings: [strip],
      [title] and [lower] are those of Python on the ASCII range, and
      what is stated of them beyond single calls is stated of ASCII
      text.  Numbers (int64 and float64 alike) are modelled by exact
      rationals: the rounding of float64, the wrap-around of int64 and
      the non-finite floats of a data cell are outside the model, so a
      sum of lead values and a quotient rounded to two decimals are
      those of exact arithmetic, which pandas may miss in the last
      digit; of these the theorems state the order, the bounds and the
      cases of division by zero.  Counts are exact.
      The quotients pandas computes ([x / 0] does not raise) get the
      type [float64] below, which has the infinities and the float NaN.
    - A [DataFrame] is a list of rows over the eight columns the class
      names; further columns of the CSV are carried along unchanged by
      pandas and are not represented.
    - [self.df] and [self.clean_df] hold references into a store of
      frames, so that [DataFrame.copy] and the in-place updates of
      [clean_data] are what they are in Python.
    - The chained in-place calls [self.clean_df['phone'].fillna(..,
      inplace=True)] update the frame, as they do in pandas before
      copy-on-write became the default.
    - [print] is recorded for the messages of the precondition guards;
      progress lines and formatted reports are presentation and elided. *)

From Stdlib Require Import QArith Qround ZArith Lia.
From Stdlib Require Import Sorting.Sorted Sorting.Permutation.
From Stdlib Require Import Ascii String.
From stdpp Require Import base tactics option list gmap strings.

Local Open Scope string_scope.

(** ** Python strings *)

Module PyStr.

Definition code (c : ascii) : nat := nat_of_ascii c.

Definition in_range (lo hi : nat) (c : ascii) : bool :=
  (lo <=? code c)%nat && (code c <=? hi)%nat.

(** [str.isspace] on the ASCII range: TAB..CR, FS..US and the space. *)
Definition isspace (c : ascii) : bool :=
  in_range 9 13 c || in_range 28 32 c.

Definition isupper (c : ascii) : bool := in_range 65 90 c.
Definition islower (c : ascii) : bool := in_range 97 122 c.
Definition isalpha (c : ascii) : bool := isupper c || islower c.
Definition isdigit (c : ascii) : bool := in_range 48 57 c.

Definition upper (c : ascii) : ascii :=
  if islower c then ascii_of_nat (code c - 32) else c.
Definition lower (c : ascii) : ascii :=
  if isupper c then ascii_of_nat (code c + 32) else c.

Fixpoint lstrip_chars (l : list ascii) : list ascii :=
  match l with
  | c :: l' => if isspace c then lstrip_chars l' else l
  | [] => []
  end.

Definition rstrip_chars (l : list ascii) : list ascii :=
  rev (lstrip_chars (rev l)).

(** [str.strip()] without argument. *)
Definition strip (s : string) : string :=
  string_of_list_ascii (rstrip_chars (lstrip_chars (list_ascii_of_string s))).

(** [str.title()]: the first cased character of every run of cased
    characters is upper-cased, the others are lower-cased;
    [previous_is_cased] is the flag of CPython's loop. *)
Fixpoint title_chars (previous_is_cased : bool) (l : list ascii) : list ascii :=
  match l with
  | [] => []
  | c :: l' =>
      if islower c then
        (if previous_is_cased then c else upper c) :: title_chars true l'
      else if isupper c then
        (if previous_is_cased then lower c else c) :: title_chars true l'
      else c :: title_chars false l'
  end.

Definition title (s : string) : string :=
  string_of_list_ascii (title_chars false (list_ascii_of_string s)).

End PyStr.

(** ** Regular expressions ([re]) *)

Module Re.

Inductive regex : Type :=
| Void
| Eps
| Class (p : ascii → bool)
| Seq (r1 r2 : regex)
| Alt (r1 r2 : regex)
| Star (r : regex).

Definition Chr (c : ascii) : regex := Class (Ascii.eqb c).
Definition Plus (r : regex) : regex := Seq r (Star r).
(** [r{2,}] *)
Definition AtLeast2 (r : regex) : regex := Seq r (Seq r (Star r)).

Fixpoint nullable (r : regex) : bool :=
  match r with
  | Void => false
  | Eps => true
  | Class _ => false
  | Seq r1 r2 => nullable r1 && nullable r2
  | Alt r1 r2 => nullable r1 || nullable r2
  | Star _ => true
  end.

(** Brzozowski derivative of [r] by the character [c]. *)
Fixpoint deriv (c : ascii) (r : regex) : regex :=
  match r with
  | Void => Void
  | Eps => Void
  | Class p => if p c then Eps else Void
  | Seq r1 r2 =>
      if nullable r1
      then Alt (Seq (deriv c r1) r2) (deriv c r2)
      else Seq (deriv c r1) r2
  | Alt r1 r2 => Alt (deriv c r1) (deriv c r2)
  | Star r' => Seq (deriv c r') (Star r')
  end.

Fixpoint accepts (r : regex) (l : list ascii) : bool :=
  match l with
  | [] => nullable r
  | c :: l' => accepts (deriv c r) l'
  end.

Definition newline : ascii := ascii_of_nat 10.

(** [re.match('^' r '$', s)]: the whole of [s] is matched, where [$]
    also matches just before a newline that ends the string. *)
Definition match_anchored (r : regex) (s : string) : bool :=
  let l := list_ascii_of_string s in
  accepts r l ||
  match rev l with
  | c :: l' => Ascii.eqb c newline && accepts r (rev l')
  | [] => false
  end.

End Re.

Definition one_of (chars : string) (c : ascii) : bool :=
  existsb (Ascii.eqb c) (list_ascii_of_string chars).

Definition alnum (c : ascii) : bool := PyStr.isalpha c || PyStr.isdigit c.

(** [email_pattern = r'^[a-zA-Z0-9._%+-]+@[a-zA-Z0-9.-]+\.[a-zA-Z]{2,}$'],
    the anchors being those of [Re.match_anchored]. *)
Definition email_pattern : Re.regex :=
  Re.Seq (Re.Plus (Re.Class (fun c => alnum c || one_of "._%+-" c)))
  (Re.Seq (Re.Chr "@")
  (Re.Seq (Re.Plus (Re.Class (fun c => alnum c || one_of ".-" c)))
  (Re.Seq (Re.Chr ".")
          (Re.AtLeast2 (Re.Class PyStr.isalpha))))).

(** ** Cells, rows and frames *)

Inductive value : Type :=
| NaN
| NaT
| Str (s : string)
| Num (q : Q)
| Timestamp (ns : Z).

Definition isnull (v : value) : bool :=
  match v with NaN | NaT => true | _ => false end.

Definition notnull (v : value) : bool := negb (isnull v).

Definition is_str (v : value) : bool :=
  match v with Str _ => true | _ => false end.

Inductive column : Type :=
| lead_id_col | name_col | email_col | phone_col
| source_col | status_col | lead_value_col | date_added_col.

Record row : Type := mk_row {
  lead_id : value;
  name : value;
  email : value;
  phone : value;
  source : value;
  status : value;
  lead_value : value;
  date_added : value
}.

Definition table : Type := list row.

Definition get (c : column) (r : row) : value :=
  match c with
  | lead_id_col => lead_id r
  | name_col => name r
  | email_col => email r
  | phone_col => phone r
  | source_col => source r
  | status_col => status r
  | lead_value_col => lead_value r
  | date_added_col => date_added r
  end.

Definition set (c : column) (v : value) (r : row) : row :=
  match c with
  | lead_id_col => mk_row v (name r) (email r) (phone r) (source r) (status r) (lead_value r) (date_added r)
  | name_col => mk_row (lead_id r) v (email r) (phone r) (source r) (status r) (lead_value r) (date_added r)
  | email_col => mk_row (lead_id r) (name r) v (phone r) (source r) (status r) (lead_value r) (date_added r)
  | phone_col => mk_row (lead_id r) (name r) (email r) v (source r) (status r) (lead_value r) (date_added r)
  | source_col => mk_row (lead_id r) (name r) (email r) (phone r) v (status r) (lead_value r) (date_added r)
  | status_col => mk_row (lead_id r) (name r) (email r) (phone r) (source r) v (lead_value r) (date_added r)
  | lead_value_col => mk_row (lead_id r) (name r) (email r) (phone r) (source r) (status r) v (date_added r)
  | date_added_col => mk_row (lead_id r) (name r) (email r) (phone r) (source r) (status r) (lead_value r) v
  end.

(** ** Exceptions *)

Inductive exn : Type :=
| AttributeError        (* [.str] or [.dt] on a column of another dtype *)
| ValueError            (* [idxmax] of an empty Series *)
| KeyError              (* [.loc] with a label that is not in the index *)
| TypeError             (* arithmetic on a non-numeric cell *)
| DateParseError        (* the error of [pd.to_datetime] on a string it does not read *)
| FileNotFoundError
| OtherError            (* any other failure of [pd.read_csv] *)
| NoSuchObject.         (* a reference outside the store; no Python run has one *)

Inductive result (A : Type) : Type :=
| Ok (a : A)
| Raise (e : exn).

Arguments Ok {A} a.
Arguments Raise {A} e.

Definition rbind {A B : Type} (m : result A) (f : A → result B) : result B :=
  match m with
  | Ok a => f a
  | Raise e => Raise e
  end.

Fixpoint traverse {A B : Type} (f : A → result B) (l : list A) : result (list B) :=
  match l with
  | [] => Ok []
  | x :: l' => rbind (f x) (fun y => rbind (traverse f l') (fun l'' => Ok (y :: l'')))
  end.

(** ** Series and frame operations of pandas *)

(** [df[c]] *)
Definition getitem (c : column) (t : table) : list value := map (get c) t.

(** [df[c] = series], the series having the index of the frame. *)
Definition setitem (c : column) (series : list value) (t : table) : table :=
  zip_with (set c) series t.

(** [df.loc[mask, c] = v] *)
Definition loc_assign (mask : list bool) (c : column) (v : value) (t : table) : table :=
  zip_with (fun (b : bool) r => if b then set c v r else r) mask t.

(** [series.fillna(x)] *)
Definition fillna (x : value) (series : list value) : list value :=
  map (fun v => if isnull v then x else v) series.

(** The [.str] accessor is there for an object column: one that is empty
    (a CSV with a header only is read with object columns) or holds a
    string.  A non-empty column that [read_csv] found without any string
    is numeric (float64 when it is all missing), and [.str] raises. *)
Definition str_accessor (series : list value) : result (list value) :=
  match series with
  | [] => Ok series
  | _ => if existsb is_str series then Ok series else Raise AttributeError
  end.

(** Element-wise string methods give NaN on a cell that is not a [str]. *)
Definition str_map (f : string → string) (series : list value) : list value :=
  map (fun v => match v with Str s => Str (f s) | _ => NaN end) series.

Definition str_strip : list value → list value := str_map PyStr.strip.
Definition str_title : list value → list value := str_map PyStr.title.

(** [series.str.match(pat, na=na)] *)
Definition str_match (pat : Re.regex) (na : bool) (series : list value) : list bool :=
  map (fun v => match v with Str s => Re.match_anchored pat s | _ => na end) series.

Definition int64_min : Z := - 2 ^ 63.
Definition int64_max : Z := 2 ^ 63 - 1.

(** A number is read as nanoseconds since the epoch, its fraction cut. *)
Definition ns_of_number (q : Q) : Z := Z.quot (Qnum q) (Zpos (Qden q)).

(** ** Parsers and tables for the examples *)

Module Sample.

Definition digit (c : ascii) : option Z :=
  if PyStr.isdigit c then Some (Z.of_nat (PyStr.code c) - 48)%Z else None.

Fixpoint digits (acc : Z) (l : list ascii) : option Z :=
  match l with
  | [] => Some acc
  | c :: l' => d ← digit c; digits (10 * acc + d)%Z l'
  end.

Definition leap (y : Z) : bool :=
  ((y mod 4 =? 0) && negb (y mod 100 =? 0) || (y mod 400 =? 0))%Z.

Definition days_in_month (y m : Z) : Z :=
  if (m =? 2)%Z then (if leap y then 29 else 28)%Z
  else if ((m =? 4) || (m =? 6) || (m =? 9) || (m =? 11))%Z then 30%Z
  else 31%Z.

(** Days from 1970-01-01 to the day [d] of month [m] of year [y]. *)
Definition days_from_civil (y m d : Z) : Z :=
  let y' := (if m <=? 2 then y - 1 else y)%Z in
  let era := (y' / 400)%Z in
  let yoe := (y' - era * 400)%Z in
  let doy := ((153 * (if 2 <? m then m - 3 else m + 9) + 2) / 5 + d - 1)%Z in
  let doe := (yoe * 365 + yoe / 4 - yoe / 100 + doy)%Z in
  (era * 146097 + doe - 719468)%Z.

(** ISO calendar dates [YYYY-MM-DD], read as midnight of that day. *)
Definition iso_date (s : string) : option Z :=
  match list_ascii_of_string s with
  | [y1; y2; y3; y4; h1; m1; m2; h2; d1; d2] =>
      if Ascii.eqb h1 "-" && Ascii.eqb h2 "-" then
        y ← digits 0 [y1; y2; y3; y4];
        m ← digits 0 [m1; m2];
        d ← digits 0 [d1; d2];
        if ((1 <=? m) && (m <=? 12) && (1 <=? d) && (d <=? days_in_month y m))%Z
        then Some (days_from_civil y m d * (86400 * 10 ^ 9))%Z
        else None
      else None
  | _ => None
  end.

(** A parser that reads ISO dates and nothing else, whatever the first
    string of the column is: the format guessed from an ISO date is that
    of ISO dates. *)
Definition parse_datetime (first s : string) : option Z := iso_date s.

Fixpoint split_at_dot (l : list ascii) : list ascii * option (list ascii) :=
  match l with
  | [] => ([], None)
  | c :: l' =>
      if Ascii.eqb c "." then ([], Some l')
      else let '(a, b) := split_at_dot l' in (c :: a, b)
  end.

Definition unsigned_decimal (l : list ascii) : option Q :=
  let '(int_part, frac) := split_at_dot l in
  let frac_part := default [] frac in
  match (int_part ++ frac_part)%list with
  | [] => None
  | all => n ← digits 0 all;
           Some (Qred (Qmake n (Z.to_pos (10 ^ Z.of_nat (length frac_part)))))
  end.

(** Decimal literals: an optional sign, digits, an optional fraction. *)
Definition parse_numeric (s : string) : option Q :=
  match list_ascii_of_string s with
  | c :: l' =>
      if Ascii.eqb c "-" then Qopp <$> unsigned_decimal l'
      else if Ascii.eqb c "+" then unsigned_decimal l'
      else unsigned_decimal (c :: l')
  | [] => None
  end.

End Sample.

(** The two rows of the scenario, as [read_csv] delivers them: the empty
    [lead_value] is missing and ["150"] is the number; the columns the
    scenario does not give are missing, but for the identifiers and names
    (a column that is missing throughout has no [.str]). *)
Definition scenario : table :=
  [ mk_row (Num 1) (Str "Ann") NaN NaN (Str " google ") (Str "converted") (Num 150) NaN;
    mk_row (Num 2) (Str "Bob") NaN NaN (Str "Google") (Str "New") NaN NaN ].

(** A small file of leads; one has no source and no status, one has a
    value that is not a number. *)
Definition leads : table :=
  [ mk_row (Num 1) (Str " Ann ") (Str "a@b.co") (Str "555-0100")
      (Str " google ") (Str "converted") (Str "150") (Str "2024-01-15");
    mk_row (Num 2) (Str "Bob") (Str "bad-email") NaN
      (Str "referral") (Str "new ") (Str "tbd") (Str "2024-01-16");
    mk_row (Num 3) (Str "Cy") NaN (Str "555-0102")
      NaN NaN NaN (Str "2024-01-23");
    mk_row (Num 4) (Str "Di") (Str "di@mail.example.org") (Str "555-0103")
      (Str "Google") (Str "CONVERTED") (Str "99.50") (Str "2024-01-23") ].

(** The same file with a date that cannot be read in the second row. *)
Definition leads_bad_date : table :=
  [ mk_row (Num 1) (Str " Ann ") (Str "a@b.co") (Str "555-0100")
      (Str " google ") (Str "converted") (Str "150") (Str "2024-01-15");
    mk_row (Num 2) (Str "Bob") (Str "bad-email") NaN
      (Str "referral") (Str "new ") (Str "tbd") (Str "not a date") ].

Section Parsers.

(** The parsers of the library are parameters of the model.
    [pd.to_datetime] does not read the strings of a column one by one:
    pandas 2 guesses a format from the first value of the column that is
    not missing, when that is a string, and reads every string of the
    column with it.  [parse_datetime first s] is the timestamp (in
    nanoseconds since the epoch) that it reads in the string [s] of a
    column whose format is guessed from the string [first], if it reads
    one; [parse_datetime s s] is what it reads in [s] on its own, which
    is how the strings of a column without a guessed format are read.
    The strings ["now"] and ["today"], which stand for the time of the
    call, are outside the model.
    [parse_numeric s] is the number that [pd.to_numeric] reads in [s]. *)
Variable parse_datetime : string → string → option Z.
Variable parse_numeric : string → option Q.

(** The strings every date conversion reads as a missing date:
    [nat_strings] of pandas, and the empty string. *)
Definition nat_strings : list string := ["NaT"; "nat"; "NAT"; "nan"; "NaN"; "NAN"].

Definition reads_as_nat (s : string) : bool :=
  match s with
  | EmptyString => true
  | _ => existsb (String.eqb s) nat_strings
  end.

Definition null_date (v : value) : bool :=
  match v with
  | NaN | NaT => true
  | Str s => reads_as_nat s
  | _ => false
  end.

Fixpoint first_non_null (series : list value) : option value :=
  match series with
  | [] => None
  | v :: rest => if null_date v then first_non_null rest else Some v
  end.

(** The string the format of a column is guessed from. *)
Definition date_format (series : list value) : option string :=
  match first_non_null series with
  | Some (Str s) => Some s
  | _ => None
  end.

(** One cell of [pd.to_datetime], in a column of format [format].  A
    string that is not read raises; a number is a count of nanoseconds,
    and one that is out of the range of a timestamp becomes NaT. *)
Definition to_datetime_cell (format : option string) (v : value) : result value :=
  match v with
  | NaN | NaT => Ok NaT
  | Timestamp ns => Ok (Timestamp ns)
  | Str s =>
      if reads_as_nat s then Ok NaT
      else match parse_datetime (default s format) s with
           | Some ns => Ok (Timestamp ns)
           | None => Raise DateParseError
           end
  | Num q =>
      let ns := ns_of_number q in
      if (int64_min <? ns)%Z && (ns <=? int64_max)%Z
      then Ok (Timestamp ns) else Ok NaT
  end.

(** [pd.to_datetime(series)] with the default [errors='raise']. *)
Definition to_datetime (series : list value) : result (list value) :=
  traverse (to_datetime_cell (date_format series)) series.

Definition to_numeric_cell (v : value) : value :=
  match v with
  | NaN | NaT => NaN
  | Num q => Num q
  | Timestamp ns => Num (inject_Z ns)
  | Str s =>
      match parse_numeric s with
      | Some q => Num q
      | None => NaN
      end
  end.

(** [pd.to_numeric(series, errors='coerce')] *)
Definition to_numeric_coerce (series : list value) : list value :=
  map to_numeric_cell series.

(** *** The statements of [clean_data] after the copy, in order

    Each one rewrites the frame [self.clean_df] refers to, or raises. *)

(* self.clean_df['phone'].fillna('Not provided', inplace=True) *)
Definition fill_phone (t : table) : result table :=
  Ok (setitem phone_col (fillna (Str "Not provided") (getitem phone_col t)) t).

(* self.clean_df['email'].fillna('Not provided', inplace=True) *)
Definition fill_email (t : table) : result table :=
  Ok (setitem email_col (fillna (Str "Not provided") (getitem email_col t)) t).

(* self.clean_df['lead_value'].fillna(0, inplace=True) *)
Definition fill_lead_value (t : table) : result table :=
  Ok (setitem lead_value_col (fillna (Num 0%Q) (getitem lead_value_col t)) t).

(* self.clean_df[c] = self.clean_df[c].str.strip().str.title() *)
Definition strip_title (c : column) (t : table) : result table :=
  rbind (str_accessor (getitem c t)) (fun s1 =>
  rbind (str_accessor (str_strip s1)) (fun s2 =>
  Ok (setitem c (str_title s2) t))).

(* self.clean_df['name'] = self.clean_df['name'].str.strip() *)
Definition strip_name (t : table) : result table :=
  rbind (str_accessor (getitem name_col t)) (fun s1 =>
  Ok (setitem name_col (str_strip s1) t)).

(* invalid_emails = ~self.clean_df['email'].str.match(email_pattern, na=False)
   self.clean_df.loc[invalid_emails, 'email'] = 'Invalid email' *)
Definition validate_emails (t : table) : result table :=
  rbind (str_accessor (getitem email_col t)) (fun s1 =>
  let invalid_emails := map negb (str_match email_pattern false s1) in
  Ok (loc_assign invalid_emails email_col (Str "Invalid email") t)).

(* self.clean_df['date_added'] = pd.to_datetime(self.clean_df['date_added']) *)
Definition convert_dates (t : table) : result table :=
  rbind (to_datetime (getitem date_added_col t)) (fun s1 =>
  Ok (setitem date_added_col s1 t)).

(* self.clean_df['lead_value'] =
     pd.to_numeric(self.clean_df['lead_value'], errors='coerce').fillna(0) *)
Definition coerce_lead_value (t : table) : result table :=
  Ok (setitem lead_value_col
        (fillna (Num 0%Q) (to_numeric_coerce (getitem lead_value_col t))) t).

Definition statement : Type := table → result table.

Definition before_dates : list statement :=
  [ fill_phone; fill_email; fill_lead_value;
    strip_title source_col; strip_title status_col; strip_name;
    validate_emails ].

Definition cleaning_statements : list statement :=
  before_dates ++ [ convert_dates; coerce_lead_value ].

(** Running statements on a frame: the frame as the last statement that
    ran left it, and the exception that stopped the run, if any. *)
Fixpoint run (stmts : list statement) (t : table) : result unit * table :=
  match stmts with
  | [] => (Ok tt, t)
  | f :: rest =>
      match f t with
      | Ok t' => run rest t'
      | Raise e => (Raise e, t)
      end
  end.

(** ** The analyzer object and its store *)

Record session : Type := mk_session {
  csv_file : string;
  heap : gmap positive table;      (* the frames in memory, by reference *)
  df : option positive;            (* self.df *)
  clean_df : option positive;      (* self.clean_df *)
  stdout : list string
}.

(** [LeadAnalyzer(csv_file)] *)
Definition init (file : string) : session := mk_session file ∅ None None [].

(** Methods run in a state monad with exceptions; a raised exception
    keeps the state as it was when it was raised. *)
Definition M (A : Type) : Type := session → result A * session.

#[local] Instance M_ret : MRet M := fun A a s => (Ok a, s).

#[local] Instance M_bind : MBind M := fun A B f m s =>
  match m s with
  | (Ok a, s') => f a s'
  | (Raise e, s') => (Raise e, s')
  end.

Definition lift {A : Type} (r : result A) : M A := fun s => (r, s).

Definition print (msg : string) : M unit := fun s =>
  (Ok tt, mk_session (csv_file s) (heap s) (df s) (clean_df s) (stdout s ++ [msg])).

Definition get_df : M (option positive) := fun s => (Ok (df s), s).
Definition get_clean_df : M (option positive) := fun s => (Ok (clean_df s), s).

Definition set_df (l : positive) : M unit := fun s =>
  (Ok tt, mk_session (csv_file s) (heap s) (Some l) (clean_df s) (stdout s)).

Definition set_clean_df (l : positive) : M unit := fun s =>
  (Ok tt, mk_session (csv_file s) (heap s) (df s) (Some l) (stdout s)).

(** A new frame object holding [t]. *)
Definition new_frame (t : table) : M positive := fun s =>
  let l := fresh (dom (heap s)) in
  (Ok l, mk_session (csv_file s) (<[l := t]> (heap s)) (df s) (clean_df s) (stdout s)).

(** The contents of the frame at [l]. *)
Definition frame (l : positive) : M table := fun s =>
  match heap s !! l with
  | Some t => (Ok t, s)
  | None => (Raise NoSuchObject, s)
  end.

(** Overwrite the contents of the frame at [l]. *)
Definition store (l : positive) (t : table) : M unit := fun s =>
  (Ok tt, mk_session (csv_file s) (<[l := t]> (heap s)) (df s) (clean_df s) (stdout s)).

(** [load_data], given what [pd.read_csv(self.csv_file)] does now. *)
Definition load_data (read_csv : result table) : M bool :=
  match read_csv with
  | Ok t => l ← new_frame t; set_df l;; mret true
  | Raise _ => mret false
  end.

(** One statement of [clean_data] on the frame [self.clean_df] refers to. *)
Definition in_place (f : statement) : M unit :=
  c ← get_clean_df;
  match c with
  | None => lift (Raise TypeError)
  | Some l => t ← frame l; t' ← lift (f t); store l t'
  end.

Fixpoint exec (stmts : list statement) : M unit :=
  match stmts with
  | [] => mret tt
  | f :: rest => in_place f;; exec rest
  end.

Definition clean_data : M unit :=
  d ← get_df;
  match d with
  | None => print "Please load data first"
  | Some l =>
      t ← frame l;
      c ← new_frame t;            (* self.df.copy() *)
      set_clean_df c;;            (* self.clean_df = ... *)
      exec cleaning_statements
  end.

(** ** Numbers of the reports *)

(** A quotient as numpy computes it: division by zero gives an infinity
    or the float NaN, it does not raise. *)
Inductive float64 : Type :=
| Finite (q : Q)
| PosInf
| NegInf
| FloatNaN.

Definition of_nat (n : nat) : Q := inject_Z (Z.of_nat n).

Definition fdiv (a b : Q) : float64 :=
  if Qeq_bool b 0%Q then
    match Qcompare a 0%Q with
    | Gt => PosInf
    | Lt => NegInf
    | Eq => FloatNaN
    end
  else Finite (a / b)%Q.

Definition fmul (x : float64) (k : Q) : float64 :=
  match x with
  | Finite q => Finite (q * k)%Q
  | _ => x
  end.

(** Round to the nearest integer, halves to the even one. *)
Definition rint (q : Q) : Z :=
  let f := Qfloor q in
  match Qcompare (q - inject_Z f)%Q (1 # 2)%Q with
  | Lt => f
  | Gt => (f + 1)%Z
  | Eq => if Z.even f then f else (f + 1)%Z
  end.

(** [.round(2)] *)
Definition round2 (x : float64) : float64 :=
  match x with
  | Finite q => Finite (inject_Z (rint (q * 100)%Q) / 100)%Q
  | _ => x
  end.

(** [a > b] on floats; false when either is the float NaN. *)
Definition fgtb (a b : float64) : bool :=
  match a, b with
  | FloatNaN, _ | _, FloatNaN => false
  | PosInf, PosInf => false
  | PosInf, _ => true
  | _, PosInf => false
  | NegInf, _ => false
  | Finite _, NegInf => true
  | Finite p, Finite q => negb (Qle_bool p q)
  end.

Definition is_float_nan (x : float64) : bool :=
  match x with FloatNaN => true | _ => false end.

(** ** Sorting and grouping *)

Fixpoint insert_sorted {A : Type} (leb : A → A → bool) (x : A) (l : list A) : list A :=
  match l with
  | [] => [x]
  | y :: l' => if leb x y then x :: l else y :: insert_sorted leb x l'
  end.

(** A stable sort; pandas leaves the order of equal keys open. *)
Definition sort {A : Type} (leb : A → A → bool) (l : list A) : list A :=
  foldr (insert_sorted leb) [] l.

(** The distinct elements, by first occurrence. *)
Fixpoint unique {K : Type} (eqb : K → K → bool) (l : list K) : list K :=
  match l with
  | [] => []
  | x :: l' => x :: List.filter (fun y => negb (eqb y x)) (unique eqb l')
  end.

(** [df[mask]] *)
Definition select (mask : list bool) (t : table) : table :=
  omap (fun p : bool * row => if p.1 then Some p.2 else None) (zip mask t).

Definition key_is {K : Type} (eqb : K → K → bool) (k : K) (o : option K) : bool :=
  match o with
  | Some k' => eqb k' k
  | None => false
  end.

(** [df.groupby(keys)]: one group for each distinct key that is not
    missing ([dropna=True]), the groups in the order of their keys
    ([sort=True]); [None] is a missing key. *)
Definition groupby {K : Type} (eqb leb : K → K → bool)
    (keys : list (option K)) (t : table) : list (K * table) :=
  map (fun k => (k, select (map (key_is eqb k) keys) t))
      (sort leb (unique eqb (omap id keys))).

(** [==] of Python on cells; a missing value equals nothing. *)
Definition value_eqb (a b : value) : bool :=
  match a, b with
  | Str s, Str s' => String.eqb s s'
  | Num p, Num q => Qeq_bool p q
  | Timestamp m, Timestamp n => Z.eqb m n
  | _, _ => false
  end.

Definition type_rank (v : value) : nat :=
  match v with
  | Num _ => 0 | Timestamp _ => 1 | Str _ => 2 | NaN | NaT => 3
  end.

(** The order of group keys: strings by code point; across types,
    numbers first. *)
Definition value_leb (a b : value) : bool :=
  match a, b with
  | Str s, Str s' => String.leb s s'
  | Num p, Num q => Qle_bool p q
  | Timestamp m, Timestamp n => Z.leb m n
  | _, _ => (type_rank a <=? type_rank b)%nat
  end.

Definition key_of (v : value) : option value :=
  if isnull v then None else Some v.

(** ['count']: the cells that are not missing. *)
Definition series_count (series : list value) : nat :=
  length (List.filter notnull series).

(** ['sum'] of a numeric column, missing cells skipped. *)
Fixpoint series_sum (series : list value) : result Q :=
  match series with
  | [] => Ok 0%Q
  | v :: rest =>
      rbind (series_sum rest) (fun acc =>
      match v with
      | Num q => Ok (q + acc)%Q
      | NaN | NaT => Ok acc
      | _ => Raise TypeError
      end)
  end.

(** [x == 'Converted'] *)
Definition is_converted (v : value) : bool := value_eqb v (Str "Converted").

(** [lambda x: (x == 'Converted').sum()] *)
Definition converted_count (series : list value) : nat :=
  length (List.filter is_converted series).

(** A row of [.agg({'lead_id': 'count', 'lead_value': 'sum', 'status': lambda})]. *)
Record aggregates : Type := mk_aggregates {
  lead_id_count : nat;
  lead_value_sum : Q;
  status_converted : nat
}.

Definition agg (g : table) : result aggregates :=
  rbind (series_sum (getitem lead_value_col g)) (fun total =>
  Ok (mk_aggregates (series_count (getitem lead_id_col g)) total
                    (converted_count (getitem status_col g)))).

Definition agg_groups {K : Type} (groups : list (K * table)) : result (list (K * aggregates)) :=
  traverse (fun g => rbind (agg g.2) (fun a => Ok (g.1, a))) groups.

(** ** The aggregations *)

(** *** [calculate_conversion_rate] *)

Definition conversion_rate_of (t : table) : Q :=
  let total := length t in
  let converted := length (select (map is_converted (getitem status_col t)) t) in
  if (0 <? total)%nat then (of_nat converted / of_nat total * 100)%Q else 0%Q.

Definition calculate_conversion_rate : M (option Q) :=
  c ← get_clean_df;
  match c with
  | None => print "Please clean data first";; mret None
  | Some l => t ← frame l; mret (Some (conversion_rate_of t))
  end.

(** *** [analyze_by_source] *)

Record source_stats : Type := mk_source_stats {
  source_index : value;
  total_leads : nat;
  total_value : Q;
  conversions : nat;
  conversion_rate : float64;
  avg_lead_value : float64
}.

(* the rename of the aggregated columns and the two derived columns *)
Definition source_row (g : value * aggregates) : source_stats :=
  let total_leads := lead_id_count g.2 in
  let total_value := lead_value_sum g.2 in
  let conversions := status_converted g.2 in
  mk_source_stats g.1 total_leads total_value conversions
    (round2 (fmul (fdiv (of_nat conversions) (of_nat total_leads)) 100))
    (round2 (fdiv total_value (of_nat total_leads))).

(** [sort_values('total_value', ascending=False)] *)
Definition sort_by_total_value (stats : list source_stats) : list source_stats :=
  sort (fun a b => Qle_bool (total_value b) (total_value a)) stats.

(** The label of the first largest entry that is not NaN ([skipna]);
    the missing label when every entry is NaN, [ValueError] when there
    is no entry. *)
Fixpoint first_max (best : option (value * float64)) (s : list (value * float64))
    : option (value * float64) :=
  match s with
  | [] => best
  | (k, x) :: rest =>
      if is_float_nan x then first_max best rest
      else match best with
           | None => first_max (Some (k, x)) rest
           | Some (_, y) =>
               if fgtb x y then first_max (Some (k, x)) rest
               else first_max best rest
           end
  end.

Definition idxmax (s : list (value * float64)) : result value :=
  match s with
  | [] => Raise ValueError
  | _ => Ok (match first_max None s with Some (k, _) => k | None => NaN end)
  end.

(** [source_stats.loc[label, 'conversion_rate']] *)
Definition loc_conversion_rate (label : value) (stats : list source_stats) : result float64 :=
  match List.find (fun r => value_eqb (source_index r) label) stats with
  | Some r => Ok (conversion_rate r)
  | None => Raise KeyError
  end.

Definition by_source (t : table) : result (list source_stats) :=
  rbind (agg_groups (groupby value_eqb value_leb (map key_of (getitem source_col t)) t))
    (fun grouped =>
  let source_stats := map source_row grouped in
  let source_stats := sort_by_total_value source_stats in
  (* Find best performing source *)
  rbind (idxmax (map (fun r => (source_index r, conversion_rate r)) source_stats))
    (fun best_source =>
  rbind (loc_conversion_rate best_source source_stats) (fun best_rate =>
  Ok source_stats))).

Definition analyze_by_source : M (option (list source_stats)) :=
  c ← get_clean_df;
  match c with
  | None => print "Please clean data first";; mret None
  | Some l => t ← frame l; r ← lift (by_source t); mret (Some r)
  end.

(** *** [analyze_by_status] *)

Record status_stats : Type := mk_status_stats {
  status_index : value;
  Count : nat;
  Percentage : float64
}.

(** [series.value_counts()]: missing cells dropped, largest count first. *)
Definition value_counts (series : list value) : list (value * nat) :=
  sort (fun a b => (b.2 <=? a.2)%nat)
    (map (fun k => (k, length (List.filter (fun v => value_eqb v k) series)))
         (unique value_eqb (List.filter notnull series))).

Definition by_status (t : table) : list status_stats :=
  let status_counts := value_counts (getitem status_col t) in
  map (fun kc : value * nat =>
         mk_status_stats kc.1 kc.2
           (round2 (fmul (fdiv (of_nat kc.2) (of_nat (length t))) 100)))
      status_counts.

Definition analyze_by_status : M (option (list status_stats)) :=
  c ← get_clean_df;
  match c with
  | None => print "Please clean data first";; mret None
  | Some l => t ← frame l; mret (Some (by_status t))
  end.

(** *** [analyze_trends] *)

Definition is_datetime (v : value) : bool :=
  match v with Timestamp _ | NaT => true | _ => false end.

(** The [.dt] accessor is there for a datetime column. *)
Definition dt_accessor (series : list value) : result (list value) :=
  if forallb is_datetime series then Ok series else Raise AttributeError.

Definition ns_per_day : Z := 86400 * 10 ^ 9.

(** [.dt.date], as the number of days since 1970-01-01. *)
Definition dt_date (v : value) : option Z :=
  match v with
  | Timestamp ns => Some (ns / ns_per_day)%Z
  | _ => None
  end.

(** [.dt.to_period('W')]: the week from Monday to Sunday the day is in,
    as the number of weeks since the week of 1970-01-01 (a Thursday). *)
Definition dt_to_period_W (v : value) : option Z :=
  match v with
  | Timestamp ns => Some ((ns / ns_per_day + 3) / 7)%Z
  | _ => None
  end.

Record daily_stats : Type := mk_daily_stats {
  date : Z;
  leads_added : nat;
  daily_total_value : Q;
  daily_conversions : nat;
  daily_conversion_rate : float64
}.

Record weekly_stats : Type := mk_weekly_stats {
  week : Z;
  weekly_leads_added : nat;
  weekly_total_value : Q;
  weekly_conversions : nat
}.

Definition daily_row (g : Z * aggregates) : daily_stats :=
  mk_daily_stats g.1 (lead_id_count g.2) (lead_value_sum g.2) (status_converted g.2)
    (round2 (fmul (fdiv (of_nat (status_converted g.2)) (of_nat (lead_id_count g.2))) 100)).

Definition weekly_row (g : Z * aggregates) : weekly_stats :=
  mk_weekly_stats g.1 (lead_id_count g.2) (lead_value_sum g.2) (status_converted g.2).

Definition trends (t : table) : result (list daily_stats * list weekly_stats) :=
  rbind (dt_accessor (getitem date_added_col t)) (fun dates =>
  rbind (agg_groups (groupby Z.eqb Z.leb (map dt_date dates) t)) (fun by_day =>
  let daily := map daily_row by_day in
  rbind (dt_accessor (getitem date_added_col t)) (fun dates' =>
  rbind (agg_groups (groupby Z.eqb Z.leb (map dt_to_period_W dates') t)) (fun by_week =>
  let weekly := map weekly_row by_week in
  Ok (daily, weekly))))).

Definition analyze_trends : M (option (list daily_stats * list weekly_stats)) :=
  c ← get_clean_df;
  match c with
  | None => print "Please clean data first";; mret None
  | Some l => t ← frame l; r ← lift (trends t); mret (Some r)
  end.

(** ** Vocabulary of the statements below *)

(** Every reference the object holds is to a frame in the store. *)
Definition wf (s : session) : Prop :=
  (∀ l, df s = Some l → is_Some (heap s !! l)) ∧
  (∀ l, clean_df s = Some l → is_Some (heap s !! l)).

(** The raw and the cleaned table the object holds, if any. *)
Definition raw_table (s : session) : option table :=
  l ← df s; heap s !! l.

Definition cleaned_table (s : session) : option table :=
  l ← clean_df s; heap s !! l.

(** The state after a message was printed and nothing else happened. *)
Definition say (msg : string) (s : session) : session :=
  mk_session (csv_file s) (heap s) (df s) (clean_df s) (stdout s ++ [msg]).

Definition email_matches (v : value) : bool :=
  match v with
  | Str s => Re.match_anchored email_pattern s
  | _ => false
  end.

Definition is_num (v : value) : bool :=
  match v with Num _ => true | _ => false end.

Definition str_or_nan (v : value) : bool :=
  match v with Str _ | NaN => true | _ => false end.

(** What holds of every row once [clean_data] has returned. *)
Definition is_clean (r : row) : bool :=
  notnull (phone r)
  && (email_matches (email r) || value_eqb (email r) (Str "Invalid email"))
  && str_or_nan (name r) && str_or_nan (source r) && str_or_nan (status r)
  && is_num (lead_value r) && is_datetime (date_added r).

(** The row [clean_data] makes of a raw row when it returns. *)
Definition standardized (f : string → string) (v : value) : value :=
  match v with Str s => Str (f s) | _ => NaN end.

Definition cleaned_email (v : value) : value :=
  if email_matches v then v else Str "Invalid email".

Definition cleaned_date (format : option string) (v : value) : value :=
  match to_datetime_cell format v with Ok d => d | Raise _ => v end.

Definition cleaned_lead_value (v : value) : value :=
  match to_numeric_cell (if isnull v then Num 0 else v) with
  | NaN | NaT => Num 0
  | n => n
  end.

Definition cleaned_row (format : option string) (r : row) : row :=
  mk_row (lead_id r)
         (standardized PyStr.strip (name r))
         (cleaned_email (email r))
         (if isnull (phone r) then Str "Not provided" else phone r)
         (standardized (fun s => PyStr.title (PyStr.strip s)) (source r))
         (standardized (fun s => PyStr.title (PyStr.strip s)) (status r))
         (cleaned_lead_value (lead_value r))
         (cleaned_date format (date_added r)).

(** The format of the dates of a table, and the table [clean_data]
    makes of a raw table when it returns. *)
Definition date_format_of (t : table) : option string :=
  date_format (getitem date_added_col t).

Definition cleaned_rows (t : table) : table :=
  map (cleaned_row (date_format_of t)) t.

(** The row as the statements before the date conversion leave it. *)
Definition half_cleaned_row (r : row) : row :=
  mk_row (lead_id r)
         (standardized PyStr.strip (name r))
         (cleaned_email (email r))
         (if isnull (phone r) then Str "Not provided" else phone r)
         (standardized (fun s => PyStr.title (PyStr.strip s)) (source r))
         (standardized (fun s => PyStr.title (PyStr.strip s)) (status r))
         (if isnull (lead_value r) then Num 0 else lead_value r)
         (date_added r).

(** The conversion rate in the words of the specification. *)
Fixpoint count_where (p : row → bool) (t : table) : nat :=
  match t with
  | [] => 0
  | r :: t' => (if p r then 1 else 0) + count_where p t'
  end.

Definition spec_conversion_rate (t : table) : Q :=
  match length t with
  | O => 0%Q
  | S _ =>
      (of_nat (count_where (fun r => is_converted (status r)) t)
       / of_nat (length t) * 100)%Q
  end.

(** *** Sequences of calls on one analyzer *)

Inductive call : Type :=
| Load (read_csv : result table)
| Clean
| ConversionRate
| BySource
| ByStatus
| Trends.

(** What has happened to the analyzer so far: whether some [load_data]
    returned [True], whether some [clean_data] got past its guard, and
    whether some [clean_data] got past its guard and returned. *)
Record progress : Type := mk_progress {
  load_succeeded : bool;
  clean_started : bool;
  clean_succeeded : bool
}.

Definition after_call (ps : progress * session) (c : call) : progress * session :=
  let p := ps.1 in
  let s := ps.2 in
  match c with
  | Load read_csv =>
      match load_data read_csv s with
      | (Ok true, s') => (mk_progress true (clean_started p) (clean_succeeded p), s')
      | (_, s') => (p, s')
      end
  | Clean =>
      match df s, clean_data s with
      | None, (_, s') => (p, s')
      | Some _, (Ok _, s') => (mk_progress (load_succeeded p) true true, s')
      | Some _, (Raise _, s') => (mk_progress (load_succeeded p) true (clean_succeeded p), s')
      end
  | ConversionRate => (p, (calculate_conversion_rate s).2)
  | BySource => (p, (analyze_by_source s).2)
  | ByStatus => (p, (analyze_by_status s).2)
  | Trends => (p, (analyze_trends s).2)
  end.

Definition after_calls (file : string) (calls : list call) : progress * session :=
  foldl after_call (mk_progress false false false, init file) calls.

(** Whether column [c] has its [.str] accessor. *)
Definition has_str (c : column) (t : table) : bool :=
  match t with
  | [] => true
  | _ => existsb (fun r => is_str (get c r)) t
  end.

(** Whether the text columns [clean_data] standardizes have their [.str]
    accessor (the e-mail column, after its missing cells were filled). *)
Definition text_columns_ok (t : table) : bool :=
  has_str source_col t && has_str status_col t && has_str name_col t
  && match t with
     | [] => true
     | _ => existsb (fun r => is_str (email r) || isnull (email r)) t
     end.

(** Whether [pd.to_datetime] reads the cell, in a column of format
    [format]; and whether it reads the dates of a table. *)
Definition date_readable (format : option string) (v : value) : bool :=
  match to_datetime_cell format v with Ok _ => true | Raise _ => false end.

Definition dates_ok (t : table) : bool :=
  forallb (fun r => date_readable (date_format_of t) (date_added r)) t.

(** The progress of an analyzer agrees with the references it holds,
    which are to frames of the store. *)
Definition holds (p : progress) (s : session) : Prop :=
  wf s ∧
  (load_succeeded p = false ↔ df s = None) ∧
  (clean_started p = false ↔ clean_df s = None).

(** The analyzer of [file] once [load_data] has read the table [t], and
    once [clean_data] has then run. *)
Definition loaded (file : string) (t : table) : session :=
  (after_calls file [Load (Ok t)]).2.

Definition cleaned (file : string) (t : table) : session :=
  (after_calls file [Load (Ok t); Clean]).2.

(** ** The menu of [main.py] *)

(** [str.lower()] *)
Definition lowercase (s : string) : string :=
  string_of_list_ascii (map PyStr.lower (list_ascii_of_string s)).

(** The warnings of the menu. *)
Inductive notice : Type :=
| PleaseLoadFirst        (* "Please load a CSV file first (option 1)" *)
| PleaseCleanFirst       (* "Please clean data first (option 2)" *)
| UsingDefault           (* "Using default: ..." *)
| NoDataLoadedYet        (* "No data loaded yet" *)
| InvalidChoice          (* "Invalid choice. Please enter a number from 0-10." *)
| Thanks.                (* "Thanks for using Lead Analyzer!" *)

(** The variables of [main]: the analyzer, if there is one, and what the
    menu itself has printed. *)
Record menu : Type := mk_menu {
  analyzer : option session;
  notices : list notice
}.

(** What one round of the loop reads: the choice typed, and for choice 1
    the path typed and what [pd.read_csv] does with the file. *)
Record turn : Type := mk_turn {
  choice_typed : string;
  path_typed : string;
  csv_read : result table
}.

(** After a round: the loop goes on, [main] has returned (choice 0), or
    an exception has reached the handler of [__main__], which exits with
    status 1. *)
Inductive outcome : Type :=
| Looping (m : menu)
| Returned (m : menu)
| Exited (e : exn) (m : menu).

Definition warn (n : notice) (m : menu) : menu :=
  mk_menu (analyzer m) (notices m ++ [n]).

(** [os.path.join('..', 'data', 'sample_leads.csv')], on POSIX. *)
Definition default_path : string := "../data/sample_leads.csv".

(** The branches of choices 3 to 9: the method is called when there is an
    analyzer with a cleaned table. *)
Definition when_cleaned {A : Type} (method : M A) (m : menu) : outcome :=
  match analyzer m with
  | None => Looping (warn PleaseCleanFirst m)
  | Some a =>
      match clean_df a with
      | None => Looping (warn PleaseCleanFirst m)
      | Some _ =>
          match method a with
          | (Ok _, a') => Looping (mk_menu (Some a') (notices m))
          | (Raise e, a') => Exited e (mk_menu (Some a') (notices m))
          end
      end
  end.

(** [show_data_info(analyzer)] *)
Definition show_data_info (m : menu) : menu :=
  match analyzer m with
  | None => warn NoDataLoadedYet m
  | Some a =>
      match df a with
      | None => warn NoDataLoadedYet m
      | Some _ => m
      end
  end.

(** One round of the loop of [main].  The methods that draw the charts
    and write the reports are parameters. *)
Definition menu_turn (create_visualizations : M unit) (export_report : string → M unit)
    (t : turn) (m : menu) : outcome :=
  let choice := PyStr.strip (choice_typed t) in
  if String.eqb choice "1" then
    let file_path := PyStr.strip (path_typed t) in
    let m1 := match file_path with EmptyString => warn UsingDefault m | _ => m end in
    let file_path := match file_path with EmptyString => default_path | _ => file_path end in
    match load_data (csv_read t) (init file_path) with
    | (Ok true, a) => Looping (mk_menu (Some a) (notices m1))
    | (Ok false, _) => Looping (mk_menu None (notices m1))
    | (Raise e, a) => Exited e (mk_menu (Some a) (notices m1))
    end
  else if String.eqb choice "2" then
    match analyzer m with
    | None => Looping (warn PleaseLoadFirst m)
    | Some a =>
        match df a with
        | None => Looping (warn PleaseLoadFirst m)
        | Some _ =>
            match clean_data a with
            | (Ok _, a') => Looping (mk_menu (Some a') (notices m))
            | (Raise e, a') => Exited e (mk_menu (Some a') (notices m))
            end
        end
    end
  else if String.eqb choice "3" then when_cleaned calculate_conversion_rate m
  else if String.eqb choice "4" then when_cleaned analyze_by_source m
  else if String.eqb choice "5" then when_cleaned analyze_by_status m
  else if String.eqb choice "6" then when_cleaned analyze_trends m
  else if String.eqb choice "7" then when_cleaned create_visualizations m
  else if String.eqb choice "8" then when_cleaned (export_report "csv") m
  else if String.eqb choice "9" then when_cleaned (export_report "excel") m
  else if String.eqb choice "10" then Looping (show_data_info m)
  else if String.eqb choice "0" then Returned (warn Thanks m)
  else Looping (warn InvalidChoice m).

(** The loop, for as long as rounds are given. *)
Fixpoint menu_loop (create_visualizations : M unit) (export_report : string → M unit)
    (turns : list turn) (m : menu) : outcome :=
  match turns with
  | [] => Looping m
  | t :: rest =>
      match menu_turn create_visualizations export_report t m with
      | Looping m' => menu_loop create_visualizations export_report rest m'
      | st => st
      end
  end.

(** [main()], which starts without an analyzer. *)
Definition main (create_visualizations : M unit) (export_report : string → M unit)
    (turns : list turn) : outcome :=
  menu_loop create_visualizations export_report turns (mk_menu None []).

(** A method that reads the tables of the analyzer and rebinds nothing. *)
Definition read_only {A : Type} (method : M A) : Prop :=
  ∀ s, heap (method s).2 = heap s ∧ df (method s).2 = df s ∧
       clean_df (method s).2 = clean_df s.

(** The cleaned table of the analyzer of the menu, if it has one, is the
    raw table it loaded with every row cleaned. *)
Definition menu_tables_ok (m : menu) : Prop :=
  match analyzer m with
  | None => True
  | Some a =>
      wf a ∧
      ∃ raw, raw_table a = Some raw ∧
        (clean_df a = None ∨
         (cleaned_table a = Some (cleaned_rows raw) ∧
          forallb is_clean (cleaned_rows raw) = true))
  end.


(** Text in the ASCII range, where the string methods of the model are
    those of Python. *)
Definition ascii_string (s : string) : bool :=
  forallb (fun c => (PyStr.code c <? 128)%nat) (list_ascii_of_string s).

Definition ascii_cell (v : value) : bool :=
  match v with Str s => ascii_string s | _ => true end.

Definition ascii_text (t : table) : bool :=
  forallb (fun r => ascii_cell (name r) && ascii_cell (source r)
                    && ascii_cell (status r)) t.

(** The characters of a stripped string: neither end is white space. *)
Definition stripped (l : list ascii) : Prop :=
  match l with [] => True | c :: _ => PyStr.isspace c = false end ∧
  match rev l with [] => True | c :: _ => PyStr.isspace c = false end.

(** The entry of [analyze_by_status] for the status [k]. *)
Definition status_row (t : table) (k : value) : status_stats :=
  let count := length (List.filter (fun r => value_eqb (status r) k) t) in
  mk_status_stats k count (round2 (fmul (fdiv (of_nat count) (of_nat (length t))) 100)).

(** The strings a regular expression denotes. *)
Inductive matches : Re.regex → list ascii → Prop :=
| matches_Eps : matches Re.Eps []
| matches_Class (p : ascii → bool) (c : ascii) : p c = true → matches (Re.Class p) [c]
| matches_Seq (r1 r2 : Re.regex) (l1 l2 : list ascii) :
    matches r1 l1 → matches r2 l2 → matches (Re.Seq r1 r2) (l1 ++ l2)
| matches_Alt_l (r1 r2 : Re.regex) (l : list ascii) :
    matches r1 l → matches (Re.Alt r1 r2) l
| matches_Alt_r (r1 r2 : Re.regex) (l : list ascii) :
    matches r2 l → matches (Re.Alt r1 r2) l
| matches_Star_nil (r : Re.regex) : matches (Re.Star r) []
| matches_Star_app (r : Re.regex) (l1 l2 : list ascii) :
    matches r l1 → matches (Re.Star r) l2 → matches (Re.Star r) (l1 ++ l2).

(** An address as the e-mail pattern reads it: a local part, an at
    sign, a domain, a dot and a top-level domain of two letters or
    more. *)
Definition is_address (l : list ascii) : Prop :=
  ∃ local domain tld,
    l = (local ++ "@"%char :: domain ++ "."%char :: tld)%list ∧
    local ≠ [] ∧ Forall (fun c => alnum c || one_of "._%+-" c = true) local ∧
    domain ≠ [] ∧ Forall (fun c => alnum c || one_of ".-" c = true) domain ∧
    (2 ≤ length tld)%nat ∧ Forall (fun c => PyStr.isalpha c = true) tld.

(** ** Frames: columns as maps over the rows *)

Lemma setitem_map (c : column) (f : value → value) (t : table) :
  setitem c (map f (getitem c t)) t = map (fun r => set c (f (get c r)) r) t.
Proof.
  unfold setitem, getitem.
  induction t as [|r t IH]; simpl; [reflexivity|]. now rewrite IH.
Qed.

Lemma loc_assign_map (p : value → bool) (c : column) (v : value) (t : table) :
  loc_assign (map p (getitem c t)) c v t
  = map (fun r => if p (get c r) then set c v r else r) t.
Proof.
  unfold loc_assign, getitem.
  induction t as [|r t IH]; simpl; [reflexivity|]. now rewrite IH.
Qed.

Lemma select_filter (p : row → bool) (t : table) :
  select (map p t) t = List.filter p t.
Proof.
  induction t as [|r t IH]; [reflexivity|].
  change (select (map p (r :: t)) (r :: t))
    with (from_option (fun x => x :: select (map p t) t) (select (map p t) t)
                      (if p r then Some r else None)).
  rewrite IH. simpl. now destruct (p r).
Qed.

Lemma traverse_Raise {A B : Type} (f : A → result B) (l : list A) (x : A) (e : exn) :
  In x l → f x = Raise e → ∃ e', traverse f l = Raise e'.
Proof.
  induction l as [|y l IH]; simpl; [tauto|].
  intros [->|Hin] Hx.
  - rewrite Hx. simpl. eauto.
  - destruct (f y); simpl; [|eauto].
    destruct (IH Hin Hx) as [e' ->]. simpl. eauto.
Qed.

Lemma existsb_of_map {A B : Type} (p : B → bool) (g : A → B) (l : list A) :
  existsb p (map g l) = existsb (fun x => p (g x)) l.
Proof. induction l as [|x l IH]; simpl; [reflexivity|]. now rewrite IH. Qed.

Lemma existsb_pointwise {A : Type} (p q : A → bool) (l : list A) :
  (∀ x, p x = q x) → existsb p l = existsb q l.
Proof. intros E. induction l as [|x l IH]; simpl; [reflexivity|]. now rewrite IH, E. Qed.

Lemma str_accessor_getitem (c : column) (t : table) :
  str_accessor (getitem c t)
  = if has_str c t then Ok (getitem c t) else Raise AttributeError.
Proof.
  destruct t as [|r t]; [reflexivity|].
  unfold str_accessor, has_str, getitem.
  rewrite existsb_of_map. reflexivity.
Qed.

Lemma str_accessor_str_map (f : string → string) (series : list value) :
  str_accessor series = Ok series →
  str_accessor (str_map f series) = Ok (str_map f series).
Proof.
  unfold str_accessor. destruct series as [|v l]; [reflexivity|].
  unfold str_map. simpl map.
  destruct (existsb is_str (v :: l)) eqn:E; [|discriminate]. intros _.
  assert (existsb is_str (map (fun v => match v with Str s => Str (f s) | _ => NaN end) (v :: l)) = true) as H.
  { rewrite existsb_of_map, <- E. apply existsb_pointwise. now intros []. }
  simpl map in H. now rewrite H.
Qed.

Lemma has_str_map (c : column) (g : row → row) (t : table) :
  has_str c (map g t)
  = match t with [] => true | _ => existsb (fun r => is_str (get c (g r))) t end.
Proof.
  destruct t as [|r t]; [reflexivity|].
  unfold has_str. now rewrite existsb_of_map.
Qed.

(** ** The statements of [clean_data], row by row *)

Lemma fill_phone_map (t : table) :
  fill_phone t
  = Ok (map (fun r => set phone_col (if isnull (phone r) then Str "Not provided" else phone r) r) t).
Proof. unfold fill_phone, fillna. now rewrite setitem_map. Qed.

Lemma fill_email_map (t : table) :
  fill_email t
  = Ok (map (fun r => set email_col (if isnull (email r) then Str "Not provided" else email r) r) t).
Proof. unfold fill_email, fillna. now rewrite setitem_map. Qed.

Lemma fill_lead_value_map (t : table) :
  fill_lead_value t
  = Ok (map (fun r => set lead_value_col (if isnull (lead_value r) then Num 0 else lead_value r) r) t).
Proof. unfold fill_lead_value, fillna. now rewrite setitem_map. Qed.

Lemma strip_title_map (c : column) (t : table) :
  strip_title c t
  = if has_str c t
    then Ok (map (fun r => set c (standardized (fun s => PyStr.title (PyStr.strip s)) (get c r)) r) t)
    else Raise AttributeError.
Proof.
  unfold strip_title. rewrite str_accessor_getitem.
  destruct (has_str c t) eqn:E; [|reflexivity]. simpl.
  unfold str_strip. rewrite str_accessor_str_map.
  2:{ now rewrite str_accessor_getitem, E. }
  simpl. f_equal. unfold str_title, str_map. rewrite map_map, setitem_map.
  apply map_ext. intros r. now destruct (get c r).
Qed.

Lemma strip_name_map (t : table) :
  strip_name t
  = if has_str name_col t
    then Ok (map (fun r => set name_col (standardized PyStr.strip (name r)) r) t)
    else Raise AttributeError.
Proof.
  unfold strip_name. rewrite str_accessor_getitem.
  destruct (has_str name_col t); [|reflexivity]. simpl.
  unfold str_strip, str_map. now rewrite setitem_map.
Qed.

Lemma validate_emails_map (t : table) :
  validate_emails t
  = if has_str email_col t
    then Ok (map (fun r => set email_col (cleaned_email (email r)) r) t)
    else Raise AttributeError.
Proof.
  unfold validate_emails. rewrite str_accessor_getitem.
  destruct (has_str email_col t); [|reflexivity]. simpl.
  unfold str_match. rewrite map_map.
  rewrite (loc_assign_map (fun v => negb match v with Str s => Re.match_anchored email_pattern s | _ => false end)).
  f_equal. apply map_ext. intros [i n e p so st lv d]. unfold cleaned_email, email_matches. simpl.
  destruct e; simpl; try reflexivity.
  now destruct (Re.match_anchored email_pattern s).
Qed.

Lemma coerce_lead_value_map (t : table) :
  coerce_lead_value t
  = Ok (map (fun r => set lead_value_col
               (let n := to_numeric_cell (lead_value r) in if isnull n then Num 0 else n) r) t).
Proof.
  unfold coerce_lead_value, fillna, to_numeric_coerce.
  now rewrite map_map, setitem_map.
Qed.

(** ** Running the statements *)

Lemma run_app (a b : list statement) (t : table) :
  run (a ++ b) t
  = match run a t with
    | (Ok _, t1) => run b t1
    | (Raise e, t1) => (Raise e, t1)
    end.
Proof.
  revert t. induction a as [|f a IH]; intros t; simpl; [reflexivity|].
  destruct (f t); [apply IH|reflexivity].
Qed.

Lemma has_str_cons (c : column) (g : row → row) (r : row) (t : table) :
  has_str c (map g (r :: t)) = existsb (fun r => is_str (get c (g r))) (r :: t).
Proof. now rewrite has_str_map. Qed.

Ltac fields :=
  cbn [get set lead_id name email phone source status lead_value date_added].
Ltac fields_in H :=
  cbn [get set lead_id name email phone source status lead_value date_added] in H.

Lemma run_before_dates_ok (t : table) :
  text_columns_ok t = true →
  run before_dates t = (Ok tt, map half_cleaned_row t).
Proof.
  intros H. destruct t as [|r0 t0]; [reflexivity|].
  unfold text_columns_ok, has_str in H.
  apply andb_prop in H as [H Hemail]. apply andb_prop in H as [H Hname].
  apply andb_prop in H as [Hsource Hstatus].
  unfold before_dates, run.
  rewrite fill_phone_map, fill_email_map, map_map, fill_lead_value_map, map_map.
  rewrite strip_title_map, has_str_cons. fields. fields_in Hsource. rewrite Hsource.
  rewrite map_map.
  rewrite strip_title_map, has_str_cons. fields. fields_in Hstatus. rewrite Hstatus.
  rewrite map_map.
  rewrite strip_name_map, has_str_cons. fields. fields_in Hname. rewrite Hname.
  rewrite map_map.
  rewrite validate_emails_map, has_str_cons. fields.
  rewrite (existsb_pointwise _ (fun r => is_str (email r) || isnull (email r))).
  2:{ intros r. now destruct (email r). }
  rewrite Hemail, map_map. f_equal. apply map_ext. intros r.
  unfold half_cleaned_row. fields. f_equal.
  destruct (email r); try reflexivity; now vm_compute.
Qed.

Lemma run_before_dates_fail (t : table) :
  text_columns_ok t = false →
  (run before_dates t).1 = Raise AttributeError.
Proof.
  intros H. destruct t as [|r0 t0]; [discriminate|].
  unfold text_columns_ok, has_str in H.
  unfold before_dates, run.
  rewrite fill_phone_map, fill_email_map, map_map, fill_lead_value_map, map_map.
  rewrite strip_title_map, has_str_cons. fields.
  destruct (existsb (λ r, is_str (get source_col r)) (r0 :: t0)) eqn:Hsource;
    fields_in Hsource; rewrite Hsource; [|reflexivity].
  rewrite map_map.
  rewrite strip_title_map, has_str_cons. fields.
  destruct (existsb (λ r, is_str (get status_col r)) (r0 :: t0)) eqn:Hstatus;
    fields_in Hstatus; rewrite Hstatus; [|reflexivity].
  rewrite map_map.
  rewrite strip_name_map, has_str_cons. fields.
  destruct (existsb (λ r, is_str (get name_col r)) (r0 :: t0)) eqn:Hname;
    fields_in Hname; rewrite Hname; [|reflexivity].
  rewrite map_map.
  rewrite validate_emails_map, has_str_cons. fields.
  rewrite (existsb_pointwise _ (fun r => is_str (email r) || isnull (email r))).
  2:{ intros r. now destruct (email r). }
  cbn [andb] in H. now rewrite H.
Qed.

Lemma traverse_all_Ok {A B : Type} (f : A → result B) (d : A → B) (l : list A) :
  (∀ x, In x l → f x = Ok (d x)) → traverse f l = Ok (map d l).
Proof.
  induction l as [|x l IH]; simpl; intros H; [reflexivity|].
  rewrite (H x) by now left. simpl. rewrite IH by (intros; apply H; now right).
  reflexivity.
Qed.

Lemma to_datetime_cell_exn (format : option string) (v : value) (e : exn) :
  to_datetime_cell format v = Raise e →
  e = DateParseError ∧
  ∃ x, v = Str x ∧ reads_as_nat x = false ∧
       parse_datetime (default x format) x = None.
Proof.
  destruct v as [| |x|q|ns]; cbn [to_datetime_cell]; try discriminate.
  - destruct (reads_as_nat x) eqn:Hx; [discriminate|].
    destruct (parse_datetime (default x format) x) eqn:E; [discriminate|].
    intros [= <-]. eauto.
  - cbv zeta. destruct (_ && _); discriminate.
Qed.


(** What the conversion makes of a cell it reads is a timestamp or NaT,
    which any conversion leaves as it is. *)
Lemma to_datetime_cell_Ok (format : option string) (v d : value) :
  to_datetime_cell format v = Ok d →
  is_datetime d = true ∧ ∀ format', to_datetime_cell format' d = Ok d.
Proof.
  destruct v as [| |x|q|ns]; cbn [to_datetime_cell].
  - intros [= <-]. auto.
  - intros [= <-]. auto.
  - destruct (reads_as_nat x); [intros [= <-]; auto|].
    destruct (parse_datetime (default x format) x); [|discriminate].
    intros [= <-]. auto.
  - cbv zeta. destruct (_ && _); intros [= <-]; auto.
  - intros [= <-]. auto.
Qed.

Lemma cleaned_date_read (format : option string) (v : value) :
  date_readable format v = true →
  is_datetime (cleaned_date format v) = true ∧
  ∀ format', to_datetime_cell format' (cleaned_date format v)
             = Ok (cleaned_date format v).
Proof.
  unfold date_readable, cleaned_date.
  destruct (to_datetime_cell format v) as [d|e] eqn:E; [|discriminate].
  intros _. exact (to_datetime_cell_Ok format v d E).
Qed.

Lemma traverse_exn {A B : Type} (f : A → result B) (l : list A) (e : exn) :
  traverse f l = Raise e → ∃ x, In x l ∧ f x = Raise e.
Proof.
  induction l as [|y l IH]; simpl; [discriminate|].
  destruct (f y) as [b|e'] eqn:Hy; simpl.
  - destruct (traverse f l) as [l'|e'] eqn:Hl; simpl; [discriminate|].
    intros [= ->]. destruct (IH eq_refl) as (x & Hin & Hx). eauto.
  - intros [= ->]. eauto.
Qed.

Lemma convert_dates_ok (t : table) :
  dates_ok t = true →
  convert_dates t
  = Ok (map (fun r => set date_added_col
                        (cleaned_date (date_format_of t) (date_added r)) r) t).
Proof.
  intros H. unfold convert_dates, to_datetime.
  change (date_format (getitem date_added_col t)) with (date_format_of t).
  rewrite (traverse_all_Ok _ (cleaned_date (date_format_of t))).
  - simpl. now rewrite setitem_map.
  - intros v Hv. unfold getitem in Hv. apply in_map_iff in Hv as (r & <- & Hr).
    unfold dates_ok in H. rewrite forallb_forall in H. specialize (H r Hr).
    unfold date_readable in H. unfold cleaned_date. fields.
    now destruct (to_datetime_cell (date_format_of t) (date_added r)).
Qed.

Lemma convert_dates_fail (t : table) :
  dates_ok t = false → convert_dates t = Raise DateParseError.
Proof.
  intros H. unfold convert_dates, to_datetime.
  change (date_format (getitem date_added_col t)) with (date_format_of t).
  destruct (traverse (to_datetime_cell (date_format_of t)) (getitem date_added_col t))
    as [l|e] eqn:E.
  - exfalso. assert (dates_ok t = true) as H'; [|congruence].
    unfold dates_ok. apply forallb_forall. intros r Hr. unfold date_readable.
    destruct (to_datetime_cell (date_format_of t) (date_added r)) as [d|e] eqn:Hd;
      [reflexivity|].
    destruct (traverse_Raise (to_datetime_cell (date_format_of t))
                (getitem date_added_col t) (date_added r) e)
      as [e' He']; [|assumption|congruence].
    unfold getitem. now apply (in_map date_added).
  - apply traverse_exn in E as (v & _ & Hv).
    apply to_datetime_cell_exn in Hv as [-> _]. reflexivity.
Qed.

(** The statements before the date conversion leave the dates alone. *)
Lemma date_format_half_cleaned (t : table) :
  date_format_of (map half_cleaned_row t) = date_format_of t.
Proof. unfold date_format_of, getitem. now rewrite map_map. Qed.

Lemma dates_ok_half_cleaned (t : table) :
  dates_ok (map half_cleaned_row t) = dates_ok t.
Proof.
  unfold dates_ok. rewrite date_format_half_cleaned.
  generalize (date_format_of t). intros format.
  induction t as [|r t IH]; simpl; [reflexivity|]. now rewrite IH.
Qed.

Lemma cleaned_row_half (format : option string) (r : row) :
  set lead_value_col
    (let n := to_numeric_cell (lead_value (half_cleaned_row r)) in
     if isnull n then Num 0 else n)
    (set date_added_col (cleaned_date format (date_added (half_cleaned_row r)))
      (half_cleaned_row r))
  = cleaned_row format r.
Proof.
  unfold cleaned_row, half_cleaned_row, cleaned_lead_value. fields. f_equal.
  destruct (lead_value r) as [| |s|q|ns]; simpl; try reflexivity.
  now destruct (parse_numeric s).
Qed.

(** What [clean_data] does to the frame it works on, case by case. *)
Lemma run_cleaning (t : table) :
  match run cleaning_statements t with
  | (Ok _, t') =>
      text_columns_ok t = true ∧ dates_ok t = true ∧ t' = cleaned_rows t
  | (Raise e, t') =>
      (text_columns_ok t = false ∧ e = AttributeError) ∨
      (text_columns_ok t = true ∧ dates_ok t = false ∧
       e = DateParseError ∧ t' = map half_cleaned_row t)
  end.
Proof.
  unfold cleaning_statements. rewrite run_app.
  destruct (text_columns_ok t) eqn:Htext.
  - rewrite (run_before_dates_ok t Htext). unfold run.
    destruct (dates_ok t) eqn:Hdates.
    + rewrite convert_dates_ok by now rewrite dates_ok_half_cleaned.
      rewrite coerce_lead_value_map. rewrite !map_map.
      rewrite date_format_half_cleaned.
      repeat split. apply map_ext. intros r. apply cleaned_row_half.
    + rewrite (convert_dates_fail (map half_cleaned_row t))
        by now rewrite dates_ok_half_cleaned.
      right. auto.
  - pose proof (run_before_dates_fail t Htext) as H.
    destruct (run before_dates t) as [[[]|e] t']; simpl in H; [discriminate|].
    injection H as ->. now left.
Qed.

(** ** The store *)

Ltac unfold_monad :=
  unfold mbind, mret, M_bind, M_ret, lift, get_df, get_clean_df, set_df,
    set_clean_df, new_frame, frame, store, print in *.

Ltac state := cbn [csv_file heap df clean_df stdout fst snd].

Lemma exec_run (stmts : list statement) (s : session) (c : positive) (t : table) :
  clean_df s = Some c → heap s !! c = Some t →
  exec stmts s
  = ((run stmts t).1,
     mk_session (csv_file s) (<[c := (run stmts t).2]> (heap s))
                (df s) (clean_df s) (stdout s)).
Proof.
  revert s t. induction stmts as [|f rest IH]; intros [file h d cd out] t Hc Ht;
    simpl in Hc, Ht; subst cd.
  - simpl. now rewrite (insert_id _ _ _ Ht).
  - simpl exec. simpl run. unfold in_place. unfold_monad. simpl.
    rewrite Ht. destruct (f t) as [t1|e]; simpl.
    + rewrite (IH _ t1); simpl; [|reflexivity|apply lookup_insert_eq].
      now rewrite insert_insert_eq.
    + now rewrite (insert_id _ _ _ Ht).
Qed.

Lemma fresh_not_held (h : gmap positive table) (l : positive) :
  is_Some (h !! l) → fresh (dom h) ≠ l.
Proof.
  intros H E. apply elem_of_dom in H. rewrite <- E in H.
  exact (is_fresh _ H).
Qed.

(** [clean_data] on loaded data: a new frame, the statements run on it. *)
Lemma clean_data_loaded (s : session) (l : positive) (t : table) :
  df s = Some l → heap s !! l = Some t →
  clean_data s
  = ((run cleaning_statements t).1,
     mk_session (csv_file s)
       (<[fresh (dom (heap s)) := (run cleaning_statements t).2]> (heap s))
       (Some l) (Some (fresh (dom (heap s)))) (stdout s)).
Proof.
  destruct s as [file h d cd out]. simpl. intros -> Ht.
  unfold clean_data. unfold_monad. state. rewrite Ht.
  erewrite exec_run; state; [|reflexivity|apply lookup_insert_eq].
  now rewrite insert_insert_eq.
Qed.

Lemma clean_data_not_loaded (s : session) :
  df s = None → clean_data s = (Ok tt, say "Please load data first" s).
Proof. intros H. unfold clean_data. unfold_monad. now rewrite H. Qed.

(** ** The methods on an analyzer that holds a cleaned table, or none *)

Lemma calculate_conversion_rate_held (s : session) (c : positive) (t : table) :
  clean_df s = Some c → heap s !! c = Some t →
  calculate_conversion_rate s = (Ok (Some (conversion_rate_of t)), s).
Proof.
  intros Hc Ht. unfold calculate_conversion_rate. unfold_monad. now rewrite Hc, Ht.
Qed.

Lemma analyze_by_source_held (s : session) (c : positive) (t : table) :
  clean_df s = Some c → heap s !! c = Some t →
  analyze_by_source s
  = (match by_source t with Ok r => Ok (Some r) | Raise e => Raise e end, s).
Proof.
  intros Hc Ht. unfold analyze_by_source. unfold_monad. rewrite Hc, Ht.
  now destruct (by_source t).
Qed.

Lemma analyze_by_status_held (s : session) (c : positive) (t : table) :
  clean_df s = Some c → heap s !! c = Some t →
  analyze_by_status s = (Ok (Some (by_status t)), s).
Proof.
  intros Hc Ht. unfold analyze_by_status. unfold_monad. now rewrite Hc, Ht.
Qed.

Lemma analyze_trends_held (s : session) (c : positive) (t : table) :
  clean_df s = Some c → heap s !! c = Some t →
  analyze_trends s
  = (match trends t with Ok r => Ok (Some r) | Raise e => Raise e end, s).
Proof.
  intros Hc Ht. unfold analyze_trends. unfold_monad. rewrite Hc, Ht.
  now destruct (trends t).
Qed.

Lemma aggregations_not_cleaned (s : session) :
  clean_df s = None →
  calculate_conversion_rate s = (Ok None, say "Please clean data first" s) ∧
  analyze_by_source s = (Ok None, say "Please clean data first" s) ∧
  analyze_by_status s = (Ok None, say "Please clean data first" s) ∧
  analyze_trends s = (Ok None, say "Please clean data first" s).
Proof.
  intros H.
  unfold calculate_conversion_rate, analyze_by_source, analyze_by_status, analyze_trends.
  unfold_monad. now rewrite H.
Qed.

Lemma aggregation_state (s : session) :
  wf s →
  ∀ s', s' = (calculate_conversion_rate s).2 ∨ s' = (analyze_by_source s).2 ∨
        s' = (analyze_by_status s).2 ∨ s' = (analyze_trends s).2 →
  s' = s ∨ s' = say "Please clean data first" s.
Proof.
  intros [_ Hwf] s' H. destruct (clean_df s) as [c|] eqn:Hc.
  - destruct (Hwf c eq_refl) as [t Ht]. left.
    rewrite (calculate_conversion_rate_held s c t), (analyze_by_source_held s c t),
      (analyze_by_status_held s c t), (analyze_trends_held s c t) in H by assumption.
    simpl in H. tauto.
  - right. destruct (aggregations_not_cleaned s Hc) as (-> & -> & -> & ->) in H.
    simpl in H. tauto.
Qed.

Lemma holds_after_call (p : progress) (s : session) (c : call) :
  holds p s → holds (after_call (p, s) c).1 (after_call (p, s) c).2.
Proof.
  intros (Hwf & Hload & Hclean).
  assert (∀ s', s' = s ∨ s' = say "Please clean data first" s → holds p s') as Hsame.
  { intros s' [->| ->]; repeat split; try apply Hwf; try apply Hload; try apply Hclean. }
  destruct c as [[t|e]| | | | |]; simpl after_call.
  - (* load_data, the file read *)
    unfold load_data. unfold_monad. state.
    repeat split; state; try discriminate.
    + intros l [= <-]. rewrite lookup_insert_eq. eauto.
    + intros l Hl. destruct Hwf as [_ Hwf]. destruct (Hwf l Hl) as [t' Ht'].
      rewrite lookup_insert_ne; [eauto|].
      apply fresh_not_held. eauto.
    + apply Hclean.
    + apply Hclean.
  - (* load_data, the file not read *)
    unfold load_data. unfold_monad. state. apply Hsame. now left.
  - (* clean_data *)
    destruct (df s) as [l|] eqn:Hl.
    + destruct Hwf as [Hdf Hcl]. destruct (Hdf l Hl) as [t Ht].
      rewrite (clean_data_loaded s l t Hl Ht).
      assert (∀ b, holds (mk_progress (load_succeeded p) true b)
        (mk_session (csv_file s)
           (<[fresh (dom (heap s)) := (run cleaning_statements t).2]> (heap s))
           (Some l) (Some (fresh (dom (heap s)))) (stdout s))) as H.
      { intros b. repeat split; state; try discriminate.
        - intros l' [= <-]. rewrite lookup_insert_ne; [eauto|].
          apply fresh_not_held. eauto.
        - intros l' [= <-]. rewrite lookup_insert_eq. eauto.
        - simpl. intros H. now apply Hload in H. }
      destruct (run cleaning_statements t).1; apply H.
    + rewrite (clean_data_not_loaded s Hl). state.
      destruct Hwf as [Hdf Hcl].
      repeat split; simpl; rewrite ?Hl; try apply Hload; try apply Hclean; auto.
      discriminate.
  - apply Hsame, (aggregation_state s Hwf). auto.
  - apply Hsame, (aggregation_state s Hwf). auto.
  - apply Hsame, (aggregation_state s Hwf). auto.
  - apply Hsame, (aggregation_state s Hwf). auto.
Qed.

Lemma holds_after_calls (file : string) (calls : list call) :
  holds (after_calls file calls).1 (after_calls file calls).2.
Proof.
  unfold after_calls.
  assert (holds (mk_progress false false false) (init file)) as H.
  { repeat split; simpl; try discriminate. }
  revert H. generalize (mk_progress false false false) (init file).
  induction calls as [|c calls IH]; intros p s H; [exact H|].
  simpl foldl. specialize (IH _ _ (holds_after_call p s c H)).
  now destruct (after_call (p, s) c).
Qed.

(** ** The claims about [clean_data] and the guards *)


(** The frames after [clean_data] has run on loaded data. *)
Lemma clean_data_frames (s : session) (l : positive) (t : table) :
  df s = Some l → heap s !! l = Some t →
  let s' := (clean_data s).2 in
  df s' = Some l ∧ heap s' !! l = Some t ∧
  (∃ c, clean_df s' = Some c ∧ c ≠ l ∧
        heap s' !! c = Some (run cleaning_statements t).2) ∧
  (clean_data s).1 = (run cleaning_statements t).1 ∧
  raw_table (clean_data s').2 = Some t ∧
  cleaned_table (clean_data s').2 = cleaned_table s'.
Proof.
  intros Hl Ht s'. subst s'.
  rewrite (clean_data_loaded s l t Hl Ht). state.
  assert (fresh (dom (heap s)) ≠ l) as Hne by (apply fresh_not_held; eauto).
  set (c := fresh (dom (heap s))) in *.
  set (t' := (run cleaning_statements t).2).
  assert (<[c:=t']> (heap s) !! l = Some t) as Hraw
    by now rewrite lookup_insert_ne.
  repeat split; try assumption.
  - exists c. repeat split; [assumption|apply lookup_insert_eq].
  - erewrite clean_data_loaded; [|reflexivity|exact Hraw]. state.
    unfold raw_table. state. simpl. rewrite lookup_insert_ne; [assumption|].
    apply fresh_not_held. eauto.
  - erewrite clean_data_loaded; [|reflexivity|exact Hraw]. state.
    unfold cleaned_table. state. simpl. now rewrite !lookup_insert_eq.
Qed.

(** C8. [clean_data] works on a copy of the raw table: whatever the call
    does (return or raise), [self.df] still refers to the same frame and
    that frame holds what it held; [self.clean_df] then refers to
    another frame, whose contents are what the statements of
    [clean_data] make of the raw table alone, so that nothing of a table
    cleaned earlier remains; and a second call gives the same cleaned
    table again. *)
Theorem clean_data_works_on_a_copy (s : session) (l : positive) (t : table) :
  df s = Some l → heap s !! l = Some t →
  let s' := (clean_data s).2 in
  df s' = Some l ∧ heap s' !! l = Some t ∧
  (∃ c, clean_df s' = Some c ∧ c ≠ l ∧
        heap s' !! c = Some (run cleaning_statements t).2) ∧
  (clean_data s).1 = (run cleaning_statements t).1 ∧
  raw_table (clean_data s').2 = Some t ∧
  cleaned_table (clean_data s').2 = cleaned_table s'.
Proof. exact (clean_data_frames s l t). Qed.


(** C9 (as amended). On an analyzer for which no [load_data] has
    succeeded, [clean_data] prints "Please load data first" and returns;
    on one for which no [clean_data] has got past that guard, every
    aggregation prints "Please clean data first" and returns [None].
    Nothing is raised, and the references and the store are as before. *)
Theorem guards_report_and_keep_tables (file : string) (calls : list call) :
  let p := (after_calls file calls).1 in
  let s := (after_calls file calls).2 in
  (load_succeeded p = false →
   clean_data s = (Ok tt, say "Please load data first" s)) ∧
  (clean_started p = false →
   calculate_conversion_rate s = (Ok None, say "Please clean data first" s) ∧
   analyze_by_source s = (Ok None, say "Please clean data first" s) ∧
   analyze_by_status s = (Ok None, say "Please clean data first" s) ∧
   analyze_trends s = (Ok None, say "Please clean data first" s)) ∧
  (∀ msg, heap (say msg s) = heap s ∧ df (say msg s) = df s ∧
          clean_df (say msg s) = clean_df s).
Proof.
  intros p s. destruct (holds_after_calls file calls) as (_ & Hload & Hclean).
  fold p s in Hload, Hclean. repeat split.
  - intros H. now apply clean_data_not_loaded, Hload.
  - apply aggregations_not_cleaned. now apply Hclean.
  - apply aggregations_not_cleaned. now apply Hclean.
  - apply aggregations_not_cleaned. now apply Hclean.
  - apply aggregations_not_cleaned. now apply Hclean.
Qed.

(** The analyzer after [load_data] has read [t] and [clean_data] has run. *)
Lemma load_then_clean (file : string) (t : table) :
  ∃ l c, c ≠ l ∧
    df (after_calls file [Load (Ok t); Clean]).2 = Some l ∧
    heap (after_calls file [Load (Ok t); Clean]).2 !! l = Some t ∧
    clean_df (after_calls file [Load (Ok t); Clean]).2 = Some c ∧
    heap (after_calls file [Load (Ok t); Clean]).2 !! c
    = Some (run cleaning_statements t).2 ∧
    load_succeeded (after_calls file [Load (Ok t); Clean]).1 = true ∧
    clean_started (after_calls file [Load (Ok t); Clean]).1 = true ∧
    clean_succeeded (after_calls file [Load (Ok t); Clean]).1
    = match (run cleaning_statements t).1 with Ok _ => true | Raise _ => false end.
Proof.
  set (l := fresh (dom (heap (init file)))).
  set (s1 := mk_session file (<[l := t]> (heap (init file))) (Some l) None []).
  assert (after_calls file [Load (Ok t); Clean]
          = after_call (mk_progress true false false, s1) Clean) as -> by reflexivity.
  assert (df s1 = Some l) as Hl by reflexivity.
  assert (heap s1 !! l = Some t) as Ht by apply lookup_insert_eq.
  destruct (clean_data_frames s1 l t Hl Ht)
    as (Hdf & Hraw & (c & Hc & Hne & Hcl) & Hres & _).
  unfold after_call. cbn [fst snd]. rewrite Hl.
  destruct (clean_data s1) as [[u|e] s2]; simpl in *;
    exists l, c; rewrite <- Hres; repeat split; assumption.
Qed.

(** ** The aggregations on the empty table *)

(** C3.  The analyzer that has loaded and cleaned a file without rows
    holds the empty cleaned table.  On it [calculate_conversion_rate]
    returns 0, [analyze_by_status] returns the empty table and
    [analyze_trends] two empty tables, and [analyze_by_source] raises
    [ValueError]: [idxmax] has no entry to choose from. *)
Theorem aggregations_on_the_empty_table (file : string) :
  let s := (after_calls file [Load (Ok []); Clean]).2 in
  cleaned_table s = Some [] ∧
  calculate_conversion_rate s = (Ok (Some 0%Q), s) ∧
  analyze_by_status s = (Ok (Some []), s) ∧
  analyze_trends s = (Ok (Some ([], [])), s) ∧
  analyze_by_source s = (Raise ValueError, s).
Proof.
  intros s.
  destruct (load_then_clean file []) as (l & c & _ & _ & _ & Hc & Ht & _).
  change (run cleaning_statements []).2 with (@nil row) in Ht.
  subst s. change (@Ok (list row) []) with (@Ok table []).
  split; [|split; [|split; [|split]]].
  - unfold cleaned_table. now rewrite Hc.
  - now rewrite (calculate_conversion_rate_held _ c [] Hc Ht).
  - now rewrite (analyze_by_status_held _ c [] Hc Ht).
  - now rewrite (analyze_trends_held _ c [] Hc Ht).
  - now rewrite (analyze_by_source_held _ c [] Hc Ht).
Qed.

(** ** The conversion rate *)

Lemma count_where_filter (p : row → bool) (t : table) :
  length (List.filter p t) = count_where p t.
Proof.
  induction t as [|r t IH]; simpl; [reflexivity|].
  destruct (p r); simpl; now rewrite IH.
Qed.

Lemma conversion_rate_of_spec (t : table) :
  conversion_rate_of t = spec_conversion_rate t.
Proof.
  unfold conversion_rate_of, spec_conversion_rate, getitem.
  rewrite map_map, (select_filter (fun r => is_converted (get status_col r))).
  rewrite count_where_filter.
  now destruct t.
Qed.

Lemma is_converted_iff (v : value) : is_converted v = true ↔ v = Str "Converted".
Proof.
  unfold is_converted, value_eqb. destruct v; try (split; congruence).
  rewrite String.eqb_eq. split; congruence.
Qed.

(** C1. On an analyzer that holds the cleaned table [t],
    [calculate_conversion_rate] returns the number of rows whose status
    is ["Converted"], divided by the number of rows, times 100, and 0
    when [t] has no row; nothing else changes.  For the two rows of the
    scenario, loaded and cleaned, it returns 50. *)
Theorem conversion_rate_is_converted_share
    (s : session) (c : positive) (t : table) (file : string) :
  clean_df s = Some c → heap s !! c = Some t →
  calculate_conversion_rate s = (Ok (Some (spec_conversion_rate t)), s) ∧
  (∀ r, is_converted (status r) = true ↔ status r = Str "Converted") ∧
  (t = [] → spec_conversion_rate t = 0%Q) ∧
  (let s2 := (after_calls file [Load (Ok scenario); Clean]).2 in
   ∃ rate, calculate_conversion_rate s2 = (Ok (Some rate), s2) ∧ (rate == 50)%Q).
Proof.
  intros Hc Ht. split; [|split; [|split]].
  - rewrite (calculate_conversion_rate_held s c t Hc Ht).
    now rewrite conversion_rate_of_spec.
  - intros r. apply is_converted_iff.
  - now intros ->.
  - intros s2.
    destruct (load_then_clean file scenario) as (l' & c' & _ & _ & _ & Hc' & Ht' & _).
    subst s2.
    eexists. split.
    + apply (calculate_conversion_rate_held _ c' _ Hc' Ht').
    + now vm_compute.
Qed.

(** ** The cleaned rows *)

Lemma Forall2_map_self {A B : Type} (P : A → B → Prop) (f : A → B) (l : list A) :
  (∀ x, In x l → P x (f x)) → Forall2 P l (map f l).
Proof.
  induction l as [|x l IH]; intros H; simpl; constructor.
  - apply H. now left.
  - apply IH. intros y Hy. apply H. now right.
Qed.

(** [clean_data] on loaded data returns exactly when the text columns
    have their string accessor and every date is read, and the cleaned
    table then has the cleaned rows. *)
Lemma clean_data_returns (s : session) (l : positive) (t : table) :
  df s = Some l → heap s !! l = Some t →
  ((clean_data s).1 = Ok tt ↔ text_columns_ok t = true ∧ dates_ok t = true) ∧
  ((clean_data s).1 = Ok tt →
   cleaned_table (clean_data s).2 = Some (cleaned_rows t)).
Proof.
  intros Hl Ht.
  destruct (clean_data_frames s l t Hl Ht)
    as (_ & _ & (c & Hc & _ & Hcl) & Hres & _).
  pose proof (run_cleaning t) as Hrun.
  unfold cleaned_table. rewrite Hc, Hres. cbn [mbind option_bind]. rewrite Hcl.
  destruct (run cleaning_statements t) as [[[]|e] t']; cbn [fst snd].
  - destruct Hrun as (Htext & Hdates & ->). split; [split; auto|auto].
  - split; [|discriminate]. split; [discriminate|].
    intros [Htext Hdates]. destruct Hrun as [[? _]|(_ & ? & _)]; congruence.
Qed.

Lemma sentinel_is_no_email : email_matches (Str "Not provided") = false.
Proof. now vm_compute. Qed.

Lemma email_matches_str (v : value) :
  email_matches v = true → ∃ s, v = Str s ∧ s ≠ EmptyString ∧
    s ≠ "Not provided" ∧ s ≠ "Invalid email".
Proof.
  destruct v as [| |s| |]; simpl; try discriminate. intros H.
  exists s. split; [reflexivity|].
  repeat split; intros ->; vm_compute in H; discriminate.
Qed.

(** C2. [clean_data] first writes "Not provided" for a missing e-mail
    (statement [fill_email]) and later writes "Invalid email" for every
    e-mail the pattern does not match (statement [validate_emails]),
    the sentinel included.  When [clean_data] has returned, no e-mail is
    "Not provided", an e-mail of the raw table that matches the pattern
    is unchanged, and every other e-mail is "Invalid email". *)
Theorem emails_are_validated (s : session) (l : positive) (t : table) :
  df s = Some l → heap s !! l = Some t → (clean_data s).1 = Ok tt →
  (∃ first between rest,
     cleaning_statements
     = (first ++ fill_email :: between ++ validate_emails :: rest)%list) ∧
  (∃ t1, fill_email t = Ok t1 ∧
     Forall2 (fun r r1 =>
       email r1 = if isnull (email r) then Str "Not provided" else email r) t t1) ∧
  (∀ t1 t2, validate_emails t1 = Ok t2 →
     Forall2 (fun r1 r2 =>
       email r2 = if email_matches (email r1) then email r1 else Str "Invalid email")
       t1 t2) ∧
  email_matches (Str "Not provided") = false ∧
  (∃ t', cleaned_table (clean_data s).2 = Some t' ∧
     Forall2 (fun r r' =>
       email r' ≠ Str "Not provided" ∧
       (email_matches (email r) = true → email r' = email r) ∧
       (email_matches (email r) = false → email r' = Str "Invalid email")) t t').
Proof.
  intros Hl Ht Hres. split; [|split; [|split; [|split]]].
  - exists [fill_phone],
      [fill_lead_value; strip_title source_col; strip_title status_col; strip_name],
      [convert_dates; coerce_lead_value].
    reflexivity.
  - rewrite fill_email_map. eexists. split; [reflexivity|].
    apply Forall2_map_self. intros r _. reflexivity.
  - intros t1 t2. rewrite validate_emails_map.
    destruct (has_str email_col t1); [|discriminate]. intros [= <-].
    apply Forall2_map_self. intros r _. reflexivity.
  - exact sentinel_is_no_email.
  - destruct (clean_data_returns s l t Hl Ht) as [_ Hcl].
    exists (cleaned_rows t). split; [now apply Hcl|]. unfold cleaned_rows.
    apply Forall2_map_self. intros r _. unfold cleaned_row. fields.
    unfold cleaned_email.
    destruct (email_matches (email r)) eqn:E.
    + destruct (email_matches_str _ E) as (x & -> & _ & Hx & _).
      repeat split; congruence.
    + repeat split; congruence.
Qed.

(** C7. When [clean_data] has returned, the cleaned table has a row for
    each row of the raw table, in the same order and with the same
    [lead_id]: it is the raw table with field values rewritten.  In it
    no [phone] and no [email] is missing, no [email] is the empty
    string, and a [phone] is the empty string only if it was in the raw
    table (where [read_csv] reads an empty field as missing). *)
Theorem cleaning_keeps_rows (s : session) (l : positive) (t : table) :
  df s = Some l → heap s !! l = Some t → (clean_data s).1 = Ok tt →
  ∃ t', cleaned_table (clean_data s).2 = Some t' ∧
    length t' = length t ∧
    Forall2 (fun r r' =>
      r' = cleaned_row (date_format_of t) r ∧ lead_id r' = lead_id r ∧
      isnull (phone r') = false ∧ isnull (email r') = false ∧
      email r' ≠ Str EmptyString ∧
      (phone r ≠ Str EmptyString → phone r' ≠ Str EmptyString)) t t'.
Proof.
  intros Hl Ht Hres.
  destruct (clean_data_returns s l t Hl Ht) as [_ Hcl].
  exists (cleaned_rows t). split; [now apply Hcl|]. unfold cleaned_rows. split; [apply length_map|].
  apply Forall2_map_self. intros r _. unfold cleaned_row. fields.
  split; [reflexivity|]. split; [reflexivity|]. split; [|split; [|split]].
  - now destruct (phone r).
  - unfold cleaned_email. destruct (email_matches (email r)) eqn:E; [|reflexivity].
    now destruct (email_matches_str _ E) as (x & -> & _).
  - unfold cleaned_email. destruct (email_matches (email r)) eqn:E; [|discriminate].
    destruct (email_matches_str _ E) as (x & -> & Hx & _). congruence.
  - intros H. destruct (phone r); simpl; try discriminate; assumption.
Qed.

(** ** Sorting *)

Lemma insert_sorted_perm {A : Type} (leb : A → A → bool) (x : A) (l : list A) :
  insert_sorted leb x l ≡ₚ x :: l.
Proof.
  induction l as [|y l IH]; simpl; [reflexivity|].
  destruct (leb x y); [reflexivity|].
  rewrite IH. apply perm_swap.
Qed.

Lemma sort_perm {A : Type} (leb : A → A → bool) (l : list A) : sort leb l ≡ₚ l.
Proof.
  unfold sort. induction l as [|x l IH]; simpl; [reflexivity|].
  now rewrite insert_sorted_perm, IH.
Qed.

Lemma insert_sorted_strongly {A : Type} (leb : A → A → bool) (x : A) (l : list A) :
  (∀ a b, leb a b = false → leb b a = true) →
  (∀ a b c, leb a b = true → leb b c = true → leb a c = true) →
  StronglySorted (fun a b => leb a b = true) l →
  StronglySorted (fun a b => leb a b = true) (insert_sorted leb x l).
Proof.
  intros Htotal Htrans. induction l as [|y l IH]; intros Hl; simpl.
  - repeat constructor.
  - apply StronglySorted_inv in Hl as [Hl Hy].
    destruct (leb x y) eqn:Hxy.
    + constructor; [now constructor|]. constructor; [assumption|].
      eapply Forall_impl; [exact Hy|]. intros z Hz. simpl in Hz. eauto.
    + constructor; [now apply IH|].
      rewrite insert_sorted_perm. constructor; [now apply Htotal|assumption].
Qed.

Lemma sort_strongly_sorted {A : Type} (leb : A → A → bool) (l : list A) :
  (∀ a b, leb a b = false → leb b a = true) →
  (∀ a b c, leb a b = true → leb b c = true → leb a c = true) →
  StronglySorted (fun a b => leb a b = true) (sort leb l).
Proof.
  intros Htotal Htrans. unfold sort.
  induction l as [|x l IH]; simpl; [constructor|].
  now apply insert_sorted_strongly.
Qed.

Lemma StronglySorted_map {A B : Type} (R : B → B → Prop) (f : A → B) (l : list A) :
  StronglySorted (fun a b => R (f a) (f b)) l → StronglySorted R (map f l).
Proof.
  induction 1 as [|x l Hl IH Hx]; simpl; constructor; [assumption|].
  apply List.Forall_forall. intros y Hy. apply in_map_iff in Hy as (z & <- & Hz).
  rewrite List.Forall_forall in Hx. now apply Hx.
Qed.

(** ** Grouping *)

Lemma filter_twice {A : Type} (f g : A → bool) (l : list A) :
  List.filter f (List.filter g l) = List.filter (fun x => g x && f x) l.
Proof.
  induction l as [|x l IH]; simpl; [reflexivity|].
  destruct (g x); simpl; [|assumption]. destruct (f x); now rewrite IH.
Qed.

Lemma sum_of_counts {A K : Type} (f : K → A → bool) (ks : list K) (l : list A) :
  sum_list_with (fun k => length (List.filter (f k) l)) ks
  = sum_list_with (fun a => length (List.filter (fun k => f k a) ks)) l.
Proof.
  induction l as [|a l IH]; simpl.
  - induction ks as [|k ks IHk]; simpl; [reflexivity|assumption].
  - rewrite <- IH. clear IH.
    induction ks as [|k ks IHk]; simpl; [reflexivity|].
    destruct (f k a); simpl; rewrite IHk; lia.
Qed.

Section Keys.

Context {K : Type} (eqb : K → K → bool).
Hypothesis eqb_sym : ∀ a b, eqb a b = eqb b a.
Hypothesis eqb_trans : ∀ a b c, eqb a b = true → eqb b c = true → eqb a c = true.

Lemma unique_subset (l : list K) (x : K) : In x (unique eqb l) → In x l.
Proof.
  revert x. induction l as [|y l IH]; simpl; [tauto|].
  intros x [->|Hx]; [now left|].
  apply filter_In in Hx as [Hx _]. right. now apply IH.
Qed.

(** A key has one representative among the distinct keys when it
    equals some key, and none otherwise. *)
Lemma unique_count (l : list K) (x : K) :
  length (List.filter (eqb x) (unique eqb l))
  = if existsb (eqb x) l then 1 else 0.
Proof.
  induction l as [|y l IH]; simpl; [reflexivity|].
  destruct (eqb x y) eqn:Hxy; simpl.
  - f_equal. apply length_zero_iff_nil.
    destruct (List.filter (eqb x) (List.filter (λ z, negb (eqb z y)) (unique eqb l)))
      as [|z zs] eqn:E; [reflexivity|].
    assert (In z (z :: zs)) as Hz by now left.
    rewrite <- E in Hz. apply filter_In in Hz as [Hz Hxz].
    apply filter_In in Hz as [_ Hzy]. apply negb_true_iff in Hzy.
    rewrite eqb_sym in Hxz. rewrite (eqb_trans _ _ _ Hxz Hxy) in Hzy. discriminate.
  - rewrite <- IH. f_equal.
    rewrite filter_twice.
    apply filter_ext_in. intros z _.
    destruct (eqb x z) eqn:Hxz; [|apply andb_false_r].
    rewrite andb_true_r. apply negb_true_iff.
    destruct (eqb z y) eqn:Hzy; [|reflexivity].
    rewrite (eqb_trans _ _ _ Hxz Hzy) in Hxy. discriminate.
Qed.

Lemma sum_list_with_ext_in {A : Type} (f g : A → nat) (l : list A) :
  (∀ a, In a l → f a = g a) → sum_list_with f l = sum_list_with g l.
Proof.
  induction l as [|a l IH]; intros H; simpl; [reflexivity|].
  rewrite (H a) by now left. rewrite IH; [reflexivity|].
  intros b Hb. apply H. now right.
Qed.

Lemma sum_list_with_indicator {A : Type} (p : A → bool) (l : list A) :
  sum_list_with (fun a => if p a then 1 else 0) l = length (List.filter p l).
Proof.
  induction l as [|a l IH]; simpl; [reflexivity|].
  destruct (p a); simpl; now rewrite IH.
Qed.

Lemma In_omap_id {A : Type} (key : A → option K) (l : list A) (a : A) (k : K) :
  In a l → key a = Some k → In k (omap id (map key l)).
Proof.
  induction l as [|b l IH]; simpl; [tauto|].
  intros [->|Hin] Hk.
  - rewrite Hk. now left.
  - destruct (key b); simpl; [right|]; now apply IH.
Qed.

(** The groups partition the elements that have a key: their sizes,
    counting the elements that satisfy [p], add up to the number of
    elements with a key that satisfy [p]. *)
Lemma group_sizes_sum {A : Type} (key : A → option K) (p : A → bool)
    (l : list A) (ks : list K) :
  (∀ a k, In a l → key a = Some k → eqb k k = true) →
  ks ≡ₚ unique eqb (omap id (map key l)) →
  sum_list_with
    (fun k => length (List.filter (fun a => key_is eqb k (key a) && p a) l)) ks
  = length (List.filter
              (fun a => match key a with Some _ => p a | None => false end) l).
Proof.
  intros Hrefl ->.
  rewrite (sum_of_counts (fun k a => key_is eqb k (key a) && p a)).
  rewrite <- sum_list_with_indicator.
  apply sum_list_with_ext_in. intros a Ha.
  destruct (key a) as [k|] eqn:Hk; simpl.
  - destruct (p a).
    + rewrite (filter_ext _ (eqb k)) by (intros; apply andb_true_r).
      rewrite unique_count.
      assert (existsb (eqb k) (omap id (map key l)) = true) as ->; [|reflexivity].
      apply existsb_exists. exists k. split; [|eauto].
      eapply In_omap_id; eassumption.
    + rewrite (filter_ext _ (fun _ => false)) by (intros; apply andb_false_r).
      now induction (unique eqb (omap id (map key l))).
  - now induction (unique eqb (omap id (map key l))).
Qed.

End Keys.

(** ** Keys that are cells *)

Lemma value_eqb_sym (a b : value) : value_eqb a b = value_eqb b a.
Proof.
  destruct a, b; simpl; try reflexivity.
  - apply String.eqb_sym.
  - apply Qeq_bool_comm.
  - apply Z.eqb_sym.
Qed.

Lemma value_eqb_trans (a b c : value) :
  value_eqb a b = true → value_eqb b c = true → value_eqb a c = true.
Proof.
  destruct a, b; simpl; try discriminate; destruct c; simpl; try discriminate.
  - rewrite !String.eqb_eq. congruence.
  - apply Qeq_bool_trans.
  - rewrite !Z.eqb_eq. congruence.
Qed.

Lemma value_eqb_refl (v : value) : notnull v = true → value_eqb v v = true.
Proof.
  destruct v; simpl; try discriminate; intros _.
  - apply String.eqb_refl.
  - apply Qeq_bool_refl.
  - apply Z.eqb_refl.
Qed.

Lemma key_of_Some (v k : value) : key_of v = Some k → k = v ∧ notnull v = true.
Proof.
  unfold key_of, notnull. destruct (isnull v); [discriminate|].
  intros [= <-]. auto.
Qed.

Lemma omap_key_of (series : list value) :
  omap id (map key_of series) = List.filter notnull series.
Proof.
  induction series as [|v l IH]; [reflexivity|].
  destruct v; simpl; rewrite <- IH; reflexivity.
Qed.

Lemma filter_of_map {A B : Type} (p : B → bool) (f : A → B) (l : list A) :
  length (List.filter p (map f l)) = length (List.filter (fun a => p (f a)) l).
Proof.
  induction l as [|a l IH]; simpl; [reflexivity|].
  destruct (p (f a)); simpl; now rewrite IH.
Qed.

Lemma sum_list_with_map {A B : Type} (f : B → nat) (g : A → B) (l : list A) :
  sum_list_with f (map g l) = sum_list_with (fun a => f (g a)) l.
Proof. induction l as [|a l IH]; simpl; [reflexivity|]. now rewrite IH. Qed.

(** The groups of [groupby] are the rows with the key of the group. *)
Lemma groupby_filter {K : Type} (eqb leb : K → K → bool)
    (key : row → option K) (t : table) :
  groupby eqb leb (map key t) t
  = map (fun k => (k, List.filter (fun r => key_is eqb k (key r)) t))
        (sort leb (unique eqb (omap id (map key t)))).
Proof.
  unfold groupby. apply map_ext. intros k.
  now rewrite map_map, select_filter.
Qed.

Lemma traverse_Forall2 {A B : Type} (f : A → result B) (l : list A) (l' : list B) :
  traverse f l = Ok l' → Forall2 (fun x y => f x = Ok y) l l'.
Proof.
  revert l'. induction l as [|x l IH]; simpl; intros l' H.
  - injection H as <-. constructor.
  - destruct (f x) as [y|e] eqn:Hx; simpl in H; [|discriminate].
    destruct (traverse f l) as [l''|e]; simpl in H; [|discriminate].
    injection H as <-. constructor; [assumption|]. now apply IH.
Qed.

Lemma sum_Forall2 {A B : Type} (f : A → nat) (g : B → nat) (l : list A) (l' : list B) :
  Forall2 (fun x y => f x = g y) l l' → sum_list_with f l = sum_list_with g l'.
Proof. induction 1 as [|x y l l' H _ IH]; simpl; [reflexivity|]. now rewrite H, IH. Qed.

Lemma agg_Ok (g : table) (a : aggregates) :
  agg g = Ok a →
  lead_id_count a = series_count (getitem lead_id_col g) ∧
  series_sum (getitem lead_value_col g) = Ok (lead_value_sum a) ∧
  status_converted a = converted_count (getitem status_col g).
Proof.
  unfold agg. destruct (series_sum (getitem lead_value_col g)) as [q|e]; simpl;
    [|discriminate].
  intros [= <-]. auto.
Qed.

Lemma agg_groups_Ok {K : Type} (groups : list (K * table))
    (grouped : list (K * aggregates)) :
  agg_groups groups = Ok grouped →
  Forall2 (fun g a => a.1 = g.1 ∧ agg g.2 = Ok a.2) groups grouped.
Proof.
  intros H. apply traverse_Forall2 in H.
  eapply Forall2_impl; [exact H|]. simpl. intros [k g] [k' a]. simpl.
  destruct (agg g); simpl; [|discriminate]. intros [= <- <-]. auto.
Qed.

Lemma by_source_Ok (t : table) (stats : list source_stats) :
  by_source t = Ok stats →
  ∃ grouped,
    agg_groups (groupby value_eqb value_leb (map key_of (getitem source_col t)) t)
    = Ok grouped ∧
    stats = sort_by_total_value (map source_row grouped).
Proof.
  unfold by_source.
  destruct (agg_groups _) as [grouped|e]; simpl; [|discriminate].
  destruct (idxmax _) as [best|e]; simpl; [|discriminate].
  destruct (loc_conversion_rate _ _); simpl; [|discriminate].
  intros [= <-]. eauto.
Qed.

Lemma by_source_total_leads (t : table) (stats : list source_stats) :
  by_source t = Ok stats →
  sum_list_with total_leads stats
  = length (List.filter (fun r => notnull (source r) && notnull (lead_id r)) t).
Proof.
  intros H. apply by_source_Ok in H as (grouped & Hg & ->).
  unfold sort_by_total_value. rewrite sort_perm, sum_list_with_map.
  unfold getitem in Hg. rewrite map_map, groupby_filter in Hg.
  apply agg_groups_Ok in Hg.
  set (ks := sort value_leb _) in Hg.
  set (group := fun k : value => (k, List.filter _ t)) in Hg.
  assert (sum_list_with (fun a => total_leads (source_row a)) grouped
          = sum_list_with
              (fun g : value * table => series_count (getitem lead_id_col g.2))
              (map group ks)) as ->.
  { symmetry. apply sum_Forall2. eapply Forall2_impl; [exact Hg|].
    intros g a [_ Ha]. apply agg_Ok in Ha as (Ha & _). simpl. now rewrite Ha. }
  rewrite sum_list_with_map.
  rewrite (sum_list_with_ext_in _
    (fun k => length (List.filter
       (fun r => key_is value_eqb k (key_of (source r)) && notnull (lead_id r)) t))).
  2:{ intros k _. unfold group, series_count, getitem. simpl.
      now rewrite filter_of_map, filter_twice. }
  rewrite (group_sizes_sum value_eqb value_eqb_sym value_eqb_trans
             (fun r => key_of (source r)) (fun r => notnull (lead_id r))).
  - f_equal. apply filter_ext. intros r. unfold key_of, notnull.
    now destruct (isnull (source r)).
  - intros r k _ Hk. apply key_of_Some in Hk as [-> Hk].
    now apply value_eqb_refl.
  - apply sort_perm.
Qed.

Lemma value_eqb_notnull (v k : value) : value_eqb v k = true → notnull v = true.
Proof. now destruct v. Qed.

Lemma by_status_counts (t : table) :
  sum_list_with Count (by_status t)
  = length (List.filter (fun r => notnull (status r)) t).
Proof.
  unfold by_status, value_counts. rewrite sum_list_with_map. simpl.
  rewrite sort_perm, sum_list_with_map. simpl.
  rewrite (sum_list_with_ext_in _
    (fun k => length (List.filter
       (fun v => key_is value_eqb k (key_of v) && true) (getitem status_col t)))).
  2:{ intros k _. f_equal. apply filter_ext. intros v. rewrite andb_true_r.
      unfold key_of. now destruct v. }
  rewrite (group_sizes_sum value_eqb value_eqb_sym value_eqb_trans key_of (fun _ => true)).
  - unfold getitem. rewrite <- (filter_of_map notnull).
    f_equal. apply filter_ext. intros v. unfold key_of, notnull.
    now destruct (isnull v).
  - intros v k _ Hk. apply key_of_Some in Hk as [-> Hk]. now apply value_eqb_refl.
  - now rewrite omap_key_of.
Qed.

Lemma StronglySorted_weaken {A : Type} (R R' : A → A → Prop) (l : list A) :
  (∀ a b, R a b → R' a b) → StronglySorted R l → StronglySorted R' l.
Proof.
  intros H. induction 1 as [|x l Hl IH Hx]; constructor; [assumption|].
  eapply Forall_impl; [exact Hx|]. intros y. apply H.
Qed.

Lemma by_source_sorted (t : table) (stats : list source_stats) :
  by_source t = Ok stats →
  StronglySorted (fun a b => (total_value b <= total_value a)%Q) stats.
Proof.
  intros H. apply by_source_Ok in H as (grouped & _ & ->).
  unfold sort_by_total_value.
  eapply StronglySorted_weaken; [|apply sort_strongly_sorted].
  - intros a b. apply Qle_bool_imp_le.
  - intros a b Hab. apply Qle_bool_iff.
    destruct (Qlt_le_dec (total_value b) (total_value a)) as [Hlt|Hle];
      [|assumption].
    exfalso. apply Qlt_le_weak, Qle_bool_iff in Hlt. congruence.
  - intros a b c. rewrite !Qle_bool_iff. intros Hab Hbc.
    eapply Qle_trans; eassumption.
Qed.

Lemma by_status_sorted (t : table) :
  StronglySorted (fun a b => (Count b <= Count a)%nat) (by_status t).
Proof.
  unfold by_status, value_counts. apply StronglySorted_map. simpl.
  eapply StronglySorted_weaken; [|apply sort_strongly_sorted].
  - intros a b. apply Nat.leb_le.
  - intros a b. rewrite Nat.leb_le, Nat.leb_gt. lia.
  - intros a b c. rewrite !Nat.leb_le. lia.
Qed.

Lemma omap_id_cons {K : Type} (o : option K) (l : list (option K)) :
  omap id (o :: l) = match o with Some k => k :: omap id l | None => omap id l end.
Proof. reflexivity. Qed.

(** Rows without a key are in no group. *)
Lemma groupby_dropna {K : Type} (eqb leb : K → K → bool)
    (key : row → option K) (has_key : row → bool) (t : table) :
  (∀ r, has_key r = match key r with Some _ => true | None => false end) →
  groupby eqb leb (map key (List.filter has_key t)) (List.filter has_key t)
  = groupby eqb leb (map key t) t.
Proof.
  intros Hkey. rewrite !groupby_filter.
  assert (omap id (map key (List.filter has_key t)) = omap id (map key t)) as ->.
  { induction t as [|r t IH]; [reflexivity|].
    cbn [List.filter map]. rewrite (Hkey r), omap_id_cons.
    destruct (key r) as [k|] eqn:Hk; [|assumption].
    cbn [map]. now rewrite omap_id_cons, Hk, IH. }
  apply map_ext. intros k. f_equal. rewrite filter_twice.
  apply filter_ext. intros r. rewrite (Hkey r). now destruct (key r).
Qed.

Lemma by_source_dropna (t : table) :
  by_source (List.filter (fun r => notnull (source r)) t) = by_source t.
Proof.
  unfold by_source, getitem. rewrite !map_map.
  rewrite (groupby_dropna value_eqb value_leb (fun r => key_of (get source_col r))).
  - reflexivity.
  - intros r. simpl. unfold key_of, notnull. now destruct (isnull (source r)).
Qed.

Lemma value_counts_dropna (series : list value) :
  value_counts (List.filter notnull series) = value_counts series.
Proof.
  unfold value_counts. f_equal.
  assert (List.filter notnull (List.filter notnull series) = List.filter notnull series) as ->.
  { rewrite filter_twice. apply filter_ext. intros v. now destruct (notnull v). }
  apply map_ext. intros k. f_equal. f_equal. rewrite filter_twice.
  apply filter_ext. intros v. destruct (value_eqb v k) eqn:E.
  - now rewrite (value_eqb_notnull v k E).
  - apply andb_false_r.
Qed.

Lemma getitem_filter (c : column) (p : value → bool) (t : table) :
  getitem c (List.filter (fun r => p (get c r)) t) = List.filter p (getitem c t).
Proof.
  unfold getitem. induction t as [|r t IH]; simpl; [reflexivity|].
  destruct (p (get c r)); simpl; now rewrite IH.
Qed.

(** ** When [analyze_by_source] returns *)

Lemma series_sum_numeric (series : list value) :
  (∀ v, In v series → is_num v = true) → ∃ q, series_sum series = Ok q.
Proof.
  induction series as [|v l IH]; intros H; simpl; [eauto|].
  destruct IH as [q ->]; [intros; apply H; now right|]. simpl.
  specialize (H v (or_introl eq_refl)). destruct v; try discriminate. eauto.
Qed.

Lemma traverse_total {A B : Type} (f : A → result B) (l : list A) :
  (∀ x, In x l → ∃ y, f x = Ok y) → ∃ l', traverse f l = Ok l'.
Proof.
  induction l as [|x l IH]; intros H; simpl; [eauto|].
  destruct (H x (or_introl eq_refl)) as [y ->]. simpl.
  destruct IH as [l' ->]; [intros; apply H; now right|]. simpl. eauto.
Qed.

Lemma Forall2_In_l {A B : Type} (P : A → B → Prop) (l : list A) (l' : list B) (x : A) :
  Forall2 P l l' → In x l → ∃ y, In y l' ∧ P x y.
Proof.
  induction 1 as [|a b l l' Hab _ IH]; simpl; [tauto|].
  intros [->|Hx]; [eauto|]. destruct (IH Hx) as (y & Hy & Hxy). eauto.
Qed.

Lemma Forall2_In_r {A B : Type} (P : A → B → Prop) (l : list A) (l' : list B) (y : B) :
  Forall2 P l l' → In y l' → ∃ x, In x l ∧ P x y.
Proof.
  induction 1 as [|a b l l' Hab _ IH]; simpl; [tauto|].
  intros [->|Hy]; [eauto|]. destruct (IH Hy) as (x & Hx & Hxy). eauto.
Qed.

Lemma first_max_In (best : option (value * float64)) (s : list (value * float64))
    (p : value * float64) :
  first_max best s = Some p → In p s ∨ best = Some p.
Proof.
  revert best. induction s as [|[k x] s IH]; intros best; simpl; [auto|].
  destruct (is_float_nan x).
  - intros H. destruct (IH _ H); auto.
  - destruct best as [[k' y]|].
    + destruct (fgtb x y); intros H; destruct (IH _ H) as [|E]; auto.
      injection E as <-. auto.
    + intros H. destruct (IH _ H) as [|E]; auto. injection E as <-. auto.
Qed.

Lemma first_max_Some (best : option (value * float64)) (s : list (value * float64)) :
  is_Some best ∨ (∃ k x, In (k, x) s ∧ is_float_nan x = false) →
  is_Some (first_max best s).
Proof.
  revert best. induction s as [|[k x] s IH]; intros best; simpl.
  - intros [H|(k & x & [] & _)]. exact H.
  - intros H. destruct (is_float_nan x) eqn:Hx.
    + apply IH. destruct H as [H|(k' & x' & [E|Hin] & Hnan)]; eauto.
      injection E as <- <-. congruence.
    + destruct best as [[k' y]|]; [destruct (fgtb x y)|]; apply IH; left; eauto.
Qed.

Lemma find_exists {A : Type} (f : A → bool) (l : list A) (x : A) :
  In x l → f x = true → ∃ y, List.find f l = Some y.
Proof.
  intros Hin Hx. destruct (List.find f l) as [y|] eqn:E; [eauto|].
  rewrite (find_none f l E x Hin) in Hx. discriminate.
Qed.

Lemma unique_represents {K : Type} (eqb : K → K → bool) (l : list K) (v : K) :
  (∀ a b, eqb a b = eqb b a) →
  (∀ a b c, eqb a b = true → eqb b c = true → eqb a c = true) →
  In v l → eqb v v = true →
  ∃ k, In k (unique eqb l) ∧ eqb v k = true.
Proof.
  intros Hsym Htrans Hin Hrefl.
  pose proof (unique_count eqb Hsym Htrans l v) as Hcount.
  assert (existsb (eqb v) l = true) as E by (apply existsb_exists; eauto).
  rewrite E in Hcount.
  destruct (List.filter (eqb v) (unique eqb l)) as [|k ks] eqn:Hf; [discriminate|].
  exists k. apply filter_In. rewrite Hf. now left.
Qed.

Lemma rate_of_leads_is_a_number (conversions leads : nat) :
  (0 < leads)%nat →
  is_float_nan (round2 (fmul (fdiv (of_nat conversions) (of_nat leads)) 100)) = false.
Proof.
  intros H. unfold fdiv.
  assert (Qeq_bool (of_nat leads) 0 = false) as ->; [|reflexivity].
  destruct (Qeq_bool (of_nat leads) 0) eqn:E; [|reflexivity].
  apply Qeq_bool_eq in E. unfold of_nat, Qeq in E. simpl in E. lia.
Qed.

(** On a table whose lead values are numbers, [by_source] returns as
    soon as some row has a source and a [lead_id]. *)
Lemma by_source_returns (t : table) (r : row) :
  (∀ r', In r' t → is_num (lead_value r') = true) →
  In r t → notnull (source r) = true → notnull (lead_id r) = true →
  ∃ stats, by_source t = Ok stats.
Proof.
  intros Hnum Hr Hsource Hid. unfold by_source, getitem.
  rewrite map_map, groupby_filter.
  set (ks := sort value_leb _).
  set (group := fun k : value => (k, List.filter _ t)).
  (* the aggregation of every group is defined *)
  destruct (traverse_total
    (fun g : value * table => rbind (agg g.2) (fun a => Ok (g.1, a))) (map group ks))
    as [grouped Hg].
  { intros g Hin. apply in_map_iff in Hin as (k & <- & _).
    unfold group. cbn [fst snd]. unfold agg.
    destruct (series_sum_numeric (getitem lead_value_col
      (List.filter (fun r0 => key_is value_eqb k (key_of (get source_col r0))) t)))
      as [q ->]; [|simpl; eauto].
    intros v Hv. unfold getitem in Hv. apply in_map_iff in Hv as (r' & <- & Hr').
    apply filter_In in Hr' as [Hr' _]. now apply Hnum. }
  unfold agg_groups. rewrite Hg. simpl rbind.
  pose proof (agg_groups_Ok _ _ Hg) as Hall.
  set (stats := sort_by_total_value (map source_row grouped)).
  assert (∀ st, In st stats → ∃ k, In k ks ∧ source_index st = k ∧
            total_leads st = length (List.filter
              (fun r0 => key_is value_eqb k (key_of (source r0)) && notnull (lead_id r0)) t))
    as Hstats.
  { intros st Hst. unfold stats, sort_by_total_value in Hst.
    apply (Permutation_in _ (sort_perm _ _)) in Hst.
    apply in_map_iff in Hst as (a & <- & Ha).
    destruct (Forall2_In_r _ _ _ _ Hall Ha) as (g & Hgin & Hk & Hagg).
    apply in_map_iff in Hgin as (k & <- & Hkin). exists k. simpl in *.
    apply agg_Ok in Hagg as (Hcount & _). split; [assumption|]. split; [assumption|].
    rewrite Hcount. unfold series_count, getitem.
    now rewrite filter_of_map, filter_twice. }
  (* the group of [r] has a conversion rate that is a number *)
  assert (∃ st, In st stats ∧ is_float_nan (conversion_rate st) = false) as (st & Hst & Hrate).
  { destruct (unique_represents value_eqb
                (omap id (map (fun r0 => key_of (get source_col r0)) t)) (source r)
                value_eqb_sym value_eqb_trans) as (k & Hk & Hvk).
    - apply (In_omap_id (fun r0 => key_of (get source_col r0)) t r); [assumption|].
      simpl. unfold key_of. unfold notnull in Hsource.
      now destruct (isnull (source r)).
    - now apply value_eqb_refl.
    - assert (In k ks) as Hks
        by (unfold ks; apply (Permutation_in _ (Permutation_sym (sort_perm _ _))), Hk).
      destruct (Forall2_In_l _ _ _ (group k) Hall) as (a & Ha & Hak & Hagg).
      { now apply in_map. }
      exists (source_row a). split.
      + unfold stats, sort_by_total_value.
        apply (Permutation_in _ (Permutation_sym (sort_perm _ _))). now apply in_map.
      + unfold source_row. simpl. apply rate_of_leads_is_a_number.
        apply agg_Ok in Hagg as (-> & _). simpl. unfold series_count, getitem.
        rewrite filter_of_map, filter_twice.
        assert (In r (List.filter
          (fun x => key_is value_eqb k (key_of (get source_col x)) && notnull (get lead_id_col x)) t))
          as Hin.
        { apply filter_In. split; [assumption|]. simpl. rewrite Hid, andb_true_r.
          unfold key_of. unfold notnull in Hsource.
          destruct (isnull (source r)); [discriminate|]. exact Hvk. }
        destruct (List.filter _ t); [destruct Hin|simpl; lia]. }
  (* so [idxmax] finds a label, which is in the index *)
  set (rates := map (fun r0 => (source_index r0, conversion_rate r0)) stats).
  assert (In (source_index st, conversion_rate st) rates) as Hin
    by (unfold rates; now apply (in_map (fun r0 => (source_index r0, conversion_rate r0)))).
  destruct (first_max_Some None rates) as [[k x] Hmax]; [right; eauto|].
  unfold idxmax. destruct rates as [|p rates'] eqn:Erates; [destruct Hin|].
  rewrite Hmax. simpl rbind.
  destruct (first_max_In _ _ _ Hmax) as [Hk|]; [|discriminate].
  rewrite <- Erates in Hk. unfold rates in Hk.
  apply in_map_iff in Hk as (st' & [= <- <-] & Hst').
  destruct (Hstats st' Hst') as (k & Hkin & Hidx & _).
  destruct (find_exists (fun r0 => value_eqb (source_index r0) (source_index st')) stats st')
    as [y Hy]; [assumption| |].
  - apply value_eqb_refl. rewrite Hidx.
    unfold ks in Hkin. apply (Permutation_in _ (sort_perm _ _)) in Hkin.
    apply unique_subset in Hkin.
    replace (omap id (map (fun r0 => key_of (get source_col r0)) t))
      with (List.filter notnull (getitem source_col t)) in Hkin
      by (unfold getitem; now rewrite <- omap_key_of, map_map).
    now apply filter_In in Hkin as [_ Hkin].
  - unfold loc_conversion_rate. rewrite Hy. simpl. eauto.
Qed.

(** ** The claims about the grouped aggregations *)

Lemma cleaned_row_is_clean (format : option string) (r : row) :
  date_readable format (date_added r) = true → is_clean (cleaned_row format r) = true.
Proof.
  intros Hd. unfold is_clean, cleaned_row. fields.
  repeat (apply andb_true_intro; split).
  - now destruct (phone r).
  - unfold cleaned_email. destruct (email_matches (email r)) eqn:E.
    + now rewrite E.
    + apply orb_true_r.
  - now destruct (name r).
  - now destruct (source r).
  - now destruct (status r).
  - unfold cleaned_lead_value. destruct (lead_value r) as [| |x|q|ns]; simpl; try reflexivity.
    now destruct (parse_numeric x).
  - exact (proj1 (cleaned_date_read format _ Hd)).
Qed.

Lemma forallb_length_filter {A : Type} (p : A → bool) (l : list A) :
  forallb p l = true → length (List.filter p l) = length l.
Proof. intros H. now rewrite (forallb_filter_id p l H). Qed.

Lemma is_clean_numeric (t : table) :
  forallb is_clean t = true → ∀ r, In r t → is_num (lead_value r) = true.
Proof.
  intros H r Hr. rewrite forallb_forall in H. specialize (H r Hr).
  unfold is_clean in H. repeat (apply andb_prop in H as [H ?]). assumption.
Qed.

(** C5 (as amended). On an analyzer that holds the cleaned table [t],
    the [total_leads] of the groups of [analyze_by_source] add up to the
    number of rows that have a source and a [lead_id], and the [Count]s
    of [analyze_by_status] to the number of rows that have a status;
    these are the number of rows of [t] when no row lacks them.  On a
    cleaned table that is not empty and all of whose rows have a source
    and a [lead_id], [analyze_by_source] returns. *)
Theorem group_counts_add_up (s : session) (c : positive) (t : table) :
  clean_df s = Some c → heap s !! c = Some t →
  (∀ stats s', analyze_by_source s = (Ok (Some stats), s') →
     sum_list_with total_leads stats
     = length (List.filter (fun r => notnull (source r) && notnull (lead_id r)) t) ∧
     (forallb (fun r => notnull (source r) && notnull (lead_id r)) t = true →
      sum_list_with total_leads stats = length t)) ∧
  (∃ stats, analyze_by_status s = (Ok (Some stats), s) ∧
     sum_list_with Count stats
     = length (List.filter (fun r => notnull (status r)) t) ∧
     (forallb (fun r => notnull (status r)) t = true →
      sum_list_with Count stats = length t)) ∧
  (forallb is_clean t = true → t ≠ [] →
   forallb (fun r => notnull (source r) && notnull (lead_id r)) t = true →
   ∃ stats, analyze_by_source s = (Ok (Some stats), s)).
Proof.
  intros Hc Ht. split; [|split].
  - intros stats s'. rewrite (analyze_by_source_held s c t Hc Ht).
    destruct (by_source t) as [r|e] eqn:E; [|discriminate]. intros [= <- <-].
    pose proof (by_source_total_leads t r E) as H. split; [assumption|].
    intros Hall. now rewrite H, forallb_length_filter.
  - exists (by_status t). split; [apply (analyze_by_status_held s c t Hc Ht)|].
    pose proof (by_status_counts t) as H. split; [assumption|].
    intros Hall. now rewrite H, forallb_length_filter.
  - intros Hclean Hne Hall. rewrite (analyze_by_source_held s c t Hc Ht).
    destruct t as [|r t']; [congruence|].
    pose proof Hall as Hr. simpl in Hr. apply andb_prop in Hr as [Hr _].
    apply andb_prop in Hr as [Hsource Hid].
    destruct (by_source_returns (r :: t') r) as [stats ->];
      [now apply is_clean_numeric|now left|assumption|assumption|eauto].
Qed.

(** C6. On an analyzer that holds the cleaned table [t], the table
    [analyze_by_source] returns is in descending order of [total_value],
    and the table [analyze_by_status] returns is in descending order of
    [Count].  [analyze_by_status] always returns; [analyze_by_source]
    returns on a cleaned table in which some row has a source and a
    [lead_id]. *)
Theorem results_are_sorted (s : session) (c : positive) (t : table) :
  clean_df s = Some c → heap s !! c = Some t →
  (∀ stats s', analyze_by_source s = (Ok (Some stats), s') →
     StronglySorted (fun a b => (total_value b <= total_value a)%Q) stats) ∧
  (∃ stats, analyze_by_status s = (Ok (Some stats), s) ∧
     StronglySorted (fun a b => (Count b <= Count a)%nat) stats) ∧
  (forallb is_clean t = true →
   ∀ r, In r t → notnull (source r) = true → notnull (lead_id r) = true →
   ∃ stats, analyze_by_source s = (Ok (Some stats), s)).
Proof.
  intros Hc Ht. split; [|split].
  - intros stats s'. rewrite (analyze_by_source_held s c t Hc Ht).
    destruct (by_source t) as [r|e] eqn:E; [|discriminate]. intros [= <- <-].
    now apply (by_source_sorted t).
  - exists (by_status t). split; [apply (analyze_by_status_held s c t Hc Ht)|].
    apply by_status_sorted.
  - intros Hclean r Hr Hsource Hid. rewrite (analyze_by_source_held s c t Hc Ht).
    destruct (by_source_returns t r) as [stats ->];
      [now apply is_clean_numeric|assumption|assumption|assumption|eauto].
Qed.

(** C10. When [clean_data] has returned, [phone], [email] and
    [lead_value] are missing in no row, while a cell of another column
    that was missing is still missing: a missing [source] or [status]
    is NaN after the trimming and the title-casing.  The rows without a
    source are in no group of [analyze_by_source], whose result is that
    for the table without them; the rows without a status are not
    counted by [analyze_by_status], whose counts are those of the table
    without them.  Nothing is reported for these rows. *)
Theorem missing_source_or_status_is_left_out (s : session) (l : positive) (t : table) :
  df s = Some l → heap s !! l = Some t → (clean_data s).1 = Ok tt →
  (∃ t', cleaned_table (clean_data s).2 = Some t' ∧
     Forall2 (fun r r' =>
       isnull (phone r') = false ∧ isnull (email r') = false ∧
       isnull (lead_value r') = false ∧
       (isnull (source r) = true → source r' = NaN) ∧
       (isnull (status r) = true → status r' = NaN) ∧
       (isnull (name r) = true → name r' = NaN) ∧
       (isnull (lead_id r) = true → isnull (lead_id r') = true) ∧
       (isnull (date_added r) = true → isnull (date_added r') = true)) t t') ∧
  (∀ t', by_source t' = by_source (List.filter (fun r => notnull (source r)) t')) ∧
  (∀ t', map (fun x => (status_index x, Count x)) (by_status t')
         = map (fun x => (status_index x, Count x))
               (by_status (List.filter (fun r => notnull (status r)) t'))).
Proof.
  intros Hl Ht Hres. split; [|split].
  - destruct (clean_data_returns s l t Hl Ht) as [_ Hcl].
    exists (cleaned_rows t). split; [now apply Hcl|]. unfold cleaned_rows.
    apply Forall2_map_self. intros r _. unfold cleaned_row. fields.
    repeat split.
    + now destruct (phone r).
    + unfold cleaned_email. destruct (email_matches (email r)) eqn:E; [|reflexivity].
      now destruct (email_matches_str _ E) as (x & -> & _).
    + unfold cleaned_lead_value. destruct (lead_value r) as [| |x|q|ns]; simpl; try reflexivity.
      now destruct (parse_numeric x).
    + now destruct (source r).
    + now destruct (status r).
    + now destruct (name r).
    + auto.
    + unfold cleaned_date. now destruct (date_added r).
  - intros t'. symmetry. apply by_source_dropna.
  - intros t'. unfold by_status. rewrite !map_map. simpl.
    now rewrite (getitem_filter status_col notnull), value_counts_dropna.
Qed.

(** * Further properties of the code *)

(** ** [load_data] *)

(** X1. [load_data] binds [self.df] to a new frame that holds the table
    read, returns [True], and leaves everything else as it is: the frames
    already in the store, and [self.clean_df] with them.  A table cleaned
    from an earlier load therefore stays in place, and
    [calculate_conversion_rate] answers from it as before.  When the file
    cannot be read, nothing is raised, [False] is returned and both
    tables stay as they are. *)
Theorem load_data_rebinds_the_raw_table_only (s : session) (t : table) (e : exn) :
  wf s →
  (∃ s', load_data (Ok t) s = (Ok true, s') ∧ wf s' ∧
     raw_table s' = Some t ∧
     (∀ l x, heap s !! l = Some x → heap s' !! l = Some x) ∧
     clean_df s' = clean_df s ∧ cleaned_table s' = cleaned_table s ∧
     (calculate_conversion_rate s').1 = (calculate_conversion_rate s).1) ∧
  (∃ s', load_data (Raise e) s = (Ok false, s') ∧
     df s' = df s ∧ clean_df s' = clean_df s ∧
     raw_table s' = raw_table s ∧ cleaned_table s' = cleaned_table s).
Proof.
  destruct s as [file h d cd out]. intros [Hdf Hcl]. cbn [df clean_df heap] in Hdf, Hcl.
  split; [|eexists; split; [reflexivity|auto]].
  unfold load_data. unfold_monad. state.
  set (l := fresh (dom h)).
  assert (∀ l' x, h !! l' = Some x → <[l := t]> h !! l' = Some x) as Hkeep.
  { intros l' x Hx. rewrite lookup_insert_ne; [assumption|].
    apply fresh_not_held. eauto. }
  eexists. split; [reflexivity|]. split; [|split; [|split; [|split; [|split]]]].
  - split; state.
    + intros l' [= <-]. rewrite lookup_insert_eq. eauto.
    + intros c Hc. destruct (Hcl c Hc) as [x Hx]. exists x. now apply Hkeep.
  - unfold raw_table. state. cbn [mbind option_bind]. apply lookup_insert_eq.
  - exact Hkeep.
  - reflexivity.
  - unfold cleaned_table. state. destruct cd as [c|]; [|reflexivity].
    cbn [mbind option_bind].
    destruct (Hcl c eq_refl) as [x Hx]. rewrite Hx. now apply Hkeep.
  - destruct cd as [c|].
    + destruct (Hcl c eq_refl) as [x Hx].
      rewrite (calculate_conversion_rate_held (mk_session file h d (Some c) out) c x
                 eq_refl Hx).
      now rewrite (calculate_conversion_rate_held
                 (mk_session file (<[l := t]> h) (Some l) (Some c) out) c x
                 eq_refl (Hkeep c x Hx)).
    + reflexivity.
Qed.

(** ** The outcomes of [clean_data] *)


Lemma forallb_false_exists {A : Type} (p : A → bool) (l : list A) :
  forallb p l = false → ∃ x, In x l ∧ p x = false.
Proof.
  induction l as [|a l IH]; simpl; [discriminate|].
  destruct (p a) eqn:Ha; simpl.
  - intros H. destruct (IH H) as (x & Hx & Hp). eauto.
  - intros _. eauto.
Qed.



Lemma cleaned_rows_are_clean (t : table) :
  dates_ok t = true → forallb is_clean (cleaned_rows t) = true.
Proof.
  intros H. apply forallb_forall. intros r' Hr'.
  apply in_map_iff in Hr' as (r & <- & Hr).
  apply cleaned_row_is_clean.
  unfold dates_ok in H. rewrite forallb_forall in H. now apply H.
Qed.


(** ** Stripping and title-casing *)

Ltac every_char c :=
  destruct c as [[] [] [] [] [] [] [] []]; vm_compute;
  try (intros H; discriminate H); try (intros _); repeat split; reflexivity.

Lemma upper_of_a_lower_case_letter (c : ascii) :
  PyStr.islower c = true →
  PyStr.islower (PyStr.upper c) = false ∧ PyStr.isupper (PyStr.upper c) = true ∧
  PyStr.lower (PyStr.upper c) = c ∧ PyStr.lower c = c.
Proof. every_char c. Qed.

Lemma lower_of_an_upper_case_letter (c : ascii) :
  PyStr.isupper c = true →
  PyStr.islower (PyStr.lower c) = true ∧ PyStr.upper (PyStr.lower c) = c ∧
  PyStr.islower c = false ∧ PyStr.lower (PyStr.lower c) = PyStr.lower c.
Proof. every_char c. Qed.

Lemma lower_of_no_upper_case_letter (c : ascii) :
  PyStr.isupper c = false → PyStr.lower c = c.
Proof. unfold PyStr.lower. now intros ->. Qed.

Lemma letters_are_no_spaces (c : ascii) :
  PyStr.isspace (PyStr.upper c) = PyStr.isspace c ∧
  PyStr.isspace (PyStr.lower c) = PyStr.isspace c.
Proof. every_char c. Qed.

Lemma lstrip_chars_stops (l : list ascii) :
  match PyStr.lstrip_chars l with
  | [] => True
  | c :: _ => PyStr.isspace c = false
  end.
Proof.
  induction l as [|c l IH]; simpl; [exact I|].
  destruct (PyStr.isspace c) eqn:E; [exact IH|exact E].
Qed.

Lemma lstrip_chars_fixed (l : list ascii) :
  match l with [] => True | c :: _ => PyStr.isspace c = false end →
  PyStr.lstrip_chars l = l.
Proof. destruct l as [|c l]; simpl; [reflexivity|]. now intros ->. Qed.

Lemma lstrip_chars_snoc (l : list ascii) (c : ascii) :
  PyStr.isspace c = false →
  PyStr.lstrip_chars (l ++ [c]) = (PyStr.lstrip_chars l ++ [c])%list.
Proof.
  intros Hc. induction l as [|x l IH]; simpl.
  - now rewrite Hc.
  - destruct (PyStr.isspace x); [exact IH|reflexivity].
Qed.

Lemma strip_chars_stripped (l : list ascii) :
  stripped (PyStr.rstrip_chars (PyStr.lstrip_chars l)).
Proof.
  unfold stripped, PyStr.rstrip_chars. rewrite rev_involutive. split.
  - pose proof (lstrip_chars_stops l) as H.
    destruct (PyStr.lstrip_chars l) as [|c m]; [exact I|].
    simpl rev. rewrite (lstrip_chars_snoc _ _ H), rev_app_distr. exact H.
  - apply lstrip_chars_stops.
Qed.

Lemma stripped_fixed (l : list ascii) :
  stripped l → PyStr.rstrip_chars (PyStr.lstrip_chars l) = l.
Proof.
  intros [Hhead Htail]. rewrite (lstrip_chars_fixed l Hhead).
  unfold PyStr.rstrip_chars. rewrite (lstrip_chars_fixed _ Htail).
  apply rev_involutive.
Qed.

Lemma title_chars_keeps_spaces (b : bool) (l : list ascii) :
  map PyStr.isspace (PyStr.title_chars b l) = map PyStr.isspace l.
Proof.
  revert b. induction l as [|c l IH]; intros b; [reflexivity|].
  cbn [PyStr.title_chars]. destruct (letters_are_no_spaces c) as [Hu Hl].
  destruct (PyStr.islower c); [|destruct (PyStr.isupper c)];
    destruct b; cbn [map]; rewrite IH; congruence.
Qed.

Lemma stripped_by_spaces (l m : list ascii) :
  map PyStr.isspace l = map PyStr.isspace m → stripped m → stripped l.
Proof.
  intros H [Hhead Htail]. split.
  - destruct l as [|c l], m as [|d m]; try discriminate; [exact I|].
    injection H as Hc _. congruence.
  - assert (map PyStr.isspace (rev l) = map PyStr.isspace (rev m)) as H'
      by now rewrite !map_rev, H.
    destruct (rev l) as [|c l'], (rev m) as [|d m']; try discriminate; [exact I|].
    injection H' as Hc _. congruence.
Qed.

Lemma title_chars_idempotent (b : bool) (l : list ascii) :
  PyStr.title_chars b (PyStr.title_chars b l) = PyStr.title_chars b l.
Proof.
  revert b. induction l as [|c l IH]; intros b; [reflexivity|].
  simpl. destruct (PyStr.islower c) eqn:Hlow.
  - destruct (upper_of_a_lower_case_letter c Hlow) as (Hul & Huu & _).
    destruct b; simpl.
    + now rewrite Hlow, IH.
    + now rewrite Hul, Huu, IH.
  - destruct (PyStr.isupper c) eqn:Hup.
    + destruct (lower_of_an_upper_case_letter c Hup) as (Hll & _).
      destruct b; simpl.
      * now rewrite Hll, IH.
      * now rewrite Hlow, Hup, IH.
    + simpl. now rewrite Hlow, Hup, IH.
Qed.

Lemma title_chars_of_lower (b : bool) (l : list ascii) :
  PyStr.title_chars b (map PyStr.lower l) = PyStr.title_chars b l.
Proof.
  revert b. induction l as [|c l IH]; intros b; [reflexivity|].
  cbn [map PyStr.title_chars]. destruct (PyStr.isupper c) eqn:Hup.
  - destruct (lower_of_an_upper_case_letter c Hup) as (Hll & Hul & Hlow & _).
    now rewrite Hll, Hlow, Hul, IH.
  - now rewrite (lower_of_no_upper_case_letter c Hup), Hup, !IH.
Qed.

Lemma lower_of_title_chars (b : bool) (l : list ascii) :
  map PyStr.lower (PyStr.title_chars b l) = map PyStr.lower l.
Proof.
  revert b. induction l as [|c l IH]; intros b; [reflexivity|].
  simpl. destruct (PyStr.islower c) eqn:Hlow.
  - destruct (upper_of_a_lower_case_letter c Hlow) as (_ & _ & Hlu & Hl).
    destruct b; simpl; rewrite IH; congruence.
  - destruct (PyStr.isupper c) eqn:Hup.
    + destruct (lower_of_an_upper_case_letter c Hup) as (_ & _ & _ & Hll).
      destruct b; simpl; rewrite IH; congruence.
    + simpl. now rewrite IH.
Qed.

Lemma strip_idempotent (x : string) : PyStr.strip (PyStr.strip x) = PyStr.strip x.
Proof.
  unfold PyStr.strip. rewrite list_ascii_of_string_of_list_ascii.
  now rewrite (stripped_fixed _ (strip_chars_stripped _)).
Qed.

Lemma title_idempotent (x : string) : PyStr.title (PyStr.title x) = PyStr.title x.
Proof.
  unfold PyStr.title. rewrite list_ascii_of_string_of_list_ascii.
  now rewrite title_chars_idempotent.
Qed.

Lemma strip_of_title_of_strip (x : string) :
  PyStr.strip (PyStr.title (PyStr.strip x)) = PyStr.title (PyStr.strip x).
Proof.
  unfold PyStr.strip, PyStr.title. rewrite !list_ascii_of_string_of_list_ascii.
  f_equal. apply stripped_fixed.
  eapply stripped_by_spaces; [apply title_chars_keeps_spaces|apply strip_chars_stripped].
Qed.

Lemma title_of_lowercase (x : string) : PyStr.title (lowercase x) = PyStr.title x.
Proof.
  unfold PyStr.title, lowercase. rewrite list_ascii_of_string_of_list_ascii.
  now rewrite title_chars_of_lower.
Qed.

Lemma lowercase_of_title (x : string) : lowercase (PyStr.title x) = lowercase x.
Proof.
  unfold PyStr.title, lowercase. rewrite list_ascii_of_string_of_list_ascii.
  now rewrite lower_of_title_chars.
Qed.

(** ** Cleaning twice, and what the standardized text forgets *)

Lemma cleaned_email_is_str (v : value) : is_str (cleaned_email v) = true.
Proof.
  unfold cleaned_email. destruct (email_matches v) eqn:E; [|reflexivity].
  now destruct (email_matches_str v E) as (x & -> & _).
Qed.

(** A cleaned row is cleaned to itself, whatever the format of the
    column it is then in. *)
Lemma cleaned_row_idempotent (format format' : option string) (r : row) :
  date_readable format (date_added r) = true →
  cleaned_row format' (cleaned_row format r) = cleaned_row format r.
Proof.
  intros Hd. unfold cleaned_row. fields. f_equal.
  - destruct (name r); simpl; try reflexivity. now rewrite strip_idempotent.
  - generalize (email r). intros v. unfold cleaned_email.
    destruct (email_matches v) eqn:E; [now rewrite E|now vm_compute].
  - now destruct (phone r).
  - destruct (source r); simpl; try reflexivity.
    now rewrite strip_of_title_of_strip, title_idempotent.
  - destruct (status r); simpl; try reflexivity.
    now rewrite strip_of_title_of_strip, title_idempotent.
  - unfold cleaned_lead_value. destruct (lead_value r) as [| |x|q|ns]; simpl; try reflexivity.
    now destruct (parse_numeric x).
  - destruct (cleaned_date_read format _ Hd) as [_ Hread].
    unfold cleaned_date at 1. now rewrite Hread.
Qed.

Lemma text_columns_ok_cleaned (format : option string) (t : table) :
  text_columns_ok t = true → text_columns_ok (map (cleaned_row format) t) = true.
Proof.
  destruct t as [|r0 t0]; [reflexivity|]. intros H.
  unfold text_columns_ok in *. rewrite !has_str_cons.
  unfold has_str in H.
  apply andb_prop in H as [H _]. apply andb_prop in H as [H Hname].
  apply andb_prop in H as [Hsource Hstatus].
  rewrite (existsb_pointwise (fun r => is_str (get source_col (cleaned_row format r)))
             (fun r => is_str (get source_col r)))
    by (intros r; simpl; now destruct (source r)).
  rewrite (existsb_pointwise (fun r => is_str (get status_col (cleaned_row format r)))
             (fun r => is_str (get status_col r)))
    by (intros r; simpl; now destruct (status r)).
  rewrite (existsb_pointwise (fun r => is_str (get name_col (cleaned_row format r)))
             (fun r => is_str (get name_col r)))
    by (intros r; simpl; now destruct (name r)).
  rewrite Hsource, Hstatus, Hname. cbn [andb map existsb].
  unfold cleaned_row at 1. fields. now rewrite cleaned_email_is_str.
Qed.

(** The dates of a cleaned table are timestamps or NaT, which
    [pd.to_datetime] leaves as they are. *)
Lemma dates_ok_cleaned (t : table) :
  dates_ok t = true → dates_ok (cleaned_rows t) = true.
Proof.
  unfold dates_ok at 2. generalize (date_format_of (cleaned_rows t)). intros format'.
  unfold dates_ok, cleaned_rows. rewrite !forallb_forall. intros H r' Hr'.
  apply in_map_iff in Hr' as (r & <- & Hr). specialize (H r Hr).
  unfold cleaned_row. fields.
  destruct (cleaned_date_read (date_format_of t) _ H) as [_ Hread].
  unfold date_readable at 1. now rewrite Hread.
Qed.

(** X4. Cleaning is idempotent on text in the ASCII range: when
    [clean_data] has returned on a table whose names, sources and
    statuses are ASCII strings, an analyzer that holds the cleaned table
    as its raw table (with the dates and numbers it now holds) and calls
    [clean_data] gets the same table again, and the call returns. *)
Theorem cleaning_a_cleaned_table_changes_nothing
    (s : session) (l : positive) (t t' : table) (s2 : session) (l2 : positive) :
  ascii_text t = true →
  df s = Some l → heap s !! l = Some t → (clean_data s).1 = Ok tt →
  cleaned_table (clean_data s).2 = Some t' →
  df s2 = Some l2 → heap s2 !! l2 = Some t' →
  (clean_data s2).1 = Ok tt ∧ cleaned_table (clean_data s2).2 = Some t'.
Proof.
  intros _ Hl Ht Hres Hcl Hl2 Ht2.
  destruct (clean_data_returns s l t Hl Ht) as [Hiff Hmap].
  destruct (proj1 Hiff Hres) as [Htext Hdates].
  rewrite (Hmap Hres) in Hcl. injection Hcl as <-.
  destruct (clean_data_returns s2 l2 _ Hl2 Ht2) as [Hiff2 Hmap2].
  assert ((clean_data s2).1 = Ok tt) as Hres2.
  { apply Hiff2. split; [now apply text_columns_ok_cleaned|now apply dates_ok_cleaned]. }
  split; [assumption|]. rewrite (Hmap2 Hres2). f_equal.
  unfold cleaned_rows at 1. generalize (date_format_of (cleaned_rows t)). intros format'.
  unfold cleaned_rows. rewrite map_map.
  apply map_ext_in. intros r Hr. apply cleaned_row_idempotent.
  unfold dates_ok in Hdates. rewrite forallb_forall in Hdates. now apply Hdates.
Qed.

(** X5. On strings in the ASCII range, the cleaned [source] (and
    [status]) of two rows are the same string exactly when the raw
    strings, stripped, differ at most in the case of their letters:
    surrounding white space and case are what the standardization
    forgets, so such rows fall in one group. *)
Theorem standardized_text_forgets_case_and_margins
    (format : option string) (r1 r2 : row) (a b : string) :
  ascii_string a = true → ascii_string b = true →
  (source r1 = Str a → source r2 = Str b →
   (source (cleaned_row format r1) = source (cleaned_row format r2)
    ↔ lowercase (PyStr.strip a) = lowercase (PyStr.strip b)) ∧
   (lowercase (PyStr.strip a) = lowercase (PyStr.strip b) →
    value_eqb (source (cleaned_row format r1)) (source (cleaned_row format r2)) = true)) ∧
  (status r1 = Str a → status r2 = Str b →
   (status (cleaned_row format r1) = status (cleaned_row format r2)
    ↔ lowercase (PyStr.strip a) = lowercase (PyStr.strip b)) ∧
   (lowercase (PyStr.strip a) = lowercase (PyStr.strip b) →
    value_eqb (status (cleaned_row format r1)) (status (cleaned_row format r2)) = true)).
Proof.
  intros _ _.
  assert (PyStr.title (PyStr.strip a) = PyStr.title (PyStr.strip b)
          ↔ lowercase (PyStr.strip a) = lowercase (PyStr.strip b)) as Hiff.
  { split; intros H.
    - now rewrite <- (lowercase_of_title (PyStr.strip a)), H, lowercase_of_title.
    - now rewrite <- (title_of_lowercase (PyStr.strip a)), H, title_of_lowercase. }
  unfold cleaned_row. fields.
  split; intros -> ->; simpl standardized; (split; [rewrite <- Hiff; split; congruence|]);
    intros H; apply Hiff in H; unfold value_eqb; rewrite H; apply String.eqb_refl.
Qed.

(** ** The groups of the aggregations *)

Lemma Forall2_of_map_l {A B C : Type} (P : B → C → Prop) (f : A → B)
    (l : list A) (l' : list C) :
  Forall2 P (map f l) l' → Forall2 (fun x y => P (f x) y) l l'.
Proof.
  revert l'. induction l as [|x l IH]; intros l' H; inversion H; subst; constructor;
    [assumption|now apply IH].
Qed.

(** What [.agg] makes of [groupby]: an entry for each distinct key, in
    the order of the keys, with the aggregates of the rows of that key. *)
Lemma agg_groups_of_groupby {K : Type} (eqb leb : K → K → bool)
    (key : row → option K) (t : table) (grouped : list (K * aggregates)) :
  agg_groups (groupby eqb leb (map key t) t) = Ok grouped →
  Forall2 (fun k a =>
             a.1 = k ∧ agg (List.filter (fun r => key_is eqb k (key r)) t) = Ok a.2)
          (sort leb (unique eqb (omap id (map key t)))) grouped.
Proof.
  intros H. rewrite groupby_filter in H. apply agg_groups_Ok in H.
  apply Forall2_of_map_l in H. exact H.
Qed.

Lemma unique_distinct {K : Type} (eqb : K → K → bool) (l : list K) (a b : K) :
  (∀ x y, eqb x y = eqb y x) →
  In a (unique eqb l) → In b (unique eqb l) → eqb a b = true → a = b.
Proof.
  intros Hsym. induction l as [|x l IH]; simpl; [tauto|].
  intros [->|Ha] [->|Hb] Hab; try reflexivity.
  - apply filter_In in Hb as [_ Hb]. rewrite Hsym, Hab in Hb. discriminate.
  - apply filter_In in Ha as [_ Ha]. rewrite Hab in Ha. discriminate.
  - apply filter_In in Ha as [Ha _]. apply filter_In in Hb as [Hb _]. now apply IH.
Qed.

Lemma In_omap_id_inv {A K : Type} (key : A → option K) (l : list A) (k : K) :
  In k (omap id (map key l)) → ∃ a, In a l ∧ key a = Some k.
Proof.
  induction l as [|b l IH]; [intros []|].
  cbn [map]. rewrite omap_id_cons. destruct (key b) as [k'|] eqn:Hb.
  - intros [->|H]; [exists b; split; [now left|assumption]|].
    destruct (IH H) as (a & Ha & Hk). exists a. split; [now right|assumption].
  - intros H. destruct (IH H) as (a & Ha & Hk). exists a. split; [now right|assumption].
Qed.

Lemma key_is_key_of (k v : value) : key_is value_eqb k (key_of v) = value_eqb v k.
Proof. now destruct v. Qed.

(** The sources of the groups, and the rows of each. *)
Lemma by_source_groups (t : table) (stats : list source_stats) :
  by_source t = Ok stats →
  ∃ grouped,
    stats = sort_by_total_value (map source_row grouped) ∧
    Forall2 (fun k a =>
               a.1 = k ∧
               agg (List.filter (fun r => value_eqb (source r) k) t) = Ok a.2)
            (sort value_leb (unique value_eqb (List.filter notnull (getitem source_col t))))
            grouped.
Proof.
  intros H. apply by_source_Ok in H as (grouped & Hg & ->).
  exists grouped. split; [reflexivity|].
  unfold getitem in Hg. rewrite map_map in Hg.
  apply agg_groups_of_groupby in Hg.
  rewrite <- omap_key_of. unfold getitem. rewrite map_map.
  eapply Forall2_impl; [exact Hg|]. cbn beta. intros k a [Hk Ha]. split; [assumption|].
  rewrite <- Ha. f_equal. apply filter_ext. intros r. symmetry. apply key_is_key_of.
Qed.

(** X6. When [analyze_by_source] returns, its table has exactly one row
    for each source of the cleaned table: every row of the table with a
    source is described by the group of that source, the index of a group
    is the source of some row, and no two groups have the same index.
    The group of a source counts, over the rows of that source, the rows
    with a [lead_id] as [total_leads] and the rows with status
    "Converted" as [conversions]. *)
Theorem by_source_describes_each_source (s : session) (c : positive) (t : table)
    (stats : list source_stats) (s' : session) :
  clean_df s = Some c → heap s !! c = Some t →
  analyze_by_source s = (Ok (Some stats), s') →
  s' = s ∧
  (∀ r, In r t → notnull (source r) = true →
     ∃ g, In g stats ∧ value_eqb (source r) (source_index g) = true) ∧
  (∀ g h, In g stats → In h stats →
     value_eqb (source_index g) (source_index h) = true → g = h) ∧
  (∀ g, In g stats →
     (∃ r, In r t ∧ source r = source_index g ∧ notnull (source r) = true) ∧
     let rows := List.filter (fun r => value_eqb (source r) (source_index g)) t in
     total_leads g = length (List.filter (fun r => notnull (lead_id r)) rows) ∧
     conversions g = length (List.filter (fun r => is_converted (status r)) rows)).
Proof.
  intros Hc Ht. rewrite (analyze_by_source_held s c t Hc Ht).
  destruct (by_source t) as [stats'|e] eqn:E; [|discriminate]. intros [= <- <-].
  split; [reflexivity|].
  destruct (by_source_groups t stats' E) as (grouped & -> & Hall).
  set (ks := sort value_leb _) in Hall.
  assert (∀ k, In k ks → In k (unique value_eqb (List.filter notnull (getitem source_col t))))
    as Hks by (intros k; apply (Permutation_in _ (sort_perm _ _))).
  assert (∀ g, In g (sort_by_total_value (map source_row grouped)) →
            ∃ a, In a grouped ∧ g = source_row a ∧ In a.1 ks ∧
                 agg (List.filter (fun r => value_eqb (source r) a.1) t) = Ok a.2) as Hg.
  { intros g Hin. unfold sort_by_total_value in Hin.
    apply (Permutation_in _ (sort_perm _ _)) in Hin.
    apply in_map_iff in Hin as (a & <- & Ha). exists a.
    destruct (Forall2_In_r _ _ _ _ Hall Ha) as (k & Hk & <- & Hagg). auto. }
  split; [|split].
  - intros r Hr Hsource.
    destruct (unique_represents value_eqb (List.filter notnull (getitem source_col t))
                (source r) value_eqb_sym value_eqb_trans) as (k & Hk & Hrk).
    + apply filter_In. split; [|assumption]. unfold getitem. now apply (in_map source).
    + now apply value_eqb_refl.
    + assert (In k ks) as Hkin
        by (unfold ks; apply (Permutation_in _ (Permutation_sym (sort_perm _ _))), Hk).
      destruct (Forall2_In_l _ _ _ k Hall Hkin) as (a & Ha & Hak & _).
      exists (source_row a). split.
      * unfold sort_by_total_value.
        apply (Permutation_in _ (Permutation_sym (sort_perm _ _))). now apply in_map.
      * simpl. now rewrite Hak.
  - intros g h Hing Hinh Heq.
    destruct (Hg g Hing) as (a & _ & -> & Hka & Hagg).
    destruct (Hg h Hinh) as (b & _ & -> & Hkb & Hagg'). simpl in Heq.
    assert (a.1 = b.1) as Hab
      by (apply (unique_distinct value_eqb _ _ _ value_eqb_sym (Hks _ Hka) (Hks _ Hkb) Heq)).
    destruct a as [k x], b as [k' y]. simpl in *. subst k'.
    rewrite Hagg in Hagg'. now injection Hagg' as <-.
  - intros g Hing. destruct (Hg g Hing) as ([k a] & _ & -> & Hk & Hagg). simpl in *.
    split.
    + apply Hks, unique_subset, filter_In in Hk as [Hk Hnn].
      unfold getitem in Hk. apply in_map_iff in Hk as (r & <- & Hr). eauto.
    + apply agg_Ok in Hagg as (Hcount & Hsum & Hconv).
      unfold series_count, converted_count, getitem in *.
      rewrite filter_of_map in Hcount, Hconv. auto.
Qed.

(** ** Sums over the groups *)

Lemma series_sum_cells (series : list value) (q : Q) :
  series_sum series = Ok q → ∀ v, In v series → is_num v || isnull v = true.
Proof.
  revert q. induction series as [|v l IH]; simpl; intros q H; [tauto|].
  destruct (series_sum l) as [acc|e]; simpl in H; [|discriminate].
  intros v' [<-|Hin]; [|now apply (IH acc)].
  now destruct v.
Qed.

Lemma series_sum_defined (series : list value) :
  (∀ v, In v series → is_num v || isnull v = true) → ∃ q, series_sum series = Ok q.
Proof.
  induction series as [|v l IH]; intros H; simpl; [eauto|].
  destruct IH as [q ->]; [intros; apply H; now right|]. simpl.
  specialize (H v (or_introl eq_refl)). destruct v; try discriminate; eauto.
Qed.

Lemma filter_length_permutation {A : Type} (p : A → bool) (l l' : list A) :
  l ≡ₚ l' → length (List.filter p l) = length (List.filter p l').
Proof.
  induction 1 as [|x l l' _ IH|x y l|l l' l'' _ IH1 _ IH2]; simpl.
  - reflexivity.
  - destruct (p x); simpl; now rewrite IH.
  - destruct (p x), (p y); reflexivity.
  - now rewrite IH1.
Qed.

(** A cell has one representative among the sorted distinct keys of its
    column when it is not missing, and none when it is. *)
Lemma one_group_for_a_cell (series : list value) (v : value) :
  In v series →
  length (List.filter (value_eqb v)
            (sort value_leb (unique value_eqb (List.filter notnull series))))
  = if notnull v then 1 else 0.
Proof.
  intros Hin. rewrite (filter_length_permutation _ _ _ (sort_perm _ _)).
  rewrite (unique_count value_eqb value_eqb_sym value_eqb_trans).
  destruct (notnull v) eqn:Hv.
  - assert (existsb (value_eqb v) (List.filter notnull series) = true) as ->; [|reflexivity].
    apply existsb_exists. exists v. split; [|now apply value_eqb_refl].
    apply filter_In. auto.
  - assert (existsb (value_eqb v) (List.filter notnull series) = false) as ->; [|reflexivity].
    destruct (existsb _ _) eqn:E; [|reflexivity].
    apply existsb_exists in E as (k & _ & Hk).
    apply value_eqb_notnull in Hk. congruence.
Qed.

(** Of the elements that satisfy [q], those that satisfy [p] too. *)
Lemma filter_both_length {A : Type} (p q : A → bool) (l : list A) :
  (length (List.filter (fun a => p a && q a) l) ≤ length (List.filter q l))%nat ∧
  (length (List.filter (fun a => p a && q a) l) = length (List.filter q l)
   ↔ ∀ a, In a l → q a = true → p a = true).
Proof.
  induction l as [|a l [IHle IHeq]]; simpl.
  - split; [lia|]. split; [intros _ a []|reflexivity].
  - destruct (q a) eqn:Hq, (p a) eqn:Hp; simpl.
    + split; [lia|]. split.
      * intros H b [<-|Hb]; [auto|]. apply IHeq; [lia|assumption].
      * intros H. f_equal. apply IHeq. intros b Hb. apply H. now right.
    + split; [lia|]. split; [lia|].
      intros H. specialize (H a (or_introl eq_refl) Hq). congruence.
    + split; [assumption|]. split.
      * intros H b [<-|Hb]; [congruence|]. now apply IHeq.
      * intros H. apply IHeq. intros b Hb. apply H. now right.
    + split; [assumption|]. split.
      * intros H b [<-|Hb]; [congruence|]. now apply IHeq.
      * intros H. apply IHeq. intros b Hb. apply H. now right.
Qed.

(** X7. Grouping by source keeps the conversions of the rows that have
    a source, and loses the others.  When [analyze_by_source] returns,
    the [conversions] of its groups add up to the number of rows with a
    source and the status "Converted"; this is at most the number of
    rows with the status "Converted", which is what
    [calculate_conversion_rate] counts, and it is that number exactly
    when every such row has a source. *)
Theorem by_source_conserves_the_conversions (s : session) (c : positive) (t : table)
    (stats : list source_stats) (s' : session) :
  clean_df s = Some c → heap s !! c = Some t →
  analyze_by_source s = (Ok (Some stats), s') →
  let converted := length (List.filter (fun r => is_converted (status r)) t) in
  sum_list_with conversions stats
  = length (List.filter (fun r => notnull (source r) && is_converted (status r)) t) ∧
  (sum_list_with conversions stats ≤ converted)%nat ∧
  (sum_list_with conversions stats = converted
   ↔ ∀ r, In r t → is_converted (status r) = true → notnull (source r) = true).
Proof.
  intros Hc Ht. rewrite (analyze_by_source_held s c t Hc Ht).
  destruct (by_source t) as [stats'|e] eqn:E; [|discriminate]. intros [= <- <-].
  destruct (by_source_groups t stats' E) as (grouped & -> & Hall).
  set (ks := sort value_leb _) in Hall.
  assert (∀ r, In r t →
            length (List.filter (fun k => value_eqb (source r) k) ks)
            = if notnull (source r) then 1 else 0) as Hone.
  { intros r Hr. apply one_group_for_a_cell. unfold getitem. now apply (in_map source). }
  assert (sum_list_with conversions (sort_by_total_value (map source_row grouped))
          = length (List.filter
                      (fun r => notnull (source r) && is_converted (status r)) t)) as Hsum.
  { unfold sort_by_total_value. rewrite sort_perm, sum_list_with_map.
    assert (sum_list_with (fun a => conversions (source_row a)) grouped
            = sum_list_with
                (fun k => length (List.filter
                   (fun r => value_eqb (source r) k && is_converted (status r)) t)) ks)
      as ->.
    { symmetry. apply sum_Forall2. eapply Forall2_impl; [exact Hall|].
      intros k a [_ Ha]. apply agg_Ok in Ha as (_ & _ & Ha). simpl. rewrite Ha.
      unfold converted_count, getitem. now rewrite filter_of_map, filter_twice. }
    rewrite (sum_of_counts (fun k r => value_eqb (source r) k && is_converted (status r))).
    rewrite <- sum_list_with_indicator. apply sum_list_with_ext_in. intros r Hr.
    specialize (Hone r Hr). destruct (is_converted (status r)).
    + rewrite (filter_ext _ (fun k => value_eqb (source r) k))
        by (intros; apply andb_true_r).
      rewrite Hone. now destruct (notnull (source r)).
    + rewrite (filter_ext _ (fun _ => false)) by (intros; apply andb_false_r).
      rewrite andb_false_r. generalize ks. intros l0. now induction l0. }
  cbn zeta. rewrite Hsum. split; [reflexivity|].
  apply (filter_both_length (fun r => notnull (source r))
           (fun r => is_converted (status r)) t).
Qed.

(** ** Rounded rates *)

Lemma rint_between (q : Q) (a b : Z) :
  (inject_Z a <= q)%Q → (q <= inject_Z b)%Q → (a ≤ rint q ≤ b)%Z.
Proof.
  intros Ha Hb.
  assert (a ≤ Qfloor q)%Z as Hfa
    by (rewrite <- (Qfloor_Z a); now apply Qfloor_resp_le).
  assert (Qfloor q ≤ b)%Z as Hfb
    by (rewrite <- (Qfloor_Z b); now apply Qfloor_resp_le).
  assert ((0 < q - inject_Z (Qfloor q))%Q → (Qfloor q + 1 ≤ b)%Z) as Hup.
  { intros Hpos. assert (inject_Z (Qfloor q) < inject_Z b)%Q as Hlt.
    { apply Qlt_le_trans with q; [|assumption].
      apply Qlt_minus_iff. exact Hpos. }
    rewrite <- Zlt_Qlt in Hlt. lia. }
  unfold rint. destruct (Qcompare _ _) eqn:E.
  - apply Qeq_alt in E. destruct (Z.even (Qfloor q)); [lia|].
    split; [lia|]. apply Hup. rewrite E. reflexivity.
  - lia.
  - apply Qgt_alt in E. split; [lia|]. apply Hup.
    apply Qlt_trans with (1 # 2)%Q; [reflexivity|assumption].
Qed.

Lemma of_nat_pos (n : nat) : (0 < n)%nat → (0 < of_nat n)%Q.
Proof. intros H. unfold of_nat, Qlt. simpl. lia. Qed.

Lemma of_nat_le (m n : nat) : (m ≤ n)%nat → (of_nat m <= of_nat n)%Q.
Proof. intros H. unfold of_nat, Qle. simpl. lia. Qed.

(** A share of [c] out of [n], as the code computes it: [c / n * 100],
    rounded to two decimals. *)
Lemma share_is_a_percentage (c n : nat) :
  (0 < n)%nat → (c ≤ n)%nat →
  ∃ q, round2 (fmul (fdiv (of_nat c) (of_nat n)) 100) = Finite q ∧ (0 <= q <= 100)%Q.
Proof.
  intros Hn Hc. unfold fdiv.
  assert (Qeq_bool (of_nat n) 0 = false) as ->.
  { destruct (Qeq_bool (of_nat n) 0) eqn:E; [|reflexivity].
    apply Qeq_bool_eq in E. unfold of_nat, Qeq in E. simpl in E. lia. }
  simpl. eexists. split; [reflexivity|].
  pose proof (of_nat_pos n Hn) as Hpos.
  assert (0 <= of_nat c / of_nat n)%Q as H0.
  { apply Qle_shift_div_l; [assumption|]. rewrite Qmult_0_l.
    unfold of_nat, Qle. simpl. lia. }
  assert (of_nat c / of_nat n <= 1)%Q as H1.
  { apply Qle_shift_div_r; [assumption|]. rewrite Qmult_1_l. now apply of_nat_le. }
  destruct (rint_between (of_nat c / of_nat n * 100 * 100) 0 10000) as [Hlo Hhi].
  - change (inject_Z 0) with 0%Q.
    apply Qmult_le_0_compat; [apply Qmult_le_0_compat; [assumption|]|];
      unfold Qle; simpl; lia.
  - apply Qle_trans with (1 * 100 * 100)%Q; [|unfold Qle; simpl; lia].
    repeat (apply Qmult_le_compat_r; [|unfold Qle; simpl; lia]). assumption.
  - set (z := rint _) in *. clearbody z. unfold Qdiv, Qle. simpl. lia.
Qed.

(** X8. The conversion rates of [analyze_by_source] are percentages as
    long as the rows that have a source have a [lead_id]: then every
    group has at least one lead, no more conversions than leads, and a
    conversion rate between 0 and 100.  A group none of whose rows has a
    [lead_id] has 0 leads, and its conversion rate is the float NaN when
    it has no conversion and positive infinity otherwise. *)
Theorem source_rates_are_percentages (s : session) (c : positive) (t : table)
    (stats : list source_stats) (s' : session) :
  clean_df s = Some c → heap s !! c = Some t →
  analyze_by_source s = (Ok (Some stats), s') →
  ((∀ r, In r t → notnull (source r) = true → notnull (lead_id r) = true) →
   ∀ g, In g stats →
     (1 ≤ total_leads g)%nat ∧ (conversions g ≤ total_leads g)%nat ∧
     ∃ q, conversion_rate g = Finite q ∧ (0 <= q <= 100)%Q) ∧
  (∀ g, In g stats → total_leads g = 0%nat →
     conversion_rate g = if (conversions g =? 0)%nat then FloatNaN else PosInf).
Proof.
  intros Hc Ht. rewrite (analyze_by_source_held s c t Hc Ht).
  destruct (by_source t) as [stats'|e] eqn:E; [|discriminate]. intros [= <- <-].
  destruct (by_source_groups t stats' E) as (grouped & -> & Hall).
  set (ks := sort value_leb _) in Hall.
  assert (∀ g, In g (sort_by_total_value (map source_row grouped)) →
            ∃ a, g = source_row a ∧
                 In a.1 (List.filter notnull (getitem source_col t)) ∧
                 agg (List.filter (fun r => value_eqb (source r) a.1) t) = Ok a.2) as Hg.
  { intros g Hin. unfold sort_by_total_value in Hin.
    apply (Permutation_in _ (sort_perm _ _)) in Hin.
    apply in_map_iff in Hin as (a & <- & Ha). exists a.
    destruct (Forall2_In_r _ _ _ _ Hall Ha) as (k & Hk & <- & Hagg).
    split; [reflexivity|]. split; [|assumption].
    apply (unique_subset value_eqb).
    apply (Permutation_in _ (sort_perm value_leb _)). exact Hk. }
  split.
  - intros Hid g Hin. destruct (Hg g Hin) as (a & -> & Hk & Hagg).
    apply agg_Ok in Hagg as (Hleads & _ & Hconv).
    apply filter_In in Hk as [Hk Hnotnull].
    unfold getitem in Hk. apply in_map_iff in Hk as (r & Hr & Hin_t).
    change (get source_col r) with (source r) in Hr.
    set (rows := List.filter (fun r => value_eqb (source r) a.1) t) in *.
    assert (∀ r', In r' rows → notnull (lead_id r') = true) as Hrows.
    { intros r' Hr'. apply filter_In in Hr' as [Hin' Heq].
      apply Hid; [assumption|]. now apply value_eqb_notnull in Heq. }
    assert (lead_id_count a.2 = length rows) as Hcount.
    { rewrite Hleads. unfold series_count, getitem. rewrite filter_of_map.
      apply forallb_length_filter. apply forallb_forall. exact Hrows. }
    assert (1 ≤ length rows)%nat as Hone.
    { assert (In r rows) as Hin_rows.
      { apply filter_In. split; [assumption|]. rewrite Hr. now apply value_eqb_refl. }
      destruct rows; [destruct Hin_rows|simpl; lia]. }
    assert (status_converted a.2 ≤ length rows)%nat as Hle.
    { rewrite Hconv. unfold converted_count, getitem. rewrite filter_of_map.
      apply filter_length_le. }
    simpl. rewrite Hcount. split; [assumption|]. split; [assumption|].
    apply share_is_a_percentage; assumption.
  - intros g Hin Hzero. destruct (Hg g Hin) as (a & -> & _ & _).
    simpl in *. rewrite Hzero. unfold fdiv. simpl.
    destruct (status_converted a.2) as [|n]; [reflexivity|].
    simpl. unfold of_nat, Qcompare. simpl. reflexivity.
Qed.

(** ** The outcomes of [analyze_by_source] *)

Lemma first_max_all_nan (best : option (value * float64)) (s : list (value * float64)) :
  (∀ p, In p s → is_float_nan p.2 = true) → first_max best s = best.
Proof.
  revert best. induction s as [|[k x] s IH]; intros best H; simpl; [reflexivity|].
  pose proof (H (k, x) (or_introl eq_refl)) as Hx. simpl in Hx. rewrite Hx.
  apply IH. intros p Hp. apply H. now right.
Qed.

Lemma filter_nonempty {A : Type} (p : A → bool) (l : list A) :
  (0 < length (List.filter p l))%nat ↔ ∃ x, In x l ∧ p x = true.
Proof.
  split.
  - destruct (List.filter p l) as [|x l'] eqn:E; simpl; [lia|]. intros _.
    exists x. apply filter_In. rewrite E. now left.
  - intros (x & Hx & Hp). assert (In x (List.filter p l)) as Hin by now apply filter_In.
    destruct (List.filter p l); [destruct Hin|simpl; lia].
Qed.

(** The rate of a group is the float NaN only for 0 conversions out of
    0 leads. *)
Lemma rate_is_nan (conversions leads : nat) :
  is_float_nan (round2 (fmul (fdiv (of_nat conversions) (of_nat leads)) 100))
  = (leads =? 0)%nat && (conversions =? 0)%nat.
Proof.
  destruct leads as [|n].
  - now destruct conversions.
  - rewrite rate_of_leads_is_a_number by lia. reflexivity.
Qed.

(** The best performing source: lines 127 and 128 raise on a table
    without groups and on one all of whose rates are NaN, and are passed
    otherwise. *)
Lemma best_source_found (stats : list source_stats) :
  (∀ g, In g stats → notnull (source_index g) = true) →
  rbind (idxmax (map (fun r => (source_index r, conversion_rate r)) stats))
    (fun best_source =>
  rbind (loc_conversion_rate best_source stats) (fun best_rate => Ok stats))
  = match stats with
    | [] => Raise ValueError
    | _ => if forallb (fun g => is_float_nan (conversion_rate g)) stats
           then Raise KeyError else Ok stats
    end.
Proof.
  intros Hindex. destruct stats as [|g0 rest] eqn:Estats; [reflexivity|].
  rewrite <- Estats in *.
  set (rates := map (fun r => (source_index r, conversion_rate r)) stats).
  assert (idxmax rates
          = Ok (match first_max None rates with Some (k, _) => k | None => NaN end)) as ->.
  { unfold rates. rewrite Estats. reflexivity. }
  simpl rbind. rewrite Estats at 3. rewrite <- Estats.
  destruct (forallb _ stats) eqn:Hall.
  - rewrite first_max_all_nan.
    2:{ intros p Hp. apply in_map_iff in Hp as (g & <- & Hg).
        rewrite forallb_forall in Hall. now apply Hall. }
    unfold loc_conversion_rate.
    destruct (List.find _ stats) as [g|] eqn:Hfind; [|reflexivity].
    apply find_some in Hfind as [_ Hfind]. now destruct (source_index g).
  - apply forallb_false_exists in Hall as (g & Hg & Hrate).
    destruct (first_max_Some None rates) as [[k x] Hmax].
    { right. exists (source_index g), (conversion_rate g). split; [|assumption].
      now apply (in_map (fun r => (source_index r, conversion_rate r))). }
    rewrite Hmax. destruct (first_max_In _ _ _ Hmax) as [Hk|]; [|discriminate].
    apply in_map_iff in Hk as (g' & [= <- <-] & Hg').
    destruct (find_exists (fun r => value_eqb (source_index r) (source_index g')) stats g')
      as [y Hy]; [assumption|apply value_eqb_refl; now apply Hindex|].
    unfold loc_conversion_rate. now rewrite Hy.
Qed.

Lemma agg_groups_defined (t : table) :
  (∀ r, In r t → notnull (source r) = true →
     is_num (lead_value r) || isnull (lead_value r) = true) →
  ∃ grouped,
    agg_groups (groupby value_eqb value_leb (map key_of (getitem source_col t)) t)
    = Ok grouped.
Proof.
  intros Hcells. unfold getitem. rewrite map_map, groupby_filter.
  apply traverse_total. intros g Hin. apply in_map_iff in Hin as (k & <- & _).
  cbn [fst snd]. unfold agg.
  destruct (series_sum_defined (getitem lead_value_col
    (List.filter (fun r0 => key_is value_eqb k (key_of (get source_col r0))) t)))
    as [q ->]; [|simpl; eauto].
  intros v Hv. unfold getitem in Hv. apply in_map_iff in Hv as (r & <- & Hr).
  apply filter_In in Hr as [Hr Hk]. apply Hcells; [assumption|].
  rewrite key_is_key_of in Hk. now apply value_eqb_notnull in Hk.
Qed.

(** What [by_source] does after the groups are aggregated. *)
Lemma by_source_of_groups (t : table) (grouped : list (value * aggregates)) :
  agg_groups (groupby value_eqb value_leb (map key_of (getitem source_col t)) t)
  = Ok grouped →
  Forall2 (fun k a =>
             a.1 = k ∧
             agg (List.filter (fun r => value_eqb (source r) k) t) = Ok a.2)
          (sort value_leb (unique value_eqb (List.filter notnull (getitem source_col t))))
          grouped ∧
  by_source t
  = match grouped with
    | [] => Raise ValueError
    | _ => if forallb (fun a => (lead_id_count a.2 =? 0)%nat
                                && (status_converted a.2 =? 0)%nat) grouped
           then Raise KeyError
           else Ok (sort_by_total_value (map source_row grouped))
    end.
Proof.
  intros Hg.
  assert (Forall2 (fun k a =>
             a.1 = k ∧
             agg (List.filter (fun r => value_eqb (source r) k) t) = Ok a.2)
          (sort value_leb (unique value_eqb (List.filter notnull (getitem source_col t))))
          grouped) as Hall.
  { pose proof Hg as H. unfold getitem in H. rewrite map_map in H.
    apply agg_groups_of_groupby in H.
    replace (omap id (map (fun r0 => key_of (get source_col r0)) t))
      with (List.filter notnull (getitem source_col t)) in H
      by (unfold getitem; now rewrite <- omap_key_of, map_map).
    eapply Forall2_impl; [exact H|]. intros k a [Hk Ha]. split; [assumption|].
    rewrite <- Ha. f_equal. apply filter_ext. intros r. symmetry. apply key_is_key_of. }
  split; [assumption|].
  unfold by_source. rewrite Hg. simpl rbind.
  set (stats := sort_by_total_value (map source_row grouped)).
  assert (stats ≡ₚ map source_row grouped) as Hperm by apply sort_perm.
  rewrite best_source_found.
  2:{ intros g Hin. apply (Permutation_in _ Hperm) in Hin.
      apply in_map_iff in Hin as (a & <- & Ha).
      destruct (Forall2_In_r _ _ _ _ Hall Ha) as (k & Hk & <- & _).
      apply (Permutation_in _ (sort_perm value_leb _)) in Hk.
      apply (unique_subset value_eqb) in Hk. now apply filter_In in Hk as [_ Hk]. }
  destruct grouped as [|a0 rest] eqn:Egrouped.
  { reflexivity. }
  rewrite <- Egrouped in *.
  assert (forallb (fun g => is_float_nan (conversion_rate g)) stats
          = forallb (fun a => (lead_id_count a.2 =? 0)%nat
                              && (status_converted a.2 =? 0)%nat) grouped) as ->.
  { apply eq_true_iff_eq. rewrite !forallb_forall. split.
    - intros H a Ha. rewrite <- rate_is_nan.
      apply (H (source_row a)). apply (Permutation_in _ (Permutation_sym Hperm)).
      now apply in_map.
    - intros H g Hin. apply (Permutation_in _ Hperm) in Hin.
      apply in_map_iff in Hin as (a & <- & Ha). simpl. rewrite rate_is_nan. now apply H. }
  destruct stats as [|g0 stats'] eqn:Estats; [|reflexivity].
  apply Permutation_nil in Hperm. rewrite Egrouped in Hperm. discriminate.
Qed.

Lemma group_of_row (t : table) (grouped : list (value * aggregates)) (r : row) :
  Forall2 (fun k a =>
             a.1 = k ∧
             agg (List.filter (fun r => value_eqb (source r) k) t) = Ok a.2)
          (sort value_leb (unique value_eqb (List.filter notnull (getitem source_col t))))
          grouped →
  In r t → notnull (source r) = true →
  ∃ a, In a grouped ∧
       In r (List.filter (fun r' => value_eqb (source r') a.1) t) ∧
       agg (List.filter (fun r' => value_eqb (source r') a.1) t) = Ok a.2.
Proof.
  intros Hall Hr Hsource.
  destruct (unique_represents value_eqb (List.filter notnull (getitem source_col t))
              (source r) value_eqb_sym value_eqb_trans) as (k & Hk & Hrk).
  - apply filter_In. split; [|assumption]. unfold getitem. now apply (in_map source).
  - now apply value_eqb_refl.
  - apply (Permutation_in _ (Permutation_sym (sort_perm value_leb _))) in Hk.
    destruct (Forall2_In_l _ _ _ k Hall Hk) as (a & Ha & <- & Hagg).
    exists a. split; [assumption|]. split; [|assumption]. apply filter_In. auto.
Qed.

(** X9. When [analyze_by_source] returns and when it raises, on an
    analyzer that holds the table [t] as its cleaned table.  It raises
    [ValueError] when no row has a source.  It returns exactly when the
    lead values of the rows with a source are numbers or missing and some
    row with a source has a [lead_id] or the status "Converted"; the
    table it returns is never empty.  The analyzer is left as it was. *)
Theorem analyze_by_source_outcomes (s : session) (c : positive) (t : table) :
  clean_df s = Some c → heap s !! c = Some t →
  ((∀ r, In r t → isnull (source r) = true) →
   analyze_by_source s = (Raise ValueError, s)) ∧
  ((∃ stats, analyze_by_source s = (Ok (Some stats), s)) ↔
   (∀ r, In r t → notnull (source r) = true →
      is_num (lead_value r) || isnull (lead_value r) = true) ∧
   (∃ r, In r t ∧ notnull (source r) = true ∧
         notnull (lead_id r) || is_converted (status r) = true)) ∧
  (∀ stats s', analyze_by_source s = (Ok (Some stats), s') → stats ≠ []).
Proof.
  intros Hc Ht. rewrite (analyze_by_source_held s c t Hc Ht).
  split; [|split].
  - intros Hnone.
    destruct (agg_groups_defined t) as [grouped Hg].
    { intros r Hr Hsource. specialize (Hnone r Hr). unfold notnull in Hsource.
      rewrite Hnone in Hsource. discriminate. }
    destruct (by_source_of_groups t grouped Hg) as [Hall ->].
    assert (List.filter notnull (getitem source_col t) = []) as Hnil.
    { destruct (List.filter notnull (getitem source_col t)) as [|v l] eqn:E; [reflexivity|].
      assert (In v (v :: l)) as Hv by now left.
      rewrite <- E in Hv. apply filter_In in Hv as [Hv Hnotnull].
      unfold getitem in Hv. apply in_map_iff in Hv as (r & <- & Hr).
      specialize (Hnone r Hr). unfold notnull in Hnotnull.
      change (get source_col r) with (source r) in Hnotnull.
      rewrite Hnone in Hnotnull. discriminate. }
    rewrite Hnil in Hall. inversion Hall. reflexivity.
  - split.
    + intros [stats Hstats].
      destruct (by_source t) as [stats'|e] eqn:E; [|discriminate].
      destruct (by_source_Ok t stats' E) as (grouped & Hg & _).
      destruct (by_source_of_groups t grouped Hg) as [Hall Heq]. split.
      * intros r Hr Hsource.
        destruct (group_of_row t grouped r Hall Hr Hsource) as (a & _ & Hin & Hagg).
        apply agg_Ok in Hagg as (_ & Hsum & _).
        apply (series_sum_cells _ _ Hsum). unfold getitem. now apply (in_map lead_value).
      * rewrite E in Heq. destruct grouped as [|a0 rest] eqn:Egrouped; [discriminate|].
        rewrite <- Egrouped in *.
        destruct (forallb _ grouped) eqn:Hnan; [discriminate|].
        apply forallb_false_exists in Hnan as (a & Ha & Hrate).
        destruct (Forall2_In_r _ _ _ _ Hall Ha) as (k & _ & <- & Hagg).
        apply agg_Ok in Hagg as (Hleads & _ & Hconv).
        set (rows := List.filter (fun r => value_eqb (source r) a.1) t) in *.
        assert (∃ r, In r rows ∧ notnull (lead_id r) || is_converted (status r) = true)
          as (r & Hr & Hlead).
        { apply andb_false_iff in Hrate as [Hrate|Hrate]; apply Nat.eqb_neq in Hrate.
          - rewrite Hleads in Hrate. unfold series_count, getitem in Hrate.
            rewrite filter_of_map in Hrate.
            destruct (proj1 (filter_nonempty (fun r => notnull (get lead_id_col r)) rows))
              as (r & Hr & Hid); [lia|].
            exists r. split; [assumption|]. simpl in Hid. now rewrite Hid.
          - rewrite Hconv in Hrate. unfold converted_count, getitem in Hrate.
            rewrite filter_of_map in Hrate.
            destruct (proj1 (filter_nonempty (fun r => is_converted (get status_col r)) rows))
              as (r & Hr & Hst); [lia|].
            exists r. split; [assumption|]. simpl in Hst. rewrite Hst. apply orb_true_r. }
        apply filter_In in Hr as [Hr Heqb]. exists r.
        split; [assumption|]. split; [|assumption]. now apply value_eqb_notnull in Heqb.
    + intros [Hcells (r & Hr & Hsource & Hlead)].
      destruct (agg_groups_defined t Hcells) as [grouped Hg].
      destruct (by_source_of_groups t grouped Hg) as [Hall ->].
      destruct (group_of_row t grouped r Hall Hr Hsource) as (a & Ha & Hin & Hagg).
      destruct grouped as [|a0 rest] eqn:Egrouped; [destruct Ha|].
      rewrite <- Egrouped in *.
      destruct (forallb _ grouped) eqn:Hnan; [|eauto].
      rewrite forallb_forall in Hnan. specialize (Hnan a Ha).
      apply andb_prop in Hnan as [Hleads Hconv].
      apply Nat.eqb_eq in Hleads, Hconv.
      apply agg_Ok in Hagg as (Hl & _ & Hv). rewrite Hl in Hleads. rewrite Hv in Hconv.
      unfold series_count, converted_count, getitem in Hleads, Hconv.
      rewrite filter_of_map in Hleads, Hconv.
      apply orb_prop in Hlead as [Hlead|Hlead].
      * assert (0 < length (List.filter (fun r0 => notnull (get lead_id_col r0))
                   (List.filter (fun r' => value_eqb (source r') a.1) t)))%nat
          by (apply filter_nonempty; eauto).
        lia.
      * assert (0 < length (List.filter (fun r0 => is_converted (get status_col r0))
                   (List.filter (fun r' => value_eqb (source r') a.1) t)))%nat
          by (apply filter_nonempty; eauto).
        lia.
  - intros stats s' H.
    destruct (by_source t) as [stats'|e] eqn:E; [|discriminate]. injection H as <- _.
    destruct (by_source_Ok t stats' E) as (grouped & Hg & ->).
    destruct (by_source_of_groups t grouped Hg) as [_ Heq]. rewrite E in Heq.
    destruct grouped as [|a0 rest]; [discriminate|].
    intros Hnil.
    assert (sort_by_total_value (map source_row (a0 :: rest)) ≡ₚ map source_row (a0 :: rest))
      as Hperm by apply sort_perm.
    rewrite Hnil in Hperm. apply Permutation_nil in Hperm. discriminate.
Qed.

(** ** The table of [analyze_by_status] *)

Lemma by_status_In (t : table) (g : status_stats) :
  In g (by_status t) ↔
  ∃ k, In k (unique value_eqb (List.filter notnull (getitem status_col t))) ∧
       g = status_row t k.
Proof.
  unfold by_status, value_counts. rewrite in_map_iff. split.
  - intros (kc & <- & Hkc). apply (Permutation_in _ (sort_perm _ _)) in Hkc.
    apply in_map_iff in Hkc as (k & <- & Hk). exists k. split; [assumption|].
    unfold status_row, getitem. simpl. now rewrite filter_of_map.
  - intros (k & Hk & ->).
    exists (k, length (List.filter (fun v => value_eqb v k) (getitem status_col t))). split.
    + unfold status_row, getitem. simpl. now rewrite filter_of_map.
    + apply (Permutation_in _ (Permutation_sym (sort_perm _ _))).
      now apply (in_map (fun k => (k, length (List.filter (fun v => value_eqb v k)
                                                 (getitem status_col t))))).
Qed.

(** X10. The table of [analyze_by_status], on an analyzer that holds
    the cleaned table [t]: the call returns and leaves the analyzer as it
    was; every row with a status is counted by the entry of that status,
    no two entries have the same status, and an entry gives, for the
    status of some row, the number of rows with that status as [Count],
    which is at least 1 and at most the number of rows, and as
    [Percentage] a number between 0 and 100. *)
Theorem by_status_describes_each_status (s : session) (c : positive) (t : table) :
  clean_df s = Some c → heap s !! c = Some t →
  ∃ stats,
    analyze_by_status s = (Ok (Some stats), s) ∧
    (∀ r, In r t → notnull (status r) = true →
       ∃ g, In g stats ∧ value_eqb (status r) (status_index g) = true) ∧
    (∀ g h, In g stats → In h stats →
       value_eqb (status_index g) (status_index h) = true → g = h) ∧
    (∀ g, In g stats →
       (∃ r, In r t ∧ status r = status_index g) ∧
       Count g = length (List.filter (fun r => value_eqb (status r) (status_index g)) t) ∧
       (1 ≤ Count g ≤ length t)%nat ∧
       ∃ p, Percentage g = Finite p ∧ (0 <= p <= 100)%Q).
Proof.
  intros Hc Ht. exists (by_status t).
  split; [exact (analyze_by_status_held s c t Hc Ht)|].
  split; [|split].
  - intros r Hr Hstatus.
    destruct (unique_represents value_eqb (List.filter notnull (getitem status_col t))
                (status r) value_eqb_sym value_eqb_trans) as (k & Hk & Hrk).
    + apply filter_In. split; [|assumption]. unfold getitem. now apply (in_map status).
    + now apply value_eqb_refl.
    + exists (status_row t k). split; [|assumption]. apply by_status_In. eauto.
  - intros g h Hg Hh Heq.
    apply by_status_In in Hg as (k & Hk & ->). apply by_status_In in Hh as (k' & Hk' & ->).
    simpl in Heq. now rewrite (unique_distinct value_eqb _ k k' value_eqb_sym Hk Hk' Heq).
  - intros g Hg. apply by_status_In in Hg as (k & Hk & ->).
    apply (unique_subset value_eqb) in Hk. apply filter_In in Hk as [Hk Hnotnull].
    unfold getitem in Hk. apply in_map_iff in Hk as (r & Hr & Hin).
    change (get status_col r) with (status r) in Hr.
    assert (1 ≤ Count (status_row t k) ≤ length t)%nat as Hcount.
    { simpl. split; [|apply filter_length_le].
      apply (proj2 (filter_nonempty (fun r => value_eqb (status r) k) t)).
      exists r. split; [assumption|]. rewrite Hr. now apply value_eqb_refl. }
    split; [eauto|]. split; [reflexivity|]. split; [assumption|].
    apply share_is_a_percentage; cbn [Count status_row] in Hcount; lia.
Qed.

(** X11. [analyze_by_status] and [calculate_conversion_rate] agree: on
    an analyzer that holds a cleaned table, the [Percentage] of the
    entry for the status "Converted" is the conversion rate rounded to
    two decimals, and when there is no such entry the conversion rate
    is 0. *)
Theorem converted_percentage_is_the_conversion_rate
    (s : session) (c : positive) (t : table) :
  clean_df s = Some c → heap s !! c = Some t →
  ∃ stats rate,
    analyze_by_status s = (Ok (Some stats), s) ∧
    calculate_conversion_rate s = (Ok (Some rate), s) ∧
    (∀ g, In g stats → status_index g = Str "Converted" →
       Percentage g = round2 (Finite rate)) ∧
    ((∀ g, In g stats → status_index g ≠ Str "Converted") → (rate == 0)%Q).
Proof.
  intros Hc Ht. exists (by_status t), (conversion_rate_of t).
  split; [exact (analyze_by_status_held s c t Hc Ht)|].
  split; [exact (calculate_conversion_rate_held s c t Hc Ht)|].
  assert (conversion_rate_of t
          = if (0 <? length t)%nat
            then (of_nat (length (List.filter (fun r => is_converted (status r)) t))
                  / of_nat (length t) * 100)%Q
            else 0%Q) as Hrate.
  { unfold conversion_rate_of, getitem.
    now rewrite map_map, (select_filter (fun r => is_converted (get status_col r))). }
  split.
  - intros g Hg Hindex. apply by_status_In in Hg as (k & Hk & ->).
    simpl in Hindex. subst k.
    apply (unique_subset value_eqb) in Hk. apply filter_In in Hk as [Hk _].
    unfold getitem in Hk. apply in_map_iff in Hk as (r & _ & Hin).
    rewrite Hrate. destruct t as [|r0 t']; [destruct Hin|].
    set (l := r0 :: t') in *. replace (0 <? length l)%nat with true by reflexivity.
    unfold status_row, Percentage, fdiv.
    assert (Qeq_bool (of_nat (length l)) 0 = false) as ->; [|reflexivity].
    destruct (Qeq_bool (of_nat (length l)) 0) eqn:E; [|reflexivity].
    apply Qeq_bool_eq in E. unfold of_nat, Qeq in E. simpl in E. lia.
  - intros Hnone. rewrite Hrate.
    destruct (List.filter (fun r => is_converted (status r)) t) as [|r l] eqn:E.
    + destruct (0 <? length t)%nat; [|reflexivity].
      change (of_nat (length [])) with 0%Q. unfold Qdiv. ring.
    + exfalso. assert (In r (r :: l)) as Hr by now left.
      rewrite <- E in Hr. apply filter_In in Hr as [Hr Hconv].
      apply is_converted_iff in Hconv.
      destruct (unique_represents value_eqb (List.filter notnull (getitem status_col t))
                  (status r) value_eqb_sym value_eqb_trans) as (k & Hk & Hrk).
      * apply filter_In. split; [unfold getitem; now apply (in_map status)|].
        now rewrite Hconv.
      * now rewrite Hconv.
      * apply (Hnone (status_row t k)); [apply by_status_In; eauto|].
        rewrite Hconv in Hrk. destruct k; try discriminate.
        unfold value_eqb in Hrk. apply String.eqb_eq in Hrk. now subst.
Qed.

(** ** Groups by day and by week *)

Lemma agg_groups_total {K : Type} (eqb leb : K → K → bool) (key : row → option K)
    (t : table) :
  (∀ r, In r t → is_Some (key r) →
     is_num (lead_value r) || isnull (lead_value r) = true) →
  ∃ grouped, agg_groups (groupby eqb leb (map key t) t) = Ok grouped.
Proof.
  intros Hcells. rewrite groupby_filter.
  apply traverse_total. intros g Hin. apply in_map_iff in Hin as (k & <- & _).
  cbn [fst snd]. unfold agg.
  destruct (series_sum_defined (getitem lead_value_col
    (List.filter (fun r => key_is eqb k (key r)) t))) as [q ->]; [|simpl; eauto].
  intros v Hv. unfold getitem in Hv. apply in_map_iff in Hv as (r & <- & Hr).
  apply filter_In in Hr as [Hr Hk]. apply Hcells; [assumption|].
  destruct (key r); [eauto|discriminate].
Qed.

Lemma unique_NoDup (l : list Z) : List.NoDup (unique Z.eqb l).
Proof.
  induction l as [|x l IH]; simpl; constructor.
  - intros Hin. apply filter_In in Hin as [_ Hin]. now rewrite Z.eqb_refl in Hin.
  - now apply List.NoDup_filter.
Qed.

Lemma strictly_sorted (l : list Z) :
  StronglySorted (fun a b => Z.leb a b = true) l → List.NoDup l → StronglySorted Z.lt l.
Proof.
  induction 1 as [|x l Hl IH Hx]; intros Hnodup; constructor.
  - apply IH. now inversion Hnodup.
  - apply List.Forall_forall. intros y Hy. rewrite List.Forall_forall in Hx.
    specialize (Hx y Hy). apply Z.leb_le in Hx.
    assert (x ≠ y) by (intros ->; now inversion Hnodup). lia.
Qed.

Lemma sorted_keys (l : list Z) : StronglySorted Z.lt (sort Z.leb (unique Z.eqb l)).
Proof.
  apply strictly_sorted.
  - apply sort_strongly_sorted.
    + intros a b. rewrite Z.leb_le, Z.leb_gt. lia.
    + intros a b c. rewrite !Z.leb_le. lia.
  - apply (Permutation.Permutation_NoDup (Permutation_sym (sort_perm Z.leb _))),
      unique_NoDup.
Qed.

Lemma Forall2_keys {K B : Type} (P : K → K * B → Prop) (ks : list K)
    (grouped : list (K * B)) :
  Forall2 (fun k a => a.1 = k ∧ P k a) ks grouped → map fst grouped = ks.
Proof. induction 1 as [|k a ks l [Hk _] _ IH]; simpl; [reflexivity|]. now rewrite Hk, IH. Qed.

(** The groups of a table by an integer key, and their totals. *)
Lemma groups_by_Z (key : row → option Z) (t : table) (grouped : list (Z * aggregates)) :
  agg_groups (groupby Z.eqb Z.leb (map key t) t) = Ok grouped →
  StronglySorted Z.lt (map fst grouped) ∧
  (∀ r k, In r t → key r = Some k → ∃ a, In a grouped ∧ a.1 = k) ∧
  (∀ a, In a grouped →
     (∃ r, In r t ∧ key r = Some a.1) ∧
     agg (List.filter (fun r => key_is Z.eqb a.1 (key r)) t) = Ok a.2) ∧
  sum_list_with (fun a => lead_id_count a.2) grouped
  = length (List.filter (fun r => bool_decide (is_Some (key r)) && notnull (lead_id r)) t) ∧
  sum_list_with (fun a => status_converted a.2) grouped
  = length (List.filter
              (fun r => bool_decide (is_Some (key r)) && is_converted (status r)) t).
Proof.
  intros Hg. apply agg_groups_of_groupby in Hg.
  set (ks := sort Z.leb (unique Z.eqb (omap id (map key t)))) in *.
  assert (ks ≡ₚ unique Z.eqb (omap id (map key t))) as Hperm by apply sort_perm.
  assert (∀ a b : Z, (a =? b)%Z = (b =? a)%Z) as Hsym by apply Z.eqb_sym.
  assert (∀ a b c : Z, (a =? b)%Z = true → (b =? c)%Z = true → (a =? c)%Z = true) as Htrans
    by (intros a b c; rewrite !Z.eqb_eq; congruence).
  assert (∀ (r : row) (b : bool),
            match key r with Some _ => b | None => false end
            = bool_decide (is_Some (key r)) && b) as Hkey.
  { intros r b.
    destruct (key r); [now rewrite bool_decide_true by eauto|].
    rewrite bool_decide_false; [reflexivity|]. intros [? ?]. discriminate. }
  split; [|split; [|split; [|split]]].
  - rewrite (Forall2_keys _ _ _ Hg). apply sorted_keys.
  - intros r k Hr Hk.
    assert (In k ks) as Hin.
    { apply (Permutation_in _ (Permutation_sym Hperm)).
      destruct (unique_represents Z.eqb (omap id (map key t)) k Hsym Htrans)
        as (k' & Hk' & Hkk'); [eapply In_omap_id; eassumption|apply Z.eqb_refl|].
      apply Z.eqb_eq in Hkk'. now subst. }
    destruct (Forall2_In_l _ _ _ k Hg Hin) as (a & Ha & Hak & _). eauto.
  - intros a Ha. destruct (Forall2_In_r _ _ _ _ Hg Ha) as (k & Hk & <- & Hagg).
    split; [|assumption].
    apply (Permutation_in _ Hperm), (unique_subset Z.eqb), In_omap_id_inv in Hk.
    exact Hk.
  - transitivity (length (List.filter
      (fun r => match key r with Some _ => notnull (lead_id r) | None => false end) t)).
    2:{ f_equal. apply filter_ext. intros r. apply Hkey. }
    rewrite <- (group_sizes_sum Z.eqb Hsym Htrans key (fun r => notnull (lead_id r)) t ks);
      [|intros; apply Z.eqb_refl|assumption].
    symmetry. apply sum_Forall2. eapply Forall2_impl; [exact Hg|].
    intros k a [_ Ha]. apply agg_Ok in Ha as (-> & _).
    unfold series_count, getitem. now rewrite filter_of_map, filter_twice.
  - transitivity (length (List.filter
      (fun r => match key r with Some _ => is_converted (status r) | None => false end) t)).
    2:{ f_equal. apply filter_ext. intros r. apply Hkey. }
    rewrite <- (group_sizes_sum Z.eqb Hsym Htrans key (fun r => is_converted (status r)) t ks);
      [|intros; apply Z.eqb_refl|assumption].
    symmetry. apply sum_Forall2. eapply Forall2_impl; [exact Hg|].
    intros k a [_ Ha]. apply agg_Ok in Ha as (_ & _ & ->).
    unfold converted_count, getitem. now rewrite filter_of_map, filter_twice.
Qed.

Lemma trends_returns (t : table) (daily : list daily_stats) (weekly : list weekly_stats) :
  trends t = Ok (daily, weekly) ↔
  forallb is_datetime (getitem date_added_col t) = true ∧
  ∃ by_day by_week,
    agg_groups (groupby Z.eqb Z.leb (map (fun r => dt_date (date_added r)) t) t)
    = Ok by_day ∧
    agg_groups (groupby Z.eqb Z.leb (map (fun r => dt_to_period_W (date_added r)) t) t)
    = Ok by_week ∧
    daily = map daily_row by_day ∧ weekly = map weekly_row by_week.
Proof.
  unfold trends, dt_accessor.
  destruct (forallb is_datetime (getitem date_added_col t)); simpl rbind.
  2:{ split; [discriminate|]. intros [? _]. discriminate. }
  unfold getitem. rewrite !map_map.
  change (fun x => dt_date (get date_added_col x)) with (fun r => dt_date (date_added r)).
  change (fun x => dt_to_period_W (get date_added_col x))
    with (fun r => dt_to_period_W (date_added r)).
  destruct (agg_groups (groupby Z.eqb Z.leb (map (fun r => dt_date (date_added r)) t) t))
    as [by_day|e]; simpl rbind.
  2:{ split; [discriminate|]. intros (_ & ? & ? & ? & _). discriminate. }
  destruct (agg_groups
              (groupby Z.eqb Z.leb (map (fun r => dt_to_period_W (date_added r)) t) t))
    as [by_week|e]; simpl rbind.
  2:{ split; [discriminate|]. intros (_ & ? & ? & _ & ? & _). discriminate. }
  split.
  - intros [= <- <-]. split; [reflexivity|]. eauto 6.
  - intros (_ & ? & ? & [= <-] & [= <-] & -> & ->). reflexivity.
Qed.

Lemma dated (v : value) :
  is_datetime v = true →
  bool_decide (is_Some (dt_date v)) = notnull v ∧
  bool_decide (is_Some (dt_to_period_W v)) = notnull v.
Proof. destruct v; try discriminate; intros _; split; reflexivity. Qed.

(** X12. [analyze_trends] on an analyzer that holds the table [t] as
    its cleaned table.  It raises [AttributeError] when some
    [date_added] cell is not a datetime (as after a [clean_data] that
    failed on the dates).  When the column is a datetime column and the
    lead values of the dated rows are numbers or missing, it returns a
    daily and a weekly table and leaves the analyzer as it was; both
    tables are in strictly ascending order of their day or week, every
    dated row falls in an entry of its day and in an entry of its week,
    and every entry is the day or week of some row and counts, over the
    rows of that day or week, the rows with a [lead_id] and the rows
    with the status "Converted". *)
Theorem analyze_trends_by_day_and_week (s : session) (c : positive) (t : table) :
  clean_df s = Some c → heap s !! c = Some t →
  ((∃ r, In r t ∧ is_datetime (date_added r) = false) →
   analyze_trends s = (Raise AttributeError, s)) ∧
  ((∀ r, In r t → is_datetime (date_added r) = true) →
   (∀ r, In r t → notnull (date_added r) = true →
      is_num (lead_value r) || isnull (lead_value r) = true) →
   ∃ daily weekly,
     analyze_trends s = (Ok (Some (daily, weekly)), s) ∧
     StronglySorted Z.lt (map date daily) ∧
     StronglySorted Z.lt (map week weekly) ∧
     (∀ r ns, In r t → date_added r = Timestamp ns →
        (∃ d, In d daily ∧ date d = (ns / ns_per_day)%Z) ∧
        (∃ w, In w weekly ∧ week w = ((ns / ns_per_day + 3) / 7)%Z)) ∧
     (∀ d, In d daily →
        let rows := List.filter (fun r => key_is Z.eqb (date d) (dt_date (date_added r))) t in
        rows ≠ [] ∧
        leads_added d = length (List.filter (fun r => notnull (lead_id r)) rows) ∧
        daily_conversions d
        = length (List.filter (fun r => is_converted (status r)) rows)) ∧
     (∀ w, In w weekly →
        let rows :=
          List.filter (fun r => key_is Z.eqb (week w) (dt_to_period_W (date_added r))) t in
        rows ≠ [] ∧
        weekly_leads_added w = length (List.filter (fun r => notnull (lead_id r)) rows) ∧
        weekly_conversions w
        = length (List.filter (fun r => is_converted (status r)) rows))).
Proof.
  intros Hc Ht. rewrite (analyze_trends_held s c t Hc Ht). split.
  - intros (r & Hr & Hdate). unfold trends, dt_accessor.
    assert (forallb is_datetime (getitem date_added_col t) = false) as ->; [|reflexivity].
    destruct (forallb _ _) eqn:E; [|reflexivity].
    rewrite forallb_forall in E. rewrite <- Hdate. symmetry. apply E.
    unfold getitem. now apply (in_map date_added).
  - intros Hdates Hcells.
    destruct (agg_groups_total Z.eqb Z.leb (fun r => dt_date (date_added r)) t)
      as [by_day Hday].
    { intros r Hr Hsome. apply Hcells; [assumption|].
      destruct (date_added r); try reflexivity; destruct Hsome; discriminate. }
    destruct (agg_groups_total Z.eqb Z.leb (fun r => dt_to_period_W (date_added r)) t)
      as [by_week Hweek].
    { intros r Hr Hsome. apply Hcells; [assumption|].
      destruct (date_added r); try reflexivity; destruct Hsome; discriminate. }
    exists (map daily_row by_day), (map weekly_row by_week).
    assert (trends t = Ok (map daily_row by_day, map weekly_row by_week)) as ->.
    { apply trends_returns. split; [|eauto 6].
      apply forallb_forall. intros v Hv. unfold getitem in Hv.
      apply in_map_iff in Hv as (r & <- & Hr). now apply Hdates. }
    split; [reflexivity|].
    destruct (groups_by_Z _ t by_day Hday) as (Hsorted & Hall & Hrows & _).
    destruct (groups_by_Z _ t by_week Hweek) as (Hsorted' & Hall' & Hrows' & _).
    split; [|split; [|split; [|split]]].
    + rewrite map_map. exact Hsorted.
    + rewrite map_map. exact Hsorted'.
    + intros r ns Hr Hns. split.
      * destruct (Hall r (ns / ns_per_day)%Z Hr) as (a & Ha & Hk); [now rewrite Hns|].
        exists (daily_row a). split; [now apply in_map|assumption].
      * destruct (Hall' r ((ns / ns_per_day + 3) / 7)%Z Hr) as (a & Ha & Hk);
          [now rewrite Hns|].
        exists (weekly_row a). split; [now apply in_map|assumption].
    + intros d Hd. apply in_map_iff in Hd as (a & <- & Ha).
      destruct (Hrows a Ha) as ((r & Hr & Hk) & Hagg).
      apply agg_Ok in Hagg as (Hleads & Hsum & Hconv). cbn [date daily_row].
      split; [|split].
      * intros Hnil.
        assert (In r (List.filter (fun r => key_is Z.eqb a.1 (dt_date (date_added r))) t))
          as Hin by (apply filter_In; split; [assumption|]; rewrite Hk; apply Z.eqb_refl).
        rewrite Hnil in Hin. destruct Hin.
      * simpl. rewrite Hleads. unfold series_count, getitem. apply filter_of_map.
      * simpl. rewrite Hconv. unfold converted_count, getitem. apply filter_of_map.
    + intros w Hw. apply in_map_iff in Hw as (a & <- & Ha).
      destruct (Hrows' a Ha) as ((r & Hr & Hk) & Hagg).
      apply agg_Ok in Hagg as (Hleads & Hsum & Hconv). cbn [week weekly_row].
      split; [|split].
      * intros Hnil.
        assert (In r (List.filter
                        (fun r => key_is Z.eqb a.1 (dt_to_period_W (date_added r))) t))
          as Hin by (apply filter_In; split; [assumption|]; rewrite Hk; apply Z.eqb_refl).
        rewrite Hnil in Hin. destruct Hin.
      * simpl. rewrite Hleads. unfold series_count, getitem. apply filter_of_map.
      * simpl. rewrite Hconv. unfold converted_count, getitem. apply filter_of_map.
Qed.

Lemma sum_list_with_filter {A : Type} (f : A → nat) (p : A → bool) (l : list A) :
  sum_list_with f (List.filter p l) = sum_list_with (fun x => if p x then f x else 0%nat) l.
Proof.
  induction l as [|x l IH]; simpl; [reflexivity|].
  destruct (p x); simpl; now rewrite IH.
Qed.

Lemma filter_none {A : Type} (l : list A) : List.filter (fun _ => false) l = [].
Proof. now induction l. Qed.

(** A count over the rows of a week is the sum of the counts over the
    rows of its days. *)
Lemma week_of_days (t : table) (by_day by_week : list (Z * aggregates))
    (count : aggregates → nat) (p : row → bool) :
  (∀ g a, agg g = Ok a → count a = length (List.filter p g)) →
  agg_groups (groupby Z.eqb Z.leb (map (fun r => dt_date (date_added r)) t) t)
  = Ok by_day →
  agg_groups (groupby Z.eqb Z.leb (map (fun r => dt_to_period_W (date_added r)) t) t)
  = Ok by_week →
  ∀ a, In a by_week →
    count a.2
    = sum_list_with (fun b => count b.2)
        (List.filter (fun b => ((b.1 + 3) / 7 =? a.1)%Z) by_day).
Proof.
  intros Hcount Hday Hweek a Ha.
  apply agg_groups_of_groupby in Hday, Hweek.
  destruct (Forall2_In_r _ _ _ _ Hweek Ha) as (w & _ & <- & Hagg).
  rewrite (Hcount _ _ Hagg), filter_twice, sum_list_with_filter.
  set (ks := sort Z.leb _) in Hday.
  transitivity (sum_list_with
    (fun k => length (List.filter
       (fun r => key_is Z.eqb k (dt_date (date_added r))
                 && (key_is Z.eqb a.1 (dt_to_period_W (date_added r)) && p r)) t)) ks).
  - rewrite (group_sizes_sum Z.eqb Z.eqb_sym).
    + f_equal. apply filter_ext. intros r. now destruct (date_added r).
    + intros x y z. rewrite !Z.eqb_eq. congruence.
    + intros. apply Z.eqb_refl.
    + apply sort_perm.
  - apply sum_Forall2. eapply Forall2_impl; [exact Hday|].
    intros k b [Hk Hb]. cbn beta. rewrite (Hcount _ _ Hb), Hk, filter_twice.
    rewrite (filter_ext _ (fun r => ((k + 3) / 7 =? a.1)%Z
                                    && (key_is Z.eqb k (dt_date (date_added r)) && p r))).
    2:{ intros r. destruct (date_added r) as [| |x|q|ns];
          cbn [key_is dt_date dt_to_period_W andb]; try (symmetry; apply andb_false_r).
        destruct (ns / ns_per_day =? k)%Z eqn:E; [|symmetry; apply andb_false_r].
        apply Z.eqb_eq in E. rewrite E. cbn [andb]. reflexivity. }
    destruct ((k + 3) / 7 =? a.1)%Z; cbn [andb]; [reflexivity|].
    now rewrite filter_none.
Qed.

(** X13. The daily and the weekly table of [analyze_trends] count the
    same rows, those with a date: when the call returns, the
    [leads_added] of either table add up to the number of rows with a
    date and a [lead_id], and the conversions of either to the number of
    rows with a date and the status "Converted"; and the leads and the
    conversions of a week are the sums of those of its days, a day
    belonging to the week from Monday to Sunday it is in. *)
Theorem weeks_add_up_their_days (s : session) (c : positive) (t : table)
    (daily : list daily_stats) (weekly : list weekly_stats) (s' : session) :
  clean_df s = Some c → heap s !! c = Some t →
  analyze_trends s = (Ok (Some (daily, weekly)), s') →
  let dated (p : row → bool) :=
    length (List.filter (fun r => notnull (date_added r) && p r) t) in
  sum_list_with leads_added daily = dated (fun r => notnull (lead_id r)) ∧
  sum_list_with weekly_leads_added weekly = dated (fun r => notnull (lead_id r)) ∧
  sum_list_with daily_conversions daily = dated (fun r => is_converted (status r)) ∧
  sum_list_with weekly_conversions weekly = dated (fun r => is_converted (status r)) ∧
  (∀ w, In w weekly →
     let days := List.filter (fun d => ((date d + 3) / 7 =? week w)%Z) daily in
     weekly_leads_added w = sum_list_with leads_added days ∧
     weekly_conversions w = sum_list_with daily_conversions days).
Proof.
  intros Hc Ht. rewrite (analyze_trends_held s c t Hc Ht).
  destruct (trends t) as [[daily' weekly']|e] eqn:E; [|discriminate].
  intros [= <- <- <-].
  apply trends_returns in E as (Hdates & by_day & by_week & Hday & Hweek & -> & ->).
  destruct (groups_by_Z _ t by_day Hday) as (_ & _ & _ & Hleads & Hconv).
  destruct (groups_by_Z _ t by_week Hweek) as (_ & _ & _ & Hleads' & Hconv').
  rewrite forallb_forall in Hdates.
  assert (∀ r, In r t → is_datetime (date_added r) = true) as Hdt
    by (intros r Hr; apply Hdates; unfold getitem; now apply (in_map date_added)).
  assert (∀ p : row → bool,
            length (List.filter (fun r => bool_decide (is_Some (dt_date (date_added r)))
                                          && p r) t)
            = length (List.filter (fun r => notnull (date_added r) && p r) t)) as Hd.
  { intros p. f_equal. apply filter_ext_in. intros r Hr.
    now rewrite (proj1 (dated _ (Hdt r Hr))). }
  assert (∀ p : row → bool,
            length (List.filter
                      (fun r => bool_decide (is_Some (dt_to_period_W (date_added r)))
                                && p r) t)
            = length (List.filter (fun r => notnull (date_added r) && p r) t)) as Hw.
  { intros p. f_equal. apply filter_ext_in. intros r Hr.
    now rewrite (proj2 (dated _ (Hdt r Hr))). }
  cbn zeta. rewrite !sum_list_with_map.
  split; [|split; [|split; [|split]]].
  - cbn [leads_added daily_row]. rewrite Hleads. apply Hd.
  - cbn [weekly_leads_added weekly_row]. rewrite Hleads'. apply Hw.
  - cbn [daily_conversions daily_row]. rewrite Hconv. apply Hd.
  - cbn [weekly_conversions weekly_row]. rewrite Hconv'. apply Hw.
  - intros w Hin. apply in_map_iff in Hin as (a & <- & Ha).
    assert (∀ f : daily_stats → nat,
              sum_list_with f
                (List.filter (fun d => ((date d + 3) / 7 =? a.1)%Z) (map daily_row by_day))
              = sum_list_with (fun b => f (daily_row b))
                  (List.filter (fun b => ((b.1 + 3) / 7 =? a.1)%Z) by_day)) as Hdays.
    { intros f. rewrite !sum_list_with_filter, sum_list_with_map. reflexivity. }
    cbn [week weekly_leads_added weekly_conversions weekly_row]. rewrite !Hdays. split.
    + apply (week_of_days t by_day by_week lead_id_count (fun r => notnull (lead_id r)));
        try assumption.
      intros g b Hb. apply agg_Ok in Hb as (-> & _).
      unfold series_count, getitem. apply filter_of_map.
    + apply (week_of_days t by_day by_week status_converted
               (fun r => is_converted (status r))); try assumption.
      intros g b Hb. apply agg_Ok in Hb as (_ & _ & ->).
      unfold converted_count, getitem. apply filter_of_map.
Qed.

(** ** The menu *)

Lemma tables_kept (a a' : session) (n n' : list notice) :
  heap a' = heap a → df a' = df a → clean_df a' = clean_df a →
  menu_tables_ok (mk_menu (Some a) n) → menu_tables_ok (mk_menu (Some a') n').
Proof.
  unfold menu_tables_ok, wf, raw_table, cleaned_table. cbn [analyzer].
  now intros -> -> ->.
Qed.

Lemma when_cleaned_keeps {A : Type} (method : M A) (m m' : menu) :
  (∀ s, wf s → heap (method s).2 = heap s ∧ df (method s).2 = df s ∧
                clean_df (method s).2 = clean_df s) →
  menu_tables_ok m → when_cleaned method m = Looping m' → menu_tables_ok m'.
Proof.
  intros Hmethod Hm. unfold when_cleaned.
  destruct m as [[a|] n]; cbn [analyzer notices].
  2:{ intros [= <-]. exact I. }
  destruct (clean_df a); [|intros [= <-]; exact Hm].
  pose proof Hm as [Hwf _]. destruct (Hmethod a Hwf) as (Hh & Hd & Hc).
  destruct (method a) as [[x|e] a']; intros [= <-].
  now apply (tables_kept a a' n n).
Qed.

Lemma aggregations_keep_the_tables (s : session) :
  wf s →
  ∀ s', s' = (calculate_conversion_rate s).2 ∨ s' = (analyze_by_source s).2 ∨
        s' = (analyze_by_status s).2 ∨ s' = (analyze_trends s).2 →
  heap s' = heap s ∧ df s' = df s ∧ clean_df s' = clean_df s.
Proof.
  intros Hwf s' H. destruct (aggregation_state s Hwf s' H) as [->| ->]; auto.
Qed.

Lemma load_data_on_a_new_analyzer (path : string) (t : table) :
  ∃ a, load_data (Ok t) (init path) = (Ok true, a) ∧
       wf a ∧ csv_file a = path ∧ raw_table a = Some t ∧ clean_df a = None.
Proof.
  unfold load_data, init. unfold_monad. state. eexists. split; [reflexivity|].
  split; [|split; [reflexivity|split; [|reflexivity]]].
  - split; state; [|discriminate]. intros l [= <-]. rewrite lookup_insert_eq. eauto.
  - unfold raw_table. state. cbn [mbind option_bind]. apply lookup_insert_eq.
Qed.

Lemma clean_data_keeps_the_menu (a : session) (l : positive) (n : list notice) :
  menu_tables_ok (mk_menu (Some a) n) → df a = Some l →
  (clean_data a).1 = Ok tt →
  menu_tables_ok (mk_menu (Some (clean_data a).2) n).
Proof.
  intros (Hwf & raw & Hraw & _) Hdf Hok.
  assert (heap a !! l = Some raw) as Hl.
  { unfold raw_table in Hraw. rewrite Hdf in Hraw. exact Hraw. }
  destruct (clean_data_frames a l raw Hdf Hl) as (Hdf' & Hl' & (c & Hc & _ & Hheld) & _).
  destruct (clean_data_returns a l raw Hdf Hl) as [Hiff Hcleaned].
  destruct (proj1 Hiff Hok) as [_ Hdates].
  unfold menu_tables_ok. cbn [analyzer]. split.
  - split.
    + intros l' Hl''. rewrite Hdf' in Hl''. injection Hl'' as <-. eauto.
    + intros c' Hc'. rewrite Hc in Hc'. injection Hc' as <-. eauto.
  - exists raw. split.
    + unfold raw_table. rewrite Hdf'. exact Hl'.
    + right. split; [now apply Hcleaned|now apply cleaned_rows_are_clean].
Qed.

Section Menu.

Variable create_visualizations : M unit.
Variable export_report : string → M unit.
Hypothesis charts_read_only : read_only create_visualizations.
Hypothesis reports_read_only : ∀ format, read_only (export_report format).

Lemma menu_turn_keeps (t : turn) (m m' : menu) :
  menu_tables_ok m →
  menu_turn create_visualizations export_report t m = Looping m' ∨
  menu_turn create_visualizations export_report t m = Returned m' →
  menu_tables_ok m'.
Proof.
  intros Hm. unfold menu_turn.
  destruct (String.eqb (PyStr.strip (choice_typed t)) "1").
  { destruct (csv_read t) as [tbl|e].
    - match goal with
      | |- context [load_data (Ok tbl) (init ?p)] =>
          destruct (load_data_on_a_new_analyzer p tbl) as (a & -> & Hwf & _ & Hraw & Hc)
      end.
      intros [[= <-]|[=]]. unfold menu_tables_ok. cbn [analyzer]. eauto.
    - unfold load_data. unfold_monad. intros [[= <-]|[=]]. exact I. }
  destruct (String.eqb (PyStr.strip (choice_typed t)) "2").
  { destruct m as [[a|] n]; cbn [analyzer notices].
    2:{ intros [[= <-]|[=]]. exact I. }
    destruct (df a) as [l|] eqn:Hdf; [|intros [[= <-]|[=]]; exact Hm].
    pose proof (clean_data_keeps_the_menu a l n Hm Hdf) as Hclean.
    destruct (clean_data a) as [[[]|e] a']; intros [[= <-]|[=]]. now apply Hclean. }
  assert (∀ s, wf s →
            ∀ s', s' = (calculate_conversion_rate s).2 ∨ s' = (analyze_by_source s).2 ∨
                  s' = (analyze_by_status s).2 ∨ s' = (analyze_trends s).2 →
            heap s' = heap s ∧ df s' = df s ∧ clean_df s' = clean_df s) as Hagg
    by exact aggregations_keep_the_tables.
  repeat
    match goal with
    | |- context [if String.eqb ?a ?b then _ else _] => destruct (String.eqb a b)
    end;
    try (intros [H|H];
         [refine (when_cleaned_keeps _ _ _ _ Hm H); intros s Hs;
          first [apply charts_read_only | apply reports_read_only
                | apply (Hagg s Hs); auto 6]
         |unfold when_cleaned in H; repeat case_match; discriminate]).
  - intros [[= <-]|[=]]. unfold show_data_info. now repeat case_match.
  - intros [[=]|[= <-]]. exact Hm.
  - intros [[= <-]|[=]]. exact Hm.
Qed.

Lemma menu_loop_keeps (turns : list turn) (m m' : menu) :
  menu_tables_ok m →
  menu_loop create_visualizations export_report turns m = Looping m' ∨
  menu_loop create_visualizations export_report turns m = Returned m' →
  menu_tables_ok m'.
Proof.
  revert m. induction turns as [|t turns IH]; intros m Hm; cbn [menu_loop].
  - intros [[= <-]|[=]]. exact Hm.
  - destruct (menu_turn create_visualizations export_report t m) as [m1|m1|e m1] eqn:E.
    + apply IH. apply (menu_turn_keeps t m m1 Hm). auto.
    + intros [[=]|[= <-]]. apply (menu_turn_keeps t m m1 Hm). auto.
    + intros [[=]|[=]].
Qed.

End Menu.

(** X14. The menu never analyses a half-cleaned table.  The methods
    that draw the charts and write the reports read the tables and rebind
    nothing; then, however the rounds of the menu go, as long as the loop
    goes on or has ended with choice 0, an analyzer the menu holds has the
    raw table it loaded, and either no cleaned table or the cleaned table
    of that raw table, every row cleaned: an exception of [clean_data]
    ends the program before a later choice can use the table it left. *)
Theorem menu_holds_no_half_cleaned_table
    (create_visualizations : M unit) (export_report : string → M unit)
    (turns : list turn) (m : menu) :
  read_only create_visualizations →
  (∀ format, read_only (export_report format)) →
  main create_visualizations export_report turns = Looping m ∨
  main create_visualizations export_report turns = Returned m →
  ∀ a, analyzer m = Some a →
    ∃ raw, raw_table a = Some raw ∧
      (clean_df a = None ∨
       (cleaned_table a = Some (cleaned_rows raw) ∧
        ∀ r, In r (cleaned_rows raw) → is_clean r = true)).
Proof.
  intros Hcharts Hreports Hmain a Ha.
  pose proof (menu_loop_keeps create_visualizations export_report Hcharts Hreports
                turns (mk_menu None []) m I Hmain) as Hm.
  unfold menu_tables_ok in Hm. rewrite Ha in Hm.
  destruct Hm as (_ & raw & Hraw & Hclean). exists raw. split; [assumption|].
  destruct Hclean as [Hnone|[Hcleaned Hall]]; [now left|right].
  split; [assumption|]. now apply forallb_forall.
Qed.

(** X15. Choice 1 starts over.  When the file cannot be read the menu
    is left without an analyzer, also when it had one with data loaded
    and cleaned, and choice 2 then asks to load a file first.  When the
    file is read the menu has a new analyzer for the path typed, or for
    the default path when none was typed, with the table read and no
    cleaned table, and the choices 3 to 9 then ask to clean first. *)
Theorem a_load_starts_over
    (create_visualizations : M unit) (export_report : string → M unit)
    (t : turn) (m : menu) :
  PyStr.strip (choice_typed t) = "1" →
  match csv_read t with
  | Raise _ =>
      ∃ m', menu_turn create_visualizations export_report t m = Looping m' ∧
        analyzer m' = None ∧
        ∀ t2, PyStr.strip (choice_typed t2) = "2" →
          menu_turn create_visualizations export_report t2 m'
          = Looping (warn PleaseLoadFirst m')
  | Ok table_read =>
      ∃ m' a, menu_turn create_visualizations export_report t m = Looping m' ∧
        analyzer m' = Some a ∧
        csv_file a = (match PyStr.strip (path_typed t) with
                      | EmptyString => default_path
                      | _ => PyStr.strip (path_typed t)
                      end) ∧
        raw_table a = Some table_read ∧ cleaned_table a = None ∧
        ∀ t2, In (PyStr.strip (choice_typed t2)) ["3"; "4"; "5"; "6"; "7"; "8"; "9"] →
          menu_turn create_visualizations export_report t2 m'
          = Looping (warn PleaseCleanFirst m')
  end.
Proof.
  intros Hchoice.
  destruct (csv_read t) as [table_read|e] eqn:Hread;
    unfold menu_turn at 1; rewrite Hchoice, Hread;
    change (String.eqb "1" "1") with true; cbv iota.
  - match goal with
    | |- context [load_data (Ok table_read) (init ?p)] =>
        destruct (load_data_on_a_new_analyzer p table_read)
          as (a & -> & Hwf & Hfile & Hraw & Hc)
    end.
    eexists. exists a. split; [reflexivity|]. cbn [analyzer].
    split; [reflexivity|]. split; [exact Hfile|]. split; [exact Hraw|].
    split; [unfold cleaned_table; now rewrite Hc|].
    intros t2 Hin. unfold menu_turn.
    cbn [In] in Hin.
    repeat (destruct Hin as [<-|Hin]);
      [..|destruct Hin];
      cbn [String.eqb Ascii.eqb Bool.eqb]; cbv iota;
      unfold when_cleaned; cbn [analyzer]; now rewrite Hc.
  - unfold load_data. unfold_monad. eexists. split; [reflexivity|]. cbn [analyzer].
    split; [reflexivity|]. intros t2 H2. unfold menu_turn. rewrite H2.
    cbn [String.eqb Ascii.eqb Bool.eqb]. cbv iota. reflexivity.
Qed.

(** ** What the e-mail pattern accepts *)

Lemma matches_nil (r : Re.regex) : matches r [] ↔ Re.nullable r = true.
Proof.
  split.
  - intros H. remember [] as l eqn:El.
    induction H as [|p c Hc|r1 r2 l1 l2 _ IH1 _ IH2|r1 r2 l _ IH|r1 r2 l _ IH| |];
      simpl; try reflexivity; try discriminate.
    + apply app_eq_nil in El as [-> ->]. now rewrite IH1, IH2.
    + now rewrite IH.
    + rewrite IH by assumption. apply orb_true_r.
  - induction r as [| |p|r1 IH1 r2 IH2|r1 IH1 r2 IH2|r IH]; simpl;
      try discriminate; intros H.
    + constructor.
    + apply andb_prop in H as [H1 H2].
      apply (matches_Seq r1 r2 [] []); auto.
    + apply orb_prop in H as [H|H]; [apply matches_Alt_l|apply matches_Alt_r]; auto.
    + constructor.
Qed.

Lemma matches_of_deriv (c : ascii) (r : Re.regex) (l : list ascii) :
  matches (Re.deriv c r) l → matches r (c :: l).
Proof.
  revert l. induction r as [| |p|r1 IH1 r2 IH2|r1 IH1 r2 IH2|r IH]; simpl; intros l H.
  - inversion H.
  - inversion H.
  - destruct (p c) eqn:Hc; inversion H; subst. now constructor.
  - assert (∀ l, matches (Re.Seq (Re.deriv c r1) r2) l → matches (Re.Seq r1 r2) (c :: l))
      as Hseq.
    { intros l' H'. inversion H' as [| |? ? l1 l2 H1 H2| | | |]; subst.
      apply (matches_Seq r1 r2 (c :: l1) l2); auto. }
    destruct (Re.nullable r1) eqn:Hnull; [|now apply Hseq].
    inversion H as [| | |? ? ? H'|? ? ? H'| |]; subst; [now apply Hseq|].
    apply (matches_Seq r1 r2 [] (c :: l)); [now apply matches_nil|auto].
  - inversion H; subst; [apply matches_Alt_l|apply matches_Alt_r]; auto.
  - inversion H as [| |? ? l1 l2 H1 H2| | | |]; subst.
    apply (matches_Star_app r (c :: l1) l2); auto.
Qed.

Lemma deriv_of_matches (r : Re.regex) (l : list ascii) :
  matches r l → ∀ c l', l = c :: l' → matches (Re.deriv c r) l'.
Proof.
  induction 1 as [|p c0 Hc|r1 r2 l1 l2 H1 IH1 H2 IH2|r1 r2 l H IH|r1 r2 l H IH
                 |r|r l1 l2 H1 IH1 H2 IH2];
    intros c l' El; simpl.
  - discriminate.
  - injection El as -> <-. rewrite Hc. constructor.
  - destruct l1 as [|c1 l1].
    + simpl in El. apply matches_nil in H1. rewrite H1.
      apply matches_Alt_r. now apply IH2.
    + injection El as -> <-.
      assert (matches (Re.Seq (Re.deriv c r1) r2) (l1 ++ l2)) as Hseq
        by (constructor; auto).
      destruct (Re.nullable r1); [now apply matches_Alt_l|assumption].
  - apply matches_Alt_l. now apply IH.
  - apply matches_Alt_r. now apply IH.
  - discriminate.
  - destruct l1 as [|c1 l1].
    + simpl in El. now apply IH2.
    + injection El as -> <-. constructor; auto.
Qed.

(** The matcher decides the language of the expression. *)
Lemma accepts_matches (r : Re.regex) (l : list ascii) :
  Re.accepts r l = true ↔ matches r l.
Proof.
  revert r. induction l as [|c l IH]; intros r; simpl.
  - symmetry. apply matches_nil.
  - rewrite IH. split; [apply matches_of_deriv|].
    intros H. now apply (deriv_of_matches r (c :: l)).
Qed.

Lemma matches_Seq_inv (r1 r2 : Re.regex) (l : list ascii) :
  matches (Re.Seq r1 r2) l ↔ ∃ l1 l2, l = (l1 ++ l2)%list ∧ matches r1 l1 ∧ matches r2 l2.
Proof.
  split.
  - intros H. inversion H; subst. eauto.
  - intros (l1 & l2 & -> & H1 & H2). now constructor.
Qed.

Lemma matches_Class_inv (p : ascii → bool) (l : list ascii) :
  matches (Re.Class p) l ↔ ∃ c, l = [c] ∧ p c = true.
Proof.
  split.
  - intros H. inversion H; subst. eauto.
  - intros (c & -> & H). now constructor.
Qed.

Lemma matches_Star_Class (p : ascii → bool) (l : list ascii) :
  matches (Re.Star (Re.Class p)) l ↔ Forall (fun c => p c = true) l.
Proof.
  split.
  - intros H. remember (Re.Star (Re.Class p)) as r eqn:Er.
    induction H as [| | | | | |r l1 l2 H1 _ _ IH2]; try discriminate.
    + constructor.
    + injection Er as ->. apply matches_Class_inv in H1 as (c & -> & Hc).
      constructor; auto.
  - induction 1 as [|c l Hc _ IH]; [constructor|].
    apply (matches_Star_app _ [c] l); [now constructor|assumption].
Qed.

Lemma matches_Plus_Class (p : ascii → bool) (l : list ascii) :
  matches (Re.Plus (Re.Class p)) l ↔ l ≠ [] ∧ Forall (fun c => p c = true) l.
Proof.
  unfold Re.Plus. rewrite matches_Seq_inv. split.
  - intros (l1 & l2 & -> & H1 & H2).
    apply matches_Class_inv in H1 as (c & -> & Hc). apply matches_Star_Class in H2.
    split; [discriminate|]. constructor; assumption.
  - intros [Hne H]. destruct H as [|c l Hc H]; [congruence|].
    exists [c], l. split; [reflexivity|].
    split; [now constructor|now apply matches_Star_Class].
Qed.

Lemma matches_AtLeast2_Class (p : ascii → bool) (l : list ascii) :
  matches (Re.AtLeast2 (Re.Class p)) l ↔
  (2 ≤ length l)%nat ∧ Forall (fun c => p c = true) l.
Proof.
  unfold Re.AtLeast2. rewrite matches_Seq_inv. split.
  - intros (l1 & l2 & -> & H1 & H2).
    apply matches_Class_inv in H1 as (c & -> & Hc).
    apply (matches_Plus_Class p) in H2 as [Hne H2].
    split; [|constructor; assumption].
    destruct l2; [congruence|simpl; lia].
  - intros [Hlen H]. destruct H as [|c l Hc H]; [simpl in Hlen; lia|].
    exists [c], l. split; [reflexivity|]. split; [now constructor|].
    apply (matches_Plus_Class p). split; [|assumption].
    destruct l; [simpl in Hlen; lia|discriminate].
Qed.

Lemma email_pattern_matches (l : list ascii) : matches email_pattern l ↔ is_address l.
Proof.
  unfold email_pattern, is_address, Re.Chr.
  rewrite matches_Seq_inv. split.
  - intros (local & l1 & -> & Hlocal & H).
    apply matches_Plus_Class in Hlocal as [Hne Hlocal].
    apply matches_Seq_inv in H as (at_sign & l2 & -> & Hat & H).
    apply matches_Class_inv in Hat as (c & -> & Hc). apply Ascii.eqb_eq in Hc as <-.
    apply matches_Seq_inv in H as (domain & l3 & -> & Hdomain & H).
    apply matches_Plus_Class in Hdomain as [Hne' Hdomain].
    apply matches_Seq_inv in H as (dot & tld & -> & Hdot & Htld).
    apply matches_Class_inv in Hdot as (c & -> & Hc). apply Ascii.eqb_eq in Hc as <-.
    apply matches_AtLeast2_Class in Htld as [Hlen Htld].
    exists local, domain, tld. auto 10.
  - intros (local & domain & tld & -> & Hne & Hlocal & Hne' & Hdomain & Hlen & Htld).
    exists local, ("@"%char :: domain ++ "."%char :: tld)%list.
    split; [reflexivity|]. split; [now apply matches_Plus_Class|].
    apply (matches_Seq _ _ ["@"%char] (domain ++ "."%char :: tld));
      [constructor; apply Ascii.eqb_refl|].
    apply matches_Seq; [now apply matches_Plus_Class|].
    apply (matches_Seq _ _ ["."%char] tld); [constructor; apply Ascii.eqb_refl|].
    now apply matches_AtLeast2_Class.
Qed.

Lemma match_anchored_matches (r : Re.regex) (s : string) :
  Re.match_anchored r s = true ↔
  matches r (list_ascii_of_string s) ∨
  ∃ body, list_ascii_of_string s = (body ++ [Re.newline])%list ∧ matches r body.
Proof.
  unfold Re.match_anchored. set (l := list_ascii_of_string s).
  rewrite orb_true_iff, accepts_matches.
  assert ((match rev l with
           | c :: l' => Ascii.eqb c Re.newline && Re.accepts r (rev l')
           | [] => false
           end = true)
          ↔ ∃ body, l = (body ++ [Re.newline])%list ∧ matches r body) as ->; [|reflexivity].
  destruct (rev l) as [|c l'] eqn:E.
  - split; [discriminate|]. intros (body & Hl & _).
    rewrite Hl, rev_app_distr in E. discriminate.
  - rewrite andb_true_iff, Ascii.eqb_eq, accepts_matches.
    assert (l = (rev l' ++ [c])%list) as Hl
      by (rewrite <- (rev_involutive l), E; reflexivity).
    split.
    + intros [-> H]. eauto.
    + intros (body & Hbody & H). rewrite Hbody in Hl.
      apply app_inj_tail in Hl as [-> <-]. auto.
Qed.

Lemma no_at_sign (p : ascii → bool) (l : list ascii) :
  p "@"%char = false → Forall (fun c => p c = true) l →
  List.filter (Ascii.eqb "@"%char) l = [].
Proof.
  intros Hp. induction 1 as [|c l Hc _ IH]; cbn [List.filter]; [reflexivity|].
  destruct (Ascii.eqb "@"%char c) eqn:E; [|assumption].
  apply Ascii.eqb_eq in E as <-. congruence.
Qed.

(** X16. The e-mails [clean_data] keeps.  An e-mail cell is left as it
    is, and not replaced by "Invalid email", exactly when it is a string
    that reads: one or more letters, digits or [._%+-], an at sign, one
    or more letters, digits or [.-], a dot, and two or more letters;
    after which one newline may follow, which the [$] of the pattern
    lets pass.  Such a string has exactly one at sign. *)
Theorem kept_emails_are_addresses (v : value) :
  (cleaned_email v ≠ Str "Invalid email" ↔
   ∃ s body, v = Str s ∧ is_address body ∧
     (list_ascii_of_string s = body ∨
      list_ascii_of_string s = (body ++ [Re.newline])%list)) ∧
  (cleaned_email v ≠ Str "Invalid email" →
   ∃ s, v = Str s ∧
     length (List.filter (Ascii.eqb "@"%char) (list_ascii_of_string s)) = 1%nat).
Proof.
  assert (cleaned_email v ≠ Str "Invalid email" ↔ email_matches v = true) as Hkept.
  { unfold cleaned_email. destruct (email_matches v) eqn:E.
    - split; [reflexivity|]. intros _ ->. vm_compute in E. discriminate.
    - split; [congruence|discriminate]. }
  assert (email_matches v = true ↔
          ∃ s body, v = Str s ∧ is_address body ∧
            (list_ascii_of_string s = body ∨
             list_ascii_of_string s = (body ++ [Re.newline])%list)) as Hshape.
  { destruct v as [| |s| |]; cbn [email_matches];
      try (split; [discriminate|intros (? & ? & [=] & _)]).
    rewrite match_anchored_matches. split.
    - intros [H|(body & Hs & H)]; apply email_pattern_matches in H; eauto 6.
    - intros (s' & body & [= <-] & H & [Hs|Hs]); apply email_pattern_matches in H.
      + left. now rewrite Hs.
      + right. eauto. }
  split; [now rewrite Hkept|].
  intros H. apply Hkept, Hshape in H as (s & body & -> & Haddress & Hs).
  exists s. split; [reflexivity|].
  destruct Haddress as (local & domain & tld & -> & _ & Hlocal & _ & Hdomain & _ & Htld).
  assert (length (List.filter (Ascii.eqb "@"%char)
                    (local ++ "@"%char :: domain ++ "."%char :: tld)) = 1%nat) as Hone.
  { rewrite List.filter_app. cbn [List.filter]. rewrite Ascii.eqb_refl.
    rewrite List.filter_app. cbn [List.filter].
    change (Ascii.eqb "@"%char "."%char) with false. cbv iota.
    rewrite (no_at_sign _ local eq_refl Hlocal), (no_at_sign _ domain eq_refl Hdomain),
      (no_at_sign _ tld eq_refl Htld).
    reflexivity. }
  destruct Hs as [-> | ->]; [exact Hone|].
  rewrite List.filter_app, length_app, Hone. reflexivity.
Qed.

(** ** The conversion rate as a share *)

Lemma conversion_rate_of_filter (t : table) :
  conversion_rate_of t
  = if (0 <? length t)%nat
    then (of_nat (length (List.filter (fun r => is_converted (status r)) t))
          / of_nat (length t) * 100)%Q
    else 0%Q.
Proof.
  unfold conversion_rate_of, getitem.
  now rewrite map_map, (select_filter (fun r => is_converted (get status_col r))).
Qed.

Lemma share_of (c n : nat) :
  (c ≤ S n)%nat →
  (0 <= of_nat c / of_nat (S n) * 100 <= 100)%Q ∧
  ((of_nat c / of_nat (S n) * 100 == 0)%Q ↔ c = 0%nat) ∧
  ((of_nat c / of_nat (S n) * 100 == 100)%Q ↔ c = S n).
Proof.
  intros Hc. unfold of_nat, Qdiv, Qmult, Qinv, Qle, Qeq.
  cbn [inject_Z Qnum Qden].
  replace (Z.of_nat (S n)) with (Z.pos (Pos.of_succ_nat n))
    by (rewrite Zpos_P_of_succ_nat; lia).
  cbn [Qnum Qden]. rewrite !Pos.mul_1_l, !Pos.mul_1_r, !Z.mul_1_r.
  rewrite !Zpos_P_of_succ_nat. lia.
Qed.

Lemma filter_length_all {A : Type} (p : A → bool) (l : list A) :
  length (List.filter p l) = length l → ∀ x, In x l → p x = true.
Proof.
  induction l as [|a l IH]; simpl; [tauto|].
  pose proof (filter_length_le p l) as Hle.
  destruct (p a) eqn:Ha; simpl; intros H x [<-|Hx]; try lia; auto.
Qed.

(** X17. The conversion rate is a share.  On an analyzer that holds a
    cleaned table, [calculate_conversion_rate] returns a number between
    0 and 100, which is 0 exactly when no row has the status "Converted"
    and 100 exactly when the table has rows and all of them have it; the
    rows without a status count among the rows. *)
Theorem conversion_rate_is_a_share (s : session) (c : positive) (t : table) :
  clean_df s = Some c → heap s !! c = Some t →
  ∃ rate,
    calculate_conversion_rate s = (Ok (Some rate), s) ∧
    (0 <= rate <= 100)%Q ∧
    ((rate == 0)%Q ↔ ∀ r, In r t → status r ≠ Str "Converted") ∧
    ((rate == 100)%Q ↔ t ≠ [] ∧ ∀ r, In r t → status r = Str "Converted").
Proof.
  intros Hc Ht. exists (conversion_rate_of t).
  split; [exact (calculate_conversion_rate_held s c t Hc Ht)|].
  rewrite conversion_rate_of_filter.
  set (converted := List.filter (fun r => is_converted (status r)) t).
  assert (length converted ≤ length t)%nat as Hle by apply filter_length_le.
  assert (length converted = 0%nat ↔ ∀ r, In r t → status r ≠ Str "Converted") as Hnone.
  { split.
    - intros H r Hr Hstatus.
      assert (0 < length converted)%nat; [|lia].
      apply filter_nonempty. exists r. split; [assumption|]. now apply is_converted_iff.
    - intros H. destruct converted as [|r l] eqn:E; [reflexivity|].
      assert (In r (r :: l)) as Hin by now left.
      rewrite <- E in Hin. apply filter_In in Hin as [Hr Hconv].
      apply is_converted_iff in Hconv. now destruct (H r Hr). }
  assert (length converted = length t ↔ ∀ r, In r t → status r = Str "Converted") as Hall.
  { split.
    - intros H r Hr. apply is_converted_iff.
      now apply (filter_length_all (fun r => is_converted (status r)) t H).
    - intros H. unfold converted. apply forallb_length_filter.
      apply forallb_forall. intros r Hr. apply is_converted_iff. now apply H. }
  destruct t as [|r0 t'].
  - cbn [length Nat.ltb Nat.leb]. split; [split; discriminate|]. split.
    + split; [intros _ r []|reflexivity].
    + split; [discriminate|]. intros [H _]. congruence.
  - cbn [length] in *. replace (0 <? S (length t'))%nat with true by reflexivity.
    destruct (share_of (length converted) (length t') Hle) as (Hbounds & Hzero & Hfull).
    split; [exact Hbounds|]. split.
    + now rewrite Hzero, Hnone.
    + rewrite Hfull, Hall. split; [intros H; split; [discriminate|assumption]|tauto].
Qed.
End Parsers.

(** * Examples and counterexamples, with the parsers of [Sample] *)

Local Abbreviation dates := Sample.parse_datetime.
Local Abbreviation numbers := Sample.parse_numeric.
Local Abbreviation the_loaded t := (loaded dates numbers "leads.csv" t).
Local Abbreviation the_cleaned t := (cleaned dates numbers "leads.csv" t).
Local Abbreviation cleaning t := (run (cleaning_statements dates numbers) t).

Example strip_title_google : PyStr.title (PyStr.strip " google ") = "Google".
Proof. reflexivity. Qed.

Example title_words : PyStr.title "gOOGLE ads-x o'neil 3d" = "Google Ads-X O'Neil 3D".
Proof. reflexivity. Qed.

Example email_ok : Re.match_anchored email_pattern "a@b.co" = true.
Proof. now vm_compute. Qed.

Example email_bad : Re.match_anchored email_pattern "bad-email" = false.
Proof. now vm_compute. Qed.

Example email_short_tld : Re.match_anchored email_pattern "a@b.c" = false.
Proof. now vm_compute. Qed.

Example email_subdomain :
  Re.match_anchored email_pattern "jo.e+x@mail.ex-ample.org" = true.
Proof. now vm_compute. Qed.

Example scenario_cleaned :
  cleaned_table (the_cleaned scenario)
  = Some [ mk_row (Num 1) (Str "Ann") (Str "Invalid email") (Str "Not provided")
             (Str "Google") (Str "Converted") (Num 150) NaT;
           mk_row (Num 2) (Str "Bob") (Str "Invalid email") (Str "Not provided")
             (Str "Google") (Str "New") (Num 0) NaT ].
Proof. now vm_compute. Qed.

Example scenario_by_source :
  match (analyze_by_source (the_cleaned scenario)).1 with
  | Ok (Some [google]) =>
      source_index google = Str "Google" ∧ total_leads google = 2 ∧
      match conversion_rate google with
      | Finite rate => (rate == 50)%Q
      | _ => False
      end
  | _ => False
  end.
Proof. vm_compute. repeat split. Qed.


(** C5, as stated, fails: the cleaned table of [leads] has four rows, one
    of them without source and status, and the group counts add up to
    three. *)
Lemma group_counts_miss_a_row :
  length <$> cleaned_table (the_cleaned leads) = Some 4 ∧
  match (analyze_by_source (the_cleaned leads)).1 with
  | Ok (Some stats) => sum_list_with total_leads stats = 3
  | _ => False
  end ∧
  match (analyze_by_status (the_cleaned leads)).1 with
  | Ok (Some stats) => sum_list_with Count stats = 3
  | _ => False
  end.
Proof. vm_compute. repeat split. Qed.

(** C9, as stated, fails: no [clean_data] has succeeded on the analyzer
    that loaded [leads_bad_date] and failed to clean it, and yet
    [calculate_conversion_rate] prints nothing and returns a rate. *)
Lemma conversion_rate_after_a_failed_clean :
  clean_succeeded
    (after_calls dates numbers "leads.csv" [Load (Ok leads_bad_date); Clean]).1 = false ∧
  match calculate_conversion_rate
          (after_calls dates numbers "leads.csv" [Load (Ok leads_bad_date); Clean]).2 with
  | (Ok (Some rate), s') => (rate == 50)%Q ∧ stdout s' = []
  | _ => False
  end.
Proof. vm_compute. repeat split. Qed.

(** * The theorems at the sample file *)

Lemma conversion_rate_is_converted_share_witness :
  clean_df (the_cleaned leads) = Some 2%positive ∧
  heap (the_cleaned leads) !! 2%positive = Some (cleaning leads).2 ∧
  calculate_conversion_rate (the_cleaned leads)
  = (Ok (Some (spec_conversion_rate (cleaning leads).2)), the_cleaned leads).
Proof.
  assert (clean_df (the_cleaned leads) = Some 2%positive) as H1
    by (vm_compute; reflexivity).
  assert (heap (the_cleaned leads) !! 2%positive = Some (cleaning leads).2) as H2
    by (vm_compute; reflexivity).
  exact (conj H1 (conj H2
    (proj1 (conversion_rate_is_converted_share dates numbers _ _ _ "leads.csv" H1 H2)))).
Defined.

Lemma emails_are_validated_witness :
  df (the_loaded leads) = Some 1%positive ∧
  heap (the_loaded leads) !! 1%positive = Some leads ∧
  (clean_data dates numbers (the_loaded leads)).1 = Ok tt ∧
  ∃ t', cleaned_table (clean_data dates numbers (the_loaded leads)).2 = Some t' ∧
    Forall2 (fun r r' =>
      email r' ≠ Str "Not provided" ∧
      (email_matches (email r) = true → email r' = email r) ∧
      (email_matches (email r) = false → email r' = Str "Invalid email")) leads t'.
Proof.
  assert (df (the_loaded leads) = Some 1%positive) as H1 by (vm_compute; reflexivity).
  assert (heap (the_loaded leads) !! 1%positive = Some leads) as H2
    by (vm_compute; reflexivity).
  assert ((clean_data dates numbers (the_loaded leads)).1 = Ok tt) as H3
    by (vm_compute; reflexivity).
  exact (conj H1 (conj H2 (conj H3
    (proj2 (proj2 (proj2 (proj2
      (emails_are_validated dates numbers _ _ _ H1 H2 H3)))))))).
Defined.

Lemma cleaning_keeps_rows_witness :
  df (the_loaded leads) = Some 1%positive ∧
  heap (the_loaded leads) !! 1%positive = Some leads ∧
  (clean_data dates numbers (the_loaded leads)).1 = Ok tt ∧
  ∃ t', cleaned_table (clean_data dates numbers (the_loaded leads)).2 = Some t' ∧
    length t' = length leads ∧
    Forall2 (fun r r' =>
      r' = cleaned_row dates numbers (date_format_of leads) r ∧ lead_id r' = lead_id r ∧
      isnull (phone r') = false ∧ isnull (email r') = false ∧
      email r' ≠ Str EmptyString ∧
      (phone r ≠ Str EmptyString → phone r' ≠ Str EmptyString)) leads t'.
Proof.
  assert (df (the_loaded leads) = Some 1%positive) as H1 by (vm_compute; reflexivity).
  assert (heap (the_loaded leads) !! 1%positive = Some leads) as H2
    by (vm_compute; reflexivity).
  assert ((clean_data dates numbers (the_loaded leads)).1 = Ok tt) as H3
    by (vm_compute; reflexivity).
  exact (conj H1 (conj H2 (conj H3
    (cleaning_keeps_rows dates numbers _ _ _ H1 H2 H3)))).
Defined.

Lemma missing_source_or_status_is_left_out_witness :
  df (the_loaded leads) = Some 1%positive ∧
  heap (the_loaded leads) !! 1%positive = Some leads ∧
  (clean_data dates numbers (the_loaded leads)).1 = Ok tt ∧
  (∀ t', by_source t' = by_source (List.filter (fun r => notnull (source r)) t')).
Proof.
  assert (df (the_loaded leads) = Some 1%positive) as H1 by (vm_compute; reflexivity).
  assert (heap (the_loaded leads) !! 1%positive = Some leads) as H2
    by (vm_compute; reflexivity).
  assert ((clean_data dates numbers (the_loaded leads)).1 = Ok tt) as H3
    by (vm_compute; reflexivity).
  exact (conj H1 (conj H2 (conj H3
    (proj1 (proj2
      (missing_source_or_status_is_left_out dates numbers _ _ _ H1 H2 H3)))))).
Defined.

Lemma clean_data_works_on_a_copy_witness :
  df (the_loaded leads) = Some 1%positive ∧
  heap (the_loaded leads) !! 1%positive = Some leads ∧
  df (clean_data dates numbers (the_loaded leads)).2 = Some 1%positive ∧
  heap (clean_data dates numbers (the_loaded leads)).2 !! 1%positive = Some leads.
Proof.
  assert (df (the_loaded leads) = Some 1%positive) as H1 by (vm_compute; reflexivity).
  assert (heap (the_loaded leads) !! 1%positive = Some leads) as H2
    by (vm_compute; reflexivity).
  pose proof (clean_data_works_on_a_copy dates numbers _ _ _ H1 H2) as H.
  exact (conj H1 (conj H2 (conj (proj1 H) (proj1 (proj2 H))))).
Defined.


Lemma group_counts_add_up_witness :
  clean_df (the_cleaned leads) = Some 2%positive ∧
  heap (the_cleaned leads) !! 2%positive = Some (cleaning leads).2 ∧
  ∃ stats, analyze_by_status (the_cleaned leads) = (Ok (Some stats), the_cleaned leads) ∧
    sum_list_with Count stats
    = length (List.filter (fun r => notnull (status r)) (cleaning leads).2) ∧
    (forallb (fun r => notnull (status r)) (cleaning leads).2 = true →
     sum_list_with Count stats = length (cleaning leads).2).
Proof.
  assert (clean_df (the_cleaned leads) = Some 2%positive) as H1
    by (vm_compute; reflexivity).
  assert (heap (the_cleaned leads) !! 2%positive = Some (cleaning leads).2) as H2
    by (vm_compute; reflexivity).
  exact (conj H1 (conj H2 (proj1 (proj2 (group_counts_add_up _ _ _ H1 H2))))).
Defined.

Lemma results_are_sorted_witness :
  clean_df (the_cleaned leads) = Some 2%positive ∧
  heap (the_cleaned leads) !! 2%positive = Some (cleaning leads).2 ∧
  ∀ stats s', analyze_by_source (the_cleaned leads) = (Ok (Some stats), s') →
    StronglySorted (fun a b => (total_value b <= total_value a)%Q) stats.
Proof.
  assert (clean_df (the_cleaned leads) = Some 2%positive) as H1
    by (vm_compute; reflexivity).
  assert (heap (the_cleaned leads) !! 2%positive = Some (cleaning leads).2) as H2
    by (vm_compute; reflexivity).
  exact (conj H1 (conj H2 (proj1 (results_are_sorted _ _ _ H1 H2)))).
Defined.

Lemma guards_report_and_keep_tables_witness :
  load_succeeded
    (after_calls dates numbers "leads.csv" [Load (Raise FileNotFoundError)]).1 = false ∧
  clean_started
    (after_calls dates numbers "leads.csv" [Load (Raise FileNotFoundError)]).1 = false ∧
  clean_data dates numbers
    (after_calls dates numbers "leads.csv" [Load (Raise FileNotFoundError)]).2
  = (Ok tt, say "Please load data first"
              (after_calls dates numbers "leads.csv" [Load (Raise FileNotFoundError)]).2) ∧
  calculate_conversion_rate
    (after_calls dates numbers "leads.csv" [Load (Raise FileNotFoundError)]).2
  = (Ok None, say "Please clean data first"
                (after_calls dates numbers "leads.csv" [Load (Raise FileNotFoundError)]).2).
Proof.
  assert (load_succeeded
    (after_calls dates numbers "leads.csv" [Load (Raise FileNotFoundError)]).1 = false)
    as H1 by reflexivity.
  assert (clean_started
    (after_calls dates numbers "leads.csv" [Load (Raise FileNotFoundError)]).1 = false)
    as H2 by reflexivity.
  pose proof (guards_report_and_keep_tables dates numbers "leads.csv"
                [Load (Raise FileNotFoundError)]) as H.
  exact (conj H1 (conj H2 (conj (proj1 H H1) (proj1 (proj1 (proj2 H) H2))))).
Defined.

(** * The further properties at the sample file *)

Lemma load_data_rebinds_the_raw_table_only_witness :
  wf (the_cleaned leads) ∧
  ∃ s', load_data (Ok scenario) (the_cleaned leads) = (Ok true, s') ∧
        raw_table s' = Some scenario ∧
        cleaned_table s' = cleaned_table (the_cleaned leads).
Proof.
  assert (wf (the_cleaned leads)) as H.
  { split; intros l Hl; vm_compute in Hl; injection Hl as <-; vm_compute; eauto. }
  split; [exact H|].
  destruct (proj1 (load_data_rebinds_the_raw_table_only
                     (the_cleaned leads) scenario FileNotFoundError H))
    as (s' & E & _ & Hraw & _ & _ & Hcleaned & _).
  exists s'. auto.
Defined.



Lemma cleaning_a_cleaned_table_changes_nothing_witness :
  ascii_text leads = true ∧
  df (the_loaded leads) = Some 1%positive ∧
  heap (the_loaded leads) !! 1%positive = Some leads ∧
  (clean_data dates numbers (the_loaded leads)).1 = Ok tt ∧
  cleaned_table (clean_data dates numbers (the_loaded leads)).2 = Some (cleaning leads).2 ∧
  df (the_loaded (cleaning leads).2) = Some 1%positive ∧
  heap (the_loaded (cleaning leads).2) !! 1%positive = Some (cleaning leads).2 ∧
  (clean_data dates numbers (the_loaded (cleaning leads).2)).1 = Ok tt ∧
  cleaned_table (clean_data dates numbers (the_loaded (cleaning leads).2)).2
  = Some (cleaning leads).2.
Proof.
  assert (df (the_loaded leads) = Some 1%positive) as H1 by (vm_compute; reflexivity).
  assert (heap (the_loaded leads) !! 1%positive = Some leads) as H2
    by (vm_compute; reflexivity).
  assert ((clean_data dates numbers (the_loaded leads)).1 = Ok tt) as H3
    by (vm_compute; reflexivity).
  assert (cleaned_table (clean_data dates numbers (the_loaded leads)).2
          = Some (cleaning leads).2) as H4 by (vm_compute; reflexivity).
  assert (df (the_loaded (cleaning leads).2) = Some 1%positive) as H5
    by (vm_compute; reflexivity).
  assert (heap (the_loaded (cleaning leads).2) !! 1%positive = Some (cleaning leads).2)
    as H6 by (vm_compute; reflexivity).
  assert (ascii_text leads = true) as H0 by (vm_compute; reflexivity).
  exact (conj H0 (conj H1 (conj H2 (conj H3 (conj H4 (conj H5 (conj H6
    (cleaning_a_cleaned_table_changes_nothing dates numbers _ _ _ _ _ _
       H0 H1 H2 H3 H4 H5 H6)))))))).
Defined.

Lemma standardized_text_forgets_case_and_margins_witness :
  let r1 := mk_row (Num 1) NaN NaN NaN (Str " google ") NaN NaN NaN in
  let r2 := mk_row (Num 2) NaN NaN NaN (Str "GOOGLE") NaN NaN NaN in
  ascii_string " google " = true ∧ ascii_string "GOOGLE" = true ∧
  source r1 = Str " google " ∧ source r2 = Str "GOOGLE" ∧
  lowercase (PyStr.strip " google ") = lowercase (PyStr.strip "GOOGLE") ∧
  source (cleaned_row dates numbers None r1) = source (cleaned_row dates numbers None r2).
Proof.
  intros r1 r2.
  assert (ascii_string " google " = true) as Ha by (vm_compute; reflexivity).
  assert (ascii_string "GOOGLE" = true) as Hb by (vm_compute; reflexivity).
  assert (source r1 = Str " google ") as H1 by reflexivity.
  assert (source r2 = Str "GOOGLE") as H2 by reflexivity.
  assert (lowercase (PyStr.strip " google ") = lowercase (PyStr.strip "GOOGLE")) as H3
    by (vm_compute; reflexivity).
  exact (conj Ha (conj Hb (conj H1 (conj H2 (conj H3
    (proj2 (proj1 (proj1 (standardized_text_forgets_case_and_margins dates numbers
                            None r1 r2 _ _ Ha Hb) H1 H2)) H3)))))).
Defined.

Lemma by_source_describes_each_source_witness :
  clean_df (the_cleaned leads) = Some 2%positive ∧
  heap (the_cleaned leads) !! 2%positive = Some (cleaning leads).2 ∧
  ∃ stats,
    analyze_by_source (the_cleaned leads) = (Ok (Some stats), the_cleaned leads) ∧
    ∀ g h, In g stats → In h stats →
      value_eqb (source_index g) (source_index h) = true → g = h.
Proof.
  assert (clean_df (the_cleaned leads) = Some 2%positive) as H1
    by (vm_compute; reflexivity).
  assert (heap (the_cleaned leads) !! 2%positive = Some (cleaning leads).2) as H2
    by (vm_compute; reflexivity).
  assert (∃ stats, analyze_by_source (the_cleaned leads)
                   = (Ok (Some stats), the_cleaned leads)) as [stats H3]
    by (eexists; vm_compute; reflexivity).
  split; [exact H1|]. split; [exact H2|]. exists stats. split; [exact H3|].
  exact (proj1 (proj2 (proj2 (by_source_describes_each_source _ _ _ _ _ H1 H2 H3)))).
Defined.

Lemma by_source_conserves_the_conversions_witness :
  clean_df (the_cleaned leads) = Some 2%positive ∧
  heap (the_cleaned leads) !! 2%positive = Some (cleaning leads).2 ∧
  ∃ stats,
    analyze_by_source (the_cleaned leads) = (Ok (Some stats), the_cleaned leads) ∧
    sum_list_with conversions stats
    = length (List.filter (fun r => notnull (source r) && is_converted (status r))
                (cleaning leads).2).
Proof.
  assert (clean_df (the_cleaned leads) = Some 2%positive) as H1
    by (vm_compute; reflexivity).
  assert (heap (the_cleaned leads) !! 2%positive = Some (cleaning leads).2) as H2
    by (vm_compute; reflexivity).
  assert (∃ stats, analyze_by_source (the_cleaned leads)
                   = (Ok (Some stats), the_cleaned leads)) as [stats H3]
    by (eexists; vm_compute; reflexivity).
  split; [exact H1|]. split; [exact H2|]. exists stats. split; [exact H3|].
  exact (proj1 (by_source_conserves_the_conversions _ _ _ _ _ H1 H2 H3)).
Defined.

Lemma source_rates_are_percentages_witness :
  clean_df (the_cleaned leads) = Some 2%positive ∧
  heap (the_cleaned leads) !! 2%positive = Some (cleaning leads).2 ∧
  (∀ r, In r (cleaning leads).2 → notnull (source r) = true →
        notnull (lead_id r) = true) ∧
  ∃ stats,
    analyze_by_source (the_cleaned leads) = (Ok (Some stats), the_cleaned leads) ∧
    ∀ g, In g stats →
      (1 ≤ total_leads g)%nat ∧ (conversions g ≤ total_leads g)%nat ∧
      ∃ q, conversion_rate g = Finite q ∧ (0 <= q <= 100)%Q.
Proof.
  assert (clean_df (the_cleaned leads) = Some 2%positive) as H1
    by (vm_compute; reflexivity).
  assert (heap (the_cleaned leads) !! 2%positive = Some (cleaning leads).2) as H2
    by (vm_compute; reflexivity).
  assert (∀ r, In r (cleaning leads).2 → notnull (source r) = true →
               notnull (lead_id r) = true) as Hid.
  { intros r Hr _. revert r Hr.
    apply (proj1 (forallb_forall (fun r => notnull (lead_id r)) (cleaning leads).2)).
    vm_compute. reflexivity. }
  assert (∃ stats, analyze_by_source (the_cleaned leads)
                   = (Ok (Some stats), the_cleaned leads)) as [stats H3]
    by (eexists; vm_compute; reflexivity).
  split; [exact H1|]. split; [exact H2|]. split; [exact Hid|].
  exists stats. split; [exact H3|].
  exact (proj1 (source_rates_are_percentages _ _ _ _ _ H1 H2 H3) Hid).
Defined.

Lemma analyze_by_source_outcomes_witness :
  clean_df (the_cleaned leads) = Some 2%positive ∧
  heap (the_cleaned leads) !! 2%positive = Some (cleaning leads).2 ∧
  ∀ stats s', analyze_by_source (the_cleaned leads) = (Ok (Some stats), s') → stats ≠ [].
Proof.
  assert (clean_df (the_cleaned leads) = Some 2%positive) as H1
    by (vm_compute; reflexivity).
  assert (heap (the_cleaned leads) !! 2%positive = Some (cleaning leads).2) as H2
    by (vm_compute; reflexivity).
  exact (conj H1 (conj H2 (proj2 (proj2 (analyze_by_source_outcomes _ _ _ H1 H2))))).
Defined.

Lemma by_status_describes_each_status_witness :
  clean_df (the_cleaned leads) = Some 2%positive ∧
  heap (the_cleaned leads) !! 2%positive = Some (cleaning leads).2 ∧
  ∃ stats,
    analyze_by_status (the_cleaned leads) = (Ok (Some stats), the_cleaned leads) ∧
    ∀ g h, In g stats → In h stats →
      value_eqb (status_index g) (status_index h) = true → g = h.
Proof.
  assert (clean_df (the_cleaned leads) = Some 2%positive) as H1
    by (vm_compute; reflexivity).
  assert (heap (the_cleaned leads) !! 2%positive = Some (cleaning leads).2) as H2
    by (vm_compute; reflexivity).
  destruct (by_status_describes_each_status _ _ _ H1 H2) as (stats & E & _ & Hd & _).
  eauto 6.
Defined.

Lemma converted_percentage_is_the_conversion_rate_witness :
  clean_df (the_cleaned leads) = Some 2%positive ∧
  heap (the_cleaned leads) !! 2%positive = Some (cleaning leads).2 ∧
  ∃ stats rate,
    analyze_by_status (the_cleaned leads) = (Ok (Some stats), the_cleaned leads) ∧
    calculate_conversion_rate (the_cleaned leads) = (Ok (Some rate), the_cleaned leads) ∧
    ∀ g, In g stats → status_index g = Str "Converted" →
      Percentage g = round2 (Finite rate).
Proof.
  assert (clean_df (the_cleaned leads) = Some 2%positive) as H1
    by (vm_compute; reflexivity).
  assert (heap (the_cleaned leads) !! 2%positive = Some (cleaning leads).2) as H2
    by (vm_compute; reflexivity).
  destruct (converted_percentage_is_the_conversion_rate _ _ _ H1 H2)
    as (stats & rate & E & E' & Hp & _).
  eauto 8.
Defined.

Lemma analyze_trends_by_day_and_week_witness :
  clean_df (the_cleaned leads) = Some 2%positive ∧
  heap (the_cleaned leads) !! 2%positive = Some (cleaning leads).2 ∧
  (∀ r, In r (cleaning leads).2 → is_datetime (date_added r) = true) ∧
  (∀ r, In r (cleaning leads).2 → notnull (date_added r) = true →
        is_num (lead_value r) || isnull (lead_value r) = true) ∧
  ∃ daily weekly,
    analyze_trends (the_cleaned leads) = (Ok (Some (daily, weekly)), the_cleaned leads) ∧
    StronglySorted Z.lt (map date daily) ∧ StronglySorted Z.lt (map week weekly).
Proof.
  assert (clean_df (the_cleaned leads) = Some 2%positive) as H1
    by (vm_compute; reflexivity).
  assert (heap (the_cleaned leads) !! 2%positive = Some (cleaning leads).2) as H2
    by (vm_compute; reflexivity).
  assert (∀ r, In r (cleaning leads).2 → is_datetime (date_added r) = true) as H3.
  { apply (proj1 (forallb_forall (fun r => is_datetime (date_added r)) (cleaning leads).2)).
    vm_compute. reflexivity. }
  assert (∀ r, In r (cleaning leads).2 → notnull (date_added r) = true →
               is_num (lead_value r) || isnull (lead_value r) = true) as H4.
  { intros r Hr _. revert r Hr.
    apply (proj1 (forallb_forall
                    (fun r => is_num (lead_value r) || isnull (lead_value r))
                    (cleaning leads).2)).
    vm_compute. reflexivity. }
  destruct (proj2 (analyze_trends_by_day_and_week _ _ _ H1 H2) H3 H4)
    as (daily & weekly & E & Hd & Hw & _).
  split; [exact H1|]. split; [exact H2|]. split; [exact H3|]. split; [exact H4|].
  exists daily, weekly. auto.
Defined.

Lemma weeks_add_up_their_days_witness :
  clean_df (the_cleaned leads) = Some 2%positive ∧
  heap (the_cleaned leads) !! 2%positive = Some (cleaning leads).2 ∧
  ∃ daily weekly,
    analyze_trends (the_cleaned leads) = (Ok (Some (daily, weekly)), the_cleaned leads) ∧
    sum_list_with leads_added daily
    = length (List.filter (fun r => notnull (date_added r) && notnull (lead_id r))
                (cleaning leads).2) ∧
    ∀ w, In w weekly →
      weekly_leads_added w
      = sum_list_with leads_added
          (List.filter (fun d => ((date d + 3) / 7 =? week w)%Z) daily).
Proof.
  assert (clean_df (the_cleaned leads) = Some 2%positive) as H1
    by (vm_compute; reflexivity).
  assert (heap (the_cleaned leads) !! 2%positive = Some (cleaning leads).2) as H2
    by (vm_compute; reflexivity).
  assert (∃ daily weekly, analyze_trends (the_cleaned leads)
                          = (Ok (Some (daily, weekly)), the_cleaned leads))
    as (daily & weekly & H3) by (do 2 eexists; vm_compute; reflexivity).
  destruct (weeks_add_up_their_days _ _ _ _ _ _ H1 H2 H3)
    as (Hleads & _ & _ & _ & Hweeks).
  split; [exact H1|]. split; [exact H2|]. exists daily, weekly.
  split; [exact H3|]. split; [exact Hleads|].
  intros w Hw. exact (proj1 (Hweeks w Hw)).
Defined.

Lemma menu_holds_no_half_cleaned_table_witness :
  let charts : M unit := fun s => (Ok tt, s) in
  let reports : string → M unit := fun _ s => (Ok tt, s) in
  let turns := [ mk_turn " 1 " "leads.csv" (Ok leads);
                 mk_turn "2" EmptyString (Ok []);
                 mk_turn "4" EmptyString (Ok []);
                 mk_turn "8" EmptyString (Ok []) ] in
  read_only charts ∧ (∀ format, read_only (reports format)) ∧
  ∃ m, main dates numbers charts reports turns = Looping m ∧
    ∀ a, analyzer m = Some a →
      ∃ raw, raw_table a = Some raw ∧
        (clean_df a = None ∨
         (cleaned_table a = Some (cleaned_rows dates numbers raw) ∧
          ∀ r, In r (cleaned_rows dates numbers raw) → is_clean r = true)).
Proof.
  intros charts reports turns.
  assert (read_only charts) as H1 by (intros s; auto).
  assert (∀ format, read_only (reports format)) as H2 by (intros format s; auto).
  assert (∃ m, main dates numbers charts reports turns = Looping m) as [m H3]
    by (eexists; vm_compute; reflexivity).
  split; [exact H1|]. split; [exact H2|]. exists m. split; [exact H3|].
  exact (menu_holds_no_half_cleaned_table dates numbers charts reports turns m
           H1 H2 (or_introl H3)).
Defined.

Lemma a_load_starts_over_witness :
  let charts : M unit := fun s => (Ok tt, s) in
  let reports : string → M unit := fun _ s => (Ok tt, s) in
  let t := mk_turn " 1 " "nowhere.csv" (Raise FileNotFoundError) in
  let m := mk_menu (Some (the_cleaned leads)) [] in
  PyStr.strip (choice_typed t) = "1" ∧
  ∃ m', menu_turn dates numbers charts reports t m = Looping m' ∧ analyzer m' = None.
Proof.
  intros charts reports t m.
  assert (PyStr.strip (choice_typed t) = "1") as H by (vm_compute; reflexivity).
  split; [exact H|].
  pose proof (a_load_starts_over dates numbers charts reports t m H) as X.
  cbn [csv_read t] in X. destruct X as (m' & E & Hnone & _). eauto.
Defined.

Lemma kept_emails_are_addresses_witness :
  cleaned_email (Str "ann@example.com") ≠ Str "Invalid email" ∧
  ∃ s, Str "ann@example.com" = Str s ∧
    length (List.filter (Ascii.eqb "@"%char) (list_ascii_of_string s)) = 1%nat.
Proof.
  assert (cleaned_email (Str "ann@example.com") ≠ Str "Invalid email") as H
    by (vm_compute; discriminate).
  exact (conj H (proj2 (kept_emails_are_addresses (Str "ann@example.com")) H)).
Defined.

Lemma conversion_rate_is_a_share_witness :
  clean_df (the_cleaned leads) = Some 2%positive ∧
  heap (the_cleaned leads) !! 2%positive = Some (cleaning leads).2 ∧
  ∃ rate,
    calculate_conversion_rate (the_cleaned leads) = (Ok (Some rate), the_cleaned leads) ∧
    (0 <= rate <= 100)%Q.
Proof.
  assert (clean_df (the_cleaned leads) = Some 2%positive) as H1
    by (vm_compute; reflexivity).
  assert (heap (the_cleaned leads) !! 2%positive = Some (cleaning leads).2) as H2
    by (vm_compute; reflexivity).
  destruct (conversion_rate_is_a_share _ _ _ H1 H2) as (rate & E & Hb & _).
  eauto.
Defined.
